(** * Resource-usage bar charts: [duim.py] and [assignment2.py]

    A shallow embedding of the two report scripts and of the part of the
    Python runtime they rely on, followed by the properties of the
    usage-aggregation and bar-rendering logic.

    Modelling conventions.
    - A Python [int] is a [Z].  A Python [float] is an IEEE-754 binary64
      value, represented by the standard library's [spec_float] and operated
      on by its reference operations ([SFmul], [SFdiv], ...) at precision 53.
    - A Python [str] is a [string] whose characters are code points below 256.
    - An exception is a value of [exn]; a computation that may raise returns
      a [result].
    - A [dict] is an association list kept in insertion order, as Python
      dictionaries are.
    - The files under [/proc] and the output of [du] are inputs: a file
      system is a function from a path to the lines of the file, if any.
    - The processes that the scripts start are inputs too: [du] by what its
      run came to (return code and outputs, or the exception of the call),
      [pidof] by the text it wrote.  The parsing of the command line by
      [argparse] is not modelled: [main] takes the parsed arguments. *)

From Stdlib Require Import ZArith List String Ascii Bool Lia.
From Stdlib Require Import Floats.SpecFloat DecimalString.
From Stdlib Require Import QArith Qround Qabs Lqa.
Import ListNotations.

#[local] Open Scope list_scope.
#[local] Open Scope string_scope.
#[local] Open Scope Z_scope.

(** ** The Python runtime used by the scripts *)

Module Py.

(** *** Exceptions *)

Inductive exn : Set :=
| ValueError
| IndexError
| ZeroDivisionError
| OverflowError
| FileNotFoundError.

Inductive result (A : Type) : Type :=
| Ok (a : A)
| Raise (e : exn).

Arguments Ok {A} a.
Arguments Raise {A} e.

Definition bind {A B : Type} (r : result A) (k : A -> result B) : result B :=
  match r with
  | Ok a => k a
  | Raise e => Raise e
  end.

Notation "x <- r ;; k" := (bind r (fun x => k))
  (at level 61, r at next level, right associativity).

(** *** Strings *)

Definition ord (c : ascii) : Z := Z.of_N (N_of_ascii c).

(** [str.isspace] on one character: TAB..CR, FS..US, SPACE, NEL, NBSP. *)
Definition isspace (c : ascii) : bool :=
  let n := ord c in
  ((9 <=? n) && (n <=? 13)) || ((28 <=? n) && (n <=? 32))
  || (n =? 133) || (n =? 160).

(** The string that [s * n] builds: [n] copies of [s], none when
    [n <= 0]. *)
Definition str_mul (s : string) (n : Z) : string :=
  Nat.iter (Z.to_nat n) (append s) "".

(** The counts that fit a machine index, from [-2 ^ 63] to [2 ^ 63 - 1]. *)
Definition index_fits (n : Z) : bool := (- 2 ^ 63 <=? n) && (n <? 2 ^ 63).

(** [s * n]: [OverflowError] when the count does not fit an index,
    whatever its sign, and when the length of the result would not.  (A
    string that the memory of the machine cannot hold is not modelled.) *)
Definition str_repeat (s : string) (n : Z) : result string :=
  if index_fits n then
    if 2 ^ 63 - 1 <? Z.of_nat (String.length s) * n then Raise OverflowError
    else Ok (str_mul s n)
  else Raise OverflowError.

(** [s.startswith(p)] *)
Definition startswith (s p : string) : bool := prefix p s.

(** [s.lstrip()] *)
Fixpoint lstrip (s : string) : string :=
  match s with
  | String c s' => if isspace c then lstrip s' else s
  | EmptyString => EmptyString
  end.

(** The longest whitespace-free prefix of [s], and what follows it. *)
Fixpoint take_word (s : string) : string * string :=
  match s with
  | String c s' =>
      if isspace c then (EmptyString, s)
      else let (w, r) := take_word s' in (String c w, r)
  | EmptyString => (EmptyString, EmptyString)
  end.

(** [s.split(maxsplit=k)] with no separator: whitespace runs separate the
    words, leading whitespace is dropped, and after [k] words the remainder
    (stripped on the left only) is the last item. *)
Fixpoint split_max (k : nat) (s : string) : list string :=
  match lstrip s with
  | EmptyString => []
  | String c s' as t =>
      match k with
      | O => [t]
      | S k' => let (w, r) := take_word t in w :: split_max k' r
      end
  end.

(** [s.split()]: the maximal whitespace-free runs of [s].  The auxiliary
    function returns the run that starts at the head of [s] (empty when [s]
    starts with whitespace) and the runs after it. *)
Fixpoint split_runs (s : string) : string * list string :=
  match s with
  | EmptyString => (EmptyString, [])
  | String c s' =>
      let (w, ws) := split_runs s' in
      if isspace c then
        (EmptyString, match w with EmptyString => ws | _ => w :: ws end)
      else (String c w, ws)
  end.

Definition split (s : string) : list string :=
  let (w, ws) := split_runs s in
  match w with EmptyString => ws | _ => w :: ws end.

(** [s.strip()], used by [int] on its argument. *)
Fixpoint rstrip (s : string) : string :=
  match s with
  | EmptyString => EmptyString
  | String c s' =>
      match rstrip s' with
      | EmptyString => if isspace c then EmptyString else String c EmptyString
      | t => String c t
      end
  end.

Definition strip (s : string) : string := rstrip (lstrip s).

(** [str(n)] for an [int].  The interpreter refuses, with [ValueError], to
    write an integer of more than 4300 digits (its default limit, which
    [sys.set_int_max_str_digits] changes); the limit is not part of this
    definition, which gives the digits of every integer. *)
Definition str_of_int (n : Z) : string := NilZero.string_of_int (Z.to_int n).

(** *** [int(s)] for a string, base ten

    An optional sign, then decimal digits, single underscores allowed
    between digits; surrounding whitespace is ignored; anything else raises
    [ValueError].  The interpreter also refuses, with [ValueError], a
    string of more than 4300 digits (its default limit, which
    [sys.set_int_max_str_digits] changes); the limit is not part of this
    definition, which reads every such string.  [du_line_short] and
    [du_record_ok] bound the digits where the limit matters. *)

Definition digit_of (c : ascii) : option Z :=
  let n := ord c in
  if (48 <=? n) && (n <=? 57) then Some (n - 48) else None.

Inductive lex_state : Set := AtStart | AfterDigit | AfterUnderscore.

Fixpoint int_digits (st : lex_state) (acc : Z) (s : string) : result Z :=
  match s with
  | EmptyString =>
      match st with
      | AfterDigit => Ok acc
      | _ => Raise ValueError
      end
  | String c s' =>
      match digit_of c with
      | Some d => int_digits AfterDigit (10 * acc + d) s'
      | None =>
          if (ord c =? 95) then
            match st with
            | AfterDigit => int_digits AfterUnderscore acc s'
            | _ => Raise ValueError
            end
          else Raise ValueError
      end
  end.

Definition int_of_str (s : string) : result Z :=
  match strip s with
  | String "+" s' => int_digits AtStart 0 s'
  | String "-" s' => n <- int_digits AtStart 0 s' ;; Ok (- n)
  | t => int_digits AtStart 0 t
  end.

(** *** Numbers *)

Definition prec : Z := 53.
Definition emax : Z := 1024.

Inductive num : Set :=
| PyInt (n : Z)
| PyFloat (f : spec_float).

(** [float(n)]: the nearest binary64 value, ties to even; [OverflowError]
    when that would be an infinity. *)
Definition float_of_int (n : Z) : result spec_float :=
  match binary_normalize prec emax n 0 false with
  | S754_infinity _ => Raise OverflowError
  | f => Ok f
  end.

Definition to_float (x : num) : result spec_float :=
  match x with
  | PyInt n => float_of_int n
  | PyFloat f => Ok f
  end.

Definition is_zero (f : spec_float) : bool :=
  match f with
  | S754_zero _ => true
  | _ => false
  end.

(** Exact comparison of a float with an integer, as the interpreter does
    it; [None] for a NaN. *)
Definition float_cmp_int (f : spec_float) (n : Z) : option comparison :=
  match f with
  | S754_nan => None
  | S754_infinity s => Some (if s then Lt else Gt)
  | S754_zero _ => Some (0 ?= n)
  | S754_finite s m e =>
      let v := cond_Zopp s (Zpos m) in
      match e with
      | Zneg k => Some (v ?= n * 2 ^ Zpos k)
      | _ => Some (v * 2 ^ e ?= n)
      end
  end.

(** [a <= b] *)
Definition le (a b : num) : bool :=
  match a, b with
  | PyInt x, PyInt y => x <=? y
  | PyFloat x, PyFloat y => SFleb x y
  | PyFloat x, PyInt y =>
      match float_cmp_int x y with
      | Some (Lt | Eq) => true
      | _ => false
      end
  | PyInt x, PyFloat y =>
      match float_cmp_int y x with
      | Some (Gt | Eq) => true
      | _ => false
      end
  end.

(** [a >= b] *)
Definition ge (a b : num) : bool :=
  match a, b with
  | PyInt x, PyInt y => y <=? x
  | PyFloat x, PyFloat y => SFleb y x
  | PyFloat x, PyInt y =>
      match float_cmp_int x y with
      | Some (Gt | Eq) => true
      | _ => false
      end
  | PyInt x, PyFloat y =>
      match float_cmp_int y x with
      | Some (Lt | Eq) => true
      | _ => false
      end
  end.

(** [a / b] on two [int]s: the correctly rounded quotient. *)
Definition int_truediv (a b : Z) : result spec_float :=
  if b =? 0 then Raise ZeroDivisionError
  else if a =? 0 then Ok (S754_zero (b <? 0))
  else
    match SFdiv prec emax
            (S754_finite (a <? 0) (Z.to_pos (Z.abs a)) 0)
            (S754_finite (b <? 0) (Z.to_pos (Z.abs b)) 0) with
    | S754_infinity _ => Raise OverflowError
    | f => Ok f
    end.

(** [a / b] *)
Definition truediv (a b : num) : result num :=
  match a, b with
  | PyInt x, PyInt y => f <- int_truediv x y ;; Ok (PyFloat f)
  | _, _ =>
      fa <- to_float a ;;
      fb <- to_float b ;;
      if is_zero fb then Raise ZeroDivisionError
      else Ok (PyFloat (SFdiv prec emax fa fb))
  end.

(** [a * b] *)
Definition mul (a b : num) : result num :=
  match a, b with
  | PyInt x, PyInt y => Ok (PyInt (x * y))
  | _, _ =>
      fa <- to_float a ;;
      fb <- to_float b ;;
      Ok (PyFloat (SFmul prec emax fa fb))
  end.

(** The integer nearest to [m / d], ties to the even one ([0 <= m], [0 < d]). *)
Definition div_half_even (m d : Z) : Z :=
  let q := m / d in
  match 2 * (m mod d) ?= d with
  | Lt => q
  | Gt => q + 1
  | Eq => if Z.even q then q else q + 1
  end.

(** [round(x)] with one argument: an [int], halves rounded to even. *)
Definition round (x : num) : result Z :=
  match x with
  | PyInt n => Ok n
  | PyFloat S754_nan => Raise ValueError
  | PyFloat (S754_infinity _) => Raise OverflowError
  | PyFloat (S754_zero _) => Ok 0
  | PyFloat (S754_finite s m e) =>
      Ok (cond_Zopp s
            match e with
            | Zneg k => div_half_even (Zpos m) (2 ^ Zpos k)
            | _ => Zpos m * 2 ^ e
            end)
  end.

(** [int(x)]: truncation toward zero. *)
Definition int (x : num) : result Z :=
  match x with
  | PyInt n => Ok n
  | PyFloat S754_nan => Raise ValueError
  | PyFloat (S754_infinity _) => Raise OverflowError
  | PyFloat (S754_zero _) => Ok 0
  | PyFloat (S754_finite s m e) =>
      Ok (cond_Zopp s
            match e with
            | Zneg k => Zpos m / 2 ^ Zpos k
            | _ => Zpos m * 2 ^ e
            end)
  end.

(** *** Formatting *)

(** [s.rjust(w)]: spaces on the left up to width [w]. *)
Definition rjust (w : nat) (s : string) : string :=
  Nat.iter (w - String.length s) (String " ") s.

(** [s.zfill(w)]: zeros on the left up to width [w] (unsigned [s]). *)
Definition zfill (w : nat) (s : string) : string :=
  Nat.iter (w - String.length s) (String "0") s.

(** The digits of [format(x, '.<nd>f')] for [x = t / 10 ^ nd >= 0]. *)
Definition fixed_digits (nd : nat) (t : Z) : string :=
  let p := 10 ^ Z.of_nat nd in
  match nd with
  | O => str_of_int t
  | _ => str_of_int (t / p) ++ "." ++ zfill nd (str_of_int (t mod p))
  end.

(** [format(f, '.<nd>f')] for a float: the decimal expansion with [nd]
    places nearest to the exact binary value, ties to even. *)
Definition format_fixed (nd : nat) (f : spec_float) : string :=
  match f with
  | S754_nan => "nan"
  | S754_infinity s => (if s then "-" else "") ++ "inf"
  | S754_zero s => (if s then "-" else "") ++ fixed_digits nd 0
  | S754_finite s m e =>
      let n := Zpos m * 10 ^ Z.of_nat nd in
      (if s then "-" else "")
      ++ fixed_digits nd
           match e with
           | Zneg k => div_half_even n (2 ^ Zpos k)
           | _ => n * 2 ^ e
           end
  end.

(** [format(x, '.<nd>f')] for a number: an [int] is converted first. *)
Definition format_f (nd : nat) (x : num) : result string :=
  f <- to_float x ;; Ok (format_fixed nd f).

(** The float literals of the scripts; each is an integer that binary64
    represents exactly. *)
Definition lit_1e3 : spec_float :=
  Eval vm_compute in binary_normalize prec emax (10 ^ 3) 0 false.
Definition lit_1e6 : spec_float :=
  Eval vm_compute in binary_normalize prec emax (10 ^ 6) 0 false.
Definition lit_1e9 : spec_float :=
  Eval vm_compute in binary_normalize prec emax (10 ^ 9) 0 false.

(** *** Exceptions handlers, sequences, dictionaries, files *)

Definition exn_eqb (a b : exn) : bool :=
  match a, b with
  | ValueError, ValueError
  | IndexError, IndexError
  | ZeroDivisionError, ZeroDivisionError
  | OverflowError, OverflowError
  | FileNotFoundError, FileNotFoundError => true
  | _, _ => false
  end.

(** [try: r except e: h] *)
Definition try_except {A : Type} (r : result A) (e : exn) (h : result A)
  : result A :=
  match r with
  | Ok a => Ok a
  | Raise e' => if exn_eqb e' e then h else Raise e'
  end.

(** [l[i]] for [i >= 0] *)
Definition item (l : list string) (i : nat) : result string :=
  match nth_error l i with
  | Some x => Ok x
  | None => Raise IndexError
  end.

(** A [dict] with string keys, in insertion order. *)
Definition dict (V : Type) : Type := list (string * V).

(** [d[k] = v]: an existing key keeps its place. *)
Fixpoint dict_set {V : Type} (d : dict V) (k : string) (v : V) : dict V :=
  match d with
  | [] => [(k, v)]
  | (k', v') :: d' =>
      if String.eqb k' k then (k, v) :: d' else (k', v') :: dict_set d' k v
  end.

Fixpoint dict_get {V : Type} (d : dict V) (k : string) : option V :=
  match d with
  | [] => None
  | (k', v') :: d' => if String.eqb k' k then Some v' else dict_get d' k
  end.

Definition values {V : Type} (d : dict V) : list V := map snd d.

(** [sum(l)] for a list of [int]s. *)
Definition sum (l : list Z) : Z := fold_left Z.add l 0.

(** The readable files: a path has the lines of its file, or none. *)
Definition filesystem : Type := string -> option (list string).

(** [open(path, "r")], read line by line. *)
Definition open_lines (fs : filesystem) (path : string) : result (list string) :=
  match fs path with
  | Some lines => Ok lines
  | None => Raise FileNotFoundError
  end.

(** [int(line.split()[i])] *)
Definition int_field (line : string) (i : nat) : result Z :=
  tok <- item (split line) i ;; int_of_str tok.

(** [s.split(sep)] for a separator of one character: the pieces between
    the separators, the empty ones included; never an empty list. *)
Fixpoint split_on (sep : ascii) (s : string) : list string :=
  match s with
  | EmptyString => [EmptyString]
  | String c s' =>
      if Ascii.eqb c sep then EmptyString :: split_on sep s'
      else
        match split_on sep s' with
        | piece :: pieces => String c piece :: pieces
        | [] => [String c EmptyString]
        end
  end.

(** The text read from a pipe opened with [text=True]: every carriage
    return, with the newline that follows it if there is one, is read as
    one newline. *)
Fixpoint universal_newlines (s : string) : string :=
  match s with
  | EmptyString => EmptyString
  | String c s' =>
      if Ascii.eqb c "013" then
        String "010"
          match s' with
          | String d s'' =>
              if Ascii.eqb d "010" then universal_newlines s''
              else universal_newlines s'
          | EmptyString => EmptyString
          end
      else String c (universal_newlines s')
  end.

(** [sep.join(l)] *)
Fixpoint join (sep : string) (l : list string) : string :=
  match l with
  | [] => EmptyString
  | [x] => x
  | x :: l' => x ++ sep ++ join sep l'
  end.

(** [s.ljust(w)], which is also [format(s, '<w')]: spaces on the right up
    to width [w]. *)
Definition ljust (w : nat) (s : string) : string :=
  s ++ Nat.iter (w - String.length s) (String " ") EmptyString.

(** [bool(s)] for a string: false for the empty one only. *)
Definition truthy (s : string) : bool :=
  match s with
  | EmptyString => false
  | String _ _ => true
  end.

(** [[int(x) for x in l]]: the first item that [int] refuses raises. *)
Fixpoint int_each (l : list string) : result (list Z) :=
  match l with
  | [] => Ok []
  | x :: l' => n <- int_of_str x ;; ns <- int_each l' ;; Ok (n :: ns)
  end.

End Py.

Import Py.

(** ** [duim.py] *)

Module Duim.

(** [percent_to_graph(percent, total_chars)] *)
Definition percent_to_graph (percent : num) (total_chars : Z) : result string :=
  if negb (le (PyInt 0) percent && le percent (PyInt 100)) then
    Raise ValueError
  else
    ratio <- truediv percent (PyInt 100) ;;
    scaled <- mul ratio (PyInt total_chars) ;;
    filled_length <- round scaled ;;
    bar <- str_repeat "=" filled_length ;;
    pad <- str_repeat " " (total_chars - filled_length) ;;
    Ok (bar ++ pad).

(** One line of [du]: [size, directory = line.split(maxsplit=1)], then
    [int(size)]; a wrong number of items or a non-integer size raises
    [ValueError]. *)
Definition parse_du_line (line : string) : result (string * Z) :=
  match split_max 1 line with
  | [size; directory] => n <- int_of_str size ;; Ok (directory, n)
  | _ => Raise ValueError
  end.

(** The loop of [create_dir_dict]: the [try] block reads the line and
    stores the entry; on [ValueError] the loop goes on with the dictionary
    as it was. *)
Fixpoint create_dir_loop (dir_dict : dict Z) (du_output : list string)
  : result (dict Z) :=
  match du_output with
  | [] => Ok dir_dict
  | line :: rest =>
      dir_dict' <-
        try_except
          (entry <- parse_du_line line ;;
           Ok (dict_set dir_dict (fst entry) (snd entry)))
          ValueError
          (Ok dir_dict) ;;
      create_dir_loop dir_dict' rest
  end.

(** [create_dir_dict(du_output)] *)
Definition create_dir_dict (du_output : list string) : result (dict Z) :=
  create_dir_loop [] du_output.

(** The loop of [get_rss_total] over the lines of the file. *)
Fixpoint rss_scan (lines : list string) (total_rss : Z) : result Z :=
  match lines with
  | [] => Ok total_rss
  | line :: rest =>
      if startswith line "Rss:" then
        v <- int_field line 1 ;; rss_scan rest (total_rss + v)
      else rss_scan rest total_rss
  end.

(** [get_rss_total(pid)]; the pid is interpolated in the path as it is. *)
Definition get_rss_total (fs : filesystem) (pid : string) : result Z :=
  try_except
    (f <- open_lines fs ("/proc/" ++ pid ++ "/smaps") ;; rss_scan f 0)
    FileNotFoundError
    (Ok 0).

(** What running [du -d 1 <target>] came to: the process ended with a
    return code, having written [stdout] and [stderr], or [Popen] or
    [communicate] raised an [Exception], of which [str] gives the
    message. *)
Inductive du_run : Set :=
| Ended (returncode : Z) (stdout stderr : string)
| Failed (message : string).

(** A call that returns, or prints and leaves through [sys.exit];
    [printed] holds the text of each call of [print], which may span
    several lines. *)
Inductive exit_or (A : Type) : Type :=
| Returns (a : A)
| Exits (printed : list string) (status : Z).

Arguments Returns {A} a.
Arguments Exits {A} printed status.

(** [call_du_sub(target_directory)], from what the process came to.
    [communicate] reads the two outputs as text, with universal newlines.
    The [RuntimeError] raised on a non-zero return code is caught by the
    handler of the function itself, as is every other [Exception]. *)
Definition call_du_sub (run : du_run) : exit_or (list string) :=
  match run with
  | Ended returncode stdout stderr =>
      let stdout := universal_newlines stdout in
      let stderr := universal_newlines stderr in
      if negb (returncode =? 0) then
        Exits ["Error: " ++ ("Error calling du: " ++ strip stderr)] 1
      else Returns (split_on "010" (strip stdout))
  | Failed message => Exits ["Error: " ++ message] 1
  end.

(** [get_pid_list()], from what [pidof] wrote. *)
Definition get_pid_list (pidof_output : string) : list string :=
  split pidof_output.

(** The command line, as parsed by [parse_command_args]. *)
Record args : Set := {
  target : string;
  human_readable : bool;
  length : Z
}.

(** The function that [main] binds to its local name [human_readable],
    one lambda or the other by the flag [args.human_readable]. *)
Definition size_formatter (human : bool) (x : Z) : result string :=
  if human then
    if ge (PyInt x) (PyFloat lit_1e9) then
      q <- truediv (PyInt x) (PyFloat lit_1e9) ;;
      s <- format_f 1 q ;; Ok (s ++ " G")
    else if ge (PyInt x) (PyFloat lit_1e6) then
      q <- truediv (PyInt x) (PyFloat lit_1e6) ;;
      s <- format_f 1 q ;; Ok (s ++ " M")
    else
      q <- truediv (PyInt x) (PyFloat lit_1e3) ;;
      s <- format_f 1 q ;; Ok (s ++ " K")
  else Ok (str_of_int x ++ " B").

(** [(size / total_size) * 100 if total_size > 0 else 0] *)
Definition entry_percent (size total_size : Z) : result num :=
  if total_size >? 0 then
    q <- truediv (PyInt size) (PyInt total_size) ;; mul q (PyInt 100)
  else Ok (PyInt 0).

(** The body of the loop of [main]: the line printed for one directory. *)
Definition entry_line (a : args) (total_size : Z) (directory : string)
  (size : Z) : result string :=
  percent <- entry_percent size total_size ;;
  bar <- percent_to_graph percent (length a) ;;
  shown <- format_f 0 percent ;;
  h <- size_formatter (human_readable a) size ;;
  Ok (rjust 3 shown ++ " % [" ++ bar ++ "] " ++ h ++ " " ++ directory).

(** The loop of [main] over [dir_dict.items()]: the lines printed so far,
    and the exception that ended the loop, if any. *)
Fixpoint report_loop (a : args) (total_size : Z) (items : dict Z)
  (out : list string) : list string * option exn :=
  match items with
  | [] => (out, None)
  | (directory, size) :: rest =>
      match entry_line a total_size directory size with
      | Ok line => report_loop a total_size rest (out ++ [line])
      | Raise e => (out, Some e)
      end
  end.

(** [main()], given the parsed arguments and the lines that [call_du_sub]
    returned for [args.target]: the lines printed, and the uncaught
    exception, if any. *)
Definition main (a : args) (du_output : list string)
  : list string * option exn :=
  match create_dir_dict du_output with
  | Raise e => ([], Some e)
  | Ok dir_dict =>
      let total_size := sum (values dir_dict) in
      match size_formatter (human_readable a) total_size with
      | Raise e => ([], Some e)
      | Ok h =>
          report_loop a total_size dir_dict
            ["Total: " ++ h ++ "   " ++ target a]
      end
  end.

(** How a run of the script ends. *)
Inductive ending : Set :=
| Finished
| Uncaught (e : exn)
| SystemExit (status : Z).

(** [main()], given the parsed arguments and what the [du] process came
    to: [call_du_sub], then the report on the lines it returned. *)
Definition run_main (a : args) (run : du_run) : list string * ending :=
  match call_du_sub run with
  | Exits printed status => (printed, SystemExit status)
  | Returns du_output =>
      match main a du_output with
      | (printed, None) => (printed, Finished)
      | (printed, Some e) => (printed, Uncaught e)
      end
  end.

End Duim.

(** ** [assignment2.py] *)

Module Assignment2.

(** [percent_to_graph(percent, length)] *)
Definition percent_to_graph (percent : num) (length : Z) : result string :=
  scaled <- mul percent (PyInt length) ;;
  num_hashes <- int scaled ;;
  let num_spaces := length - num_hashes in
  hashes <- str_repeat "#" num_hashes ;;
  spaces <- str_repeat " " num_spaces ;;
  shown <- mul percent (PyInt 100) ;;
  shown_int <- int shown ;;
  Ok ("[" ++ hashes ++ spaces ++ " | " ++ str_of_int shown_int ++ "%]").

(** [get_sys_mem()] *)
Fixpoint sys_scan (lines : list string) : result Z :=
  match lines with
  | [] => Ok 0
  | line :: rest =>
      if startswith line "MemTotal" then int_field line 1 else sys_scan rest
  end.

Definition get_sys_mem (fs : filesystem) : result Z :=
  meminfo <- open_lines fs "/proc/meminfo" ;; sys_scan meminfo.

(** The loop of [get_avail_mem]: the final [mem_free] and [mem_available]. *)
Fixpoint avail_scan (lines : list string) (mem_free mem_available : Z)
  : result (Z * Z) :=
  match lines with
  | [] => Ok (mem_free, mem_available)
  | line :: rest =>
      if startswith line "MemAvailable" then
        v <- int_field line 1 ;; avail_scan rest mem_free v
      else if startswith line "MemFree" then
        v <- int_field line 1 ;; avail_scan rest v mem_available
      else avail_scan rest mem_free mem_available
  end.

(** [get_avail_mem()]; [a or b] is [b] when the integer [a] is zero. *)
Definition get_avail_mem (fs : filesystem) : result Z :=
  meminfo <- open_lines fs "/proc/meminfo" ;;
  r <- avail_scan meminfo 0 0 ;;
  let (mem_free, mem_available) := r in
  Ok (if mem_available =? 0 then mem_free * 2 else mem_available).

(** The loop of [rss_mem_of_pid] over the lines of the file. *)
Fixpoint rss_scan (lines : list string) (rss : Z) : result Z :=
  match lines with
  | [] => Ok rss
  | line :: rest =>
      if startswith line "Rss:" then
        v <- int_field line 1 ;; rss_scan rest (rss + v)
      else rss_scan rest rss
  end.

(** [rss_mem_of_pid(pid)] *)
Definition rss_mem_of_pid (fs : filesystem) (pid : Z) : result Z :=
  try_except
    (smaps <- open_lines fs ("/proc/" ++ str_of_int pid ++ "/smaps") ;;
     rss_scan smaps 0)
    FileNotFoundError
    (Ok 0).

(** What [os.popen("pidof <program>").read()] gives for each program name:
    the text that [pidof] wrote, or nothing when the call raised. *)
Definition pidof_oracle : Type := string -> option string.

(** [pids_of_prog(program)]: every [Exception] of the body, the
    [ValueError] of [int] included, ends in the empty list. *)
Definition pids_of_prog (pidof : pidof_oracle) (program : string) : list Z :=
  match pidof program with
  | None => []
  | Some output =>
      let pids := strip output in
      match (if truthy pids then int_each (split pids) else Ok []) with
      | Ok l => l
      | Raise _ => []
      end
  end.

(** The command line, as parsed by [parse_command_args]; [program] is
    [None] when the argument is left out. *)
Record args : Set := {
  human_readable : bool;
  length : Z;
  program : option string
}.

(** [f"{x / 1024:.2f} MiB"] *)
Definition mib (x : Z) : result string :=
  q <- truediv (PyInt x) (PyInt 1024) ;;
  s <- format_f 2 q ;;
  Ok (s ++ " MiB").

(** One line of the report of [main]: the label, the bar of
    [value / total_mem], and the two amounts.  In the human-readable mode
    the amount of the line is formatted before the line is put together,
    [total_mem_h] having been formatted once at the start of [main]. *)
Definition usage_line (a : args) (label : string) (value total_mem : Z)
  (total_mem_h : string) : result string :=
  if human_readable a then
    value_h <- mib value ;;
    q <- truediv (PyInt value) (PyInt total_mem) ;;
    bar <- percent_to_graph q (length a) ;;
    Ok (label ++ bar ++ " " ++ value_h ++ "/" ++ total_mem_h)
  else
    q <- truediv (PyInt value) (PyInt total_mem) ;;
    bar <- percent_to_graph q (length a) ;;
    Ok (label ++ bar ++ " " ++ str_of_int value ++ "/" ++ str_of_int total_mem).

(** The loop of [main] over the pids: the lines printed so far, and the
    exception that ended the loop, if any. *)
Fixpoint pid_loop (a : args) (fs : filesystem) (total_mem : Z)
  (total_mem_h : string) (pids : list Z) (out : list string)
  : list string * option exn :=
  match pids with
  | [] => (out, None)
  | pid :: rest =>
      match (rss_mem <- rss_mem_of_pid fs pid ;;
             usage_line a (ljust 15 (str_of_int pid)) rss_mem total_mem
               total_mem_h) with
      | Ok line => pid_loop a fs total_mem total_mem_h rest (out ++ [line])
      | Raise e => (out, Some e)
      end
  end.

(** [rss_mem_of_pid(pid) for pid in pids], as [sum] consumes it. *)
Fixpoint rss_each (fs : filesystem) (pids : list Z) : result (list Z) :=
  match pids with
  | [] => Ok []
  | pid :: rest =>
      r <- rss_mem_of_pid fs pid ;; rs <- rss_each fs rest ;; Ok (r :: rs)
  end.

(** [main()], given the parsed arguments, the files and what [pidof]
    answers: the lines printed, and the uncaught exception, if any.  The
    files are the same at every read.  Outside the human-readable mode the
    script does not bind [total_mem_h] and does not use it: it is the empty
    string here. *)
Definition main (a : args) (fs : filesystem) (pidof : pidof_oracle)
  : list string * option exn :=
  match (total_mem <- get_sys_mem fs ;;
         avail_mem <- get_avail_mem fs ;;
         let used_mem := total_mem - avail_mem in
         total_mem_h <- (if human_readable a then mib total_mem
                         else Ok EmptyString) ;;
         line <- usage_line a "Memory         " used_mem total_mem
                   total_mem_h ;;
         Ok (total_mem, total_mem_h, line)) with
  | Raise e => ([], Some e)
  | Ok (total_mem, total_mem_h, line) =>
      match program a with
      | Some (String c name as prog) =>
          match pids_of_prog pidof prog with
          | [] => ([line; prog ++ " not found."], None)
          | pids =>
              match pid_loop a fs total_mem total_mem_h pids [line] with
              | (out, Some e) => (out, Some e)
              | (out, None) =>
                  match (rs <- rss_each fs pids ;;
                         usage_line a (ljust 15 prog) (sum rs) total_mem
                           total_mem_h) with
                  | Ok total_line => ((out ++ [total_line])%list, None)
                  | Raise e => (out, Some e)
                  end
              end
          end
      | _ => ([line], None)
      end
  end.

End Assignment2.


(** ** Vocabulary of the statements *)

(** [f] is a zero, or a positive finite float [m * 2 ^ e] with [e <= 0]
    and of value at most [N]. *)
Definition float_in_0 (N : Z) (f : spec_float) : Prop :=
  match f with
  | S754_zero _ => True
  | S754_finite false m e => e <= 0 /\ Zpos m <= N * 2 ^ (- e)
  | _ => False
  end.

(** The exact value of a finite float, [m * 2 ^ e] with its sign. *)
Definition float_value (f : spec_float) : Q :=
  match f with
  | S754_finite s m e =>
      match e with
      | Zneg k => cond_Zopp s (Zpos m) # 2 ^ k
      | _ => inject_Z (cond_Zopp s (Zpos m) * 2 ^ e)
      end
  | _ => 0%Q
  end.

Definition num_value (x : num) : Q :=
  match x with
  | PyInt n => inject_Z n
  | PyFloat f => float_value f
  end.

(** The percentage as the specification gives it, an exact rational. *)
Definition exact_percent (size total : Z) : Q :=
  (100 * (inject_Z size / inject_Z total))%Q.

(** [k] is an integer nearest to [v], and the even one of the two when [v]
    lies half-way. *)
Definition nearest_even (v : Q) (k : Z) : Prop :=
  (Qabs (inject_Z k - v) <= 1 # 2)%Q /\
  (Qabs (inject_Z k - v) == 1 # 2 -> Z.even k = true)%Q.

(** Rounding half up, as the specification words it. *)
Definition round_half_up (v : Q) : Z := Qfloor (v + (1 # 2)).

(** The bar that the specification describes for a percentage in
    [[0, 100]]: [round_half_up (percent / 100 * width)] markers, then spaces
    up to [width]. *)
Definition spec_bar (marker : string) (percent : Q) (width : Z) : string :=
  let filled := round_half_up (percent / 100 * inject_Z width) in
  str_mul marker filled ++ str_mul " " (width - filled).

(** The float nearest to an integer, for the literals of the statements. *)
Definition float_lit (n : Z) : spec_float := binary_normalize prec emax n 0 false.

(** Strings of whitespace, of no whitespace, of decimal digits. *)
Fixpoint all_space (s : string) : bool :=
  match s with
  | EmptyString => true
  | String c s' => isspace c && all_space s'
  end.

Fixpoint no_space (s : string) : bool :=
  match s with
  | EmptyString => true
  | String c s' => negb (isspace c) && no_space s'
  end.

Fixpoint all_digits (s : string) : bool :=
  match s with
  | EmptyString => true
  | String c s' =>
      match digit_of c with
      | Some _ => all_digits s'
      | None => false
      end
  end.

(** The number that a string of decimal digits writes, after [acc]. *)
Fixpoint decimal (acc : Z) (s : string) : Z :=
  match s with
  | EmptyString => acc
  | String c s' => decimal (10 * acc + (ord c - 48)) s'
  end.

Definition starts_nonspace (s : string) : Prop :=
  exists c r, s = String c r /\ isspace c = false.

Definition starts_space_or_empty (s : string) : Prop :=
  s = "" \/ exists c r, s = String c r /\ isspace c = true.

(** The lines that [parse_du_line] reads: whitespace or nothing, a token
    without whitespace that [int_of_str] reads as [size] (a sign and
    underscores between the digits included), whitespace, and the rest of
    the line as the path.  This is wider than the lines that [du] writes;
    [plain_du_line] below is the shape [<integer><whitespace><path>]. *)
Definition du_line (line : string) (size : Z) (path : string) : Prop :=
  exists lead tok gap,
    line = lead ++ tok ++ gap ++ path /\
    all_space lead = true /\
    tok <> "" /\ no_space tok = true /\ int_of_str tok = Ok size /\
    gap <> "" /\ all_space gap = true /\
    starts_nonspace path.

(** A line of the shape of [du_line] whose integer token has at most 4300
    characters, and so at most 4300 digits: the default limit of the
    interpreter on the digits that [int] reads. *)
Definition du_line_short (line : string) (size : Z) (path : string) : Prop :=
  exists lead tok gap,
    line = lead ++ tok ++ gap ++ path /\
    all_space lead = true /\
    tok <> "" /\ no_space tok = true /\ (String.length tok <= 4300)%nat /\
    int_of_str tok = Ok size /\
    gap <> "" /\ all_space gap = true /\
    starts_nonspace path.

(** The shape of a line as the specification words it,
    [<integer><whitespace><path>]: decimal digits from the start of the
    line, whitespace, and a path. *)
Definition plain_du_line (line : string) : Prop :=
  exists ds gap path,
    line = ds ++ gap ++ path /\
    ds <> "" /\ all_digits ds = true /\
    gap <> "" /\ all_space gap = true /\
    starts_nonspace path.

(** The sum of the sizes recorded for the paths other than [target]: the
    children of the target directory only. *)
Definition children_total (target : string) (d : dict Z) : Z :=
  sum (values (filter (fun kv => negb (String.eqb (fst kv) target)) d)).

(** The size recorded for [target] itself (the total that [du] prints for
    the directory it was given), 0 when there is none. *)
Definition own_size (target : string) (d : dict Z) : Z :=
  match dict_get d target with
  | Some v => v
  | None => 0
  end.

(** The tab and the newline, for the examples. *)
Definition tab : string := String "009" "".
Definition nl : string := String "010" "".

(** No character of [s] is [c]. *)
Fixpoint lacks (c : ascii) (s : string) : bool :=
  match s with
  | EmptyString => true
  | String c' s' => negb (Ascii.eqb c' c) && lacks c s'
  end.

(** The records of an output of [du]: the digits of a size and a path. *)
Definition du_record : Type := string * string.

(** The line that [du] writes for a record, without its newline, and the
    whole text for a list of records. *)
Definition du_record_line (r : du_record) : string := fst r ++ tab ++ snd r.

Fixpoint du_text (records : list du_record) : string :=
  match records with
  | [] => ""
  | r :: rest => du_record_line r ++ nl ++ du_text rest
  end.

(** A record as [du] writes it: a size in decimal digits, at most 4300 of
    them (the default limit of the interpreter on the digits that [int]
    reads), and a path that is not empty, does not start with whitespace
    and holds no newline and no carriage return. *)
Definition du_record_ok (r : du_record) : Prop :=
  fst r <> "" /\ all_digits (fst r) = true /\
  (String.length (fst r) <= 4300)%nat /\
  starts_nonspace (snd r) /\
  lacks "010" (snd r) = true /\ lacks "013" (snd r) = true.

(** The dictionary that the records describe, a later record of a path
    replacing the size of an earlier one. *)
Definition dict_of_records (records : list du_record) : dict Z :=
  fold_left (fun d r => dict_set d (snd r) (decimal 0 (fst r))) records [].

(** The first item of [line.split(maxsplit=1)], the empty string when
    there is none. *)
Definition size_token (line : string) : string :=
  match split_max 1 line with
  | tok :: _ => tok
  | [] => ""
  end.

(** The paths of the lines that [create_dir_dict] reads, in the order of
    the lines. *)
Definition du_paths (lines : list string) : list string :=
  flat_map
    (fun line =>
       match Duim.parse_du_line line with
       | Ok (path, _) => [path]
       | Raise _ => []
       end)
    lines.

(** The items of a list at their first occurrence, in order; [seen] holds
    the items met so far. *)
Fixpoint first_occurrences_from (seen l : list string) : list string :=
  match l with
  | [] => []
  | x :: l' =>
      if existsb (String.eqb x) seen then first_occurrences_from seen l'
      else x :: first_occurrences_from (x :: seen) l'
  end.

Definition first_occurrences (l : list string) : list string :=
  first_occurrences_from [] l.

(** A line of the memory report for [value] out of [total]: the label, a
    bar of [Assignment2.length a] characters between brackets with a
    percentage from 0 to 100, and the two amounts, in MiB with two decimals
    in the human-readable mode and as integers otherwise. *)
Definition usage_shape (a : Assignment2.args) (label : string)
  (value total : Z) (line : string) : Prop :=
  exists hashes shown value_s total_s,
    line = label ++ "[" ++ str_mul "#" hashes
             ++ str_mul " " (Assignment2.length a - hashes)
             ++ " | " ++ str_of_int shown ++ "%]"
             ++ " " ++ value_s ++ "/" ++ total_s /\
    0 <= hashes <= Assignment2.length a /\ 0 <= shown <= 100 /\
    if Assignment2.human_readable a
    then Assignment2.mib value = Ok value_s /\ Assignment2.mib total = Ok total_s
    else value_s = str_of_int value /\ total_s = str_of_int total.

(** * Properties *)

(** ** Binary64 arithmetic: digits, shifts and rounding *)

Section Binary64.

Lemma digits2_pos_size (p : positive) : digits2_pos p = Pos.size p.
Proof. induction p; simpl; congruence. Qed.

Lemma digits2_pos_bounds (p : positive) :
  2 ^ (Zpos (digits2_pos p) - 1) <= Zpos p < 2 ^ Zpos (digits2_pos p).
Proof.
  rewrite digits2_pos_size. split.
  - pose proof (Pos.size_le p) as H.
    assert (Hz : 2 ^ Zpos (Pos.size p) <= 2 * Zpos p).
    { change 2 with (Zpos 2) at 1. rewrite <- Pos2Z.inj_pow.
      change (2 * Zpos p) with (Zpos p~0). apply Pos2Z.pos_le_pos. exact H. }
    replace (Zpos (Pos.size p)) with (Zpos (Pos.size p) - 1 + 1) in Hz by lia.
    rewrite Z.pow_add_r in Hz by lia. change (2 ^ 1) with 2 in Hz. lia.
  - pose proof (Pos.size_gt p) as H.
    change 2 with (Zpos 2). rewrite <- Pos2Z.inj_pow.
    apply Pos2Z.pos_lt_pos. exact H.
Qed.

Lemma Zdigits2_bounds (m : Z) :
  0 < m -> 2 ^ (Zdigits2 m - 1) <= m < 2 ^ Zdigits2 m.
Proof. destruct m; try lia. intros _. apply digits2_pos_bounds. Qed.

Lemma Zdigits2_nonneg (m : Z) : 0 <= Zdigits2 m.
Proof. destruct m; simpl; lia. Qed.

(** A number below [2 ^ k] has at most [k] digits. *)
Lemma Zdigits2_le (m k : Z) : 0 <= m -> 0 <= k -> m < 2 ^ k -> Zdigits2 m <= k.
Proof.
  intros Hm Hk Hlt.
  destruct (Z.eq_dec m 0) as [-> | Hne]; [simpl; lia |].
  pose proof (Zdigits2_bounds m ltac:(lia)) as [Hlo _].
  pose proof (Zdigits2_nonneg m).
  destruct (Z_lt_le_dec k (Zdigits2 m)) as [Hgt | ]; [| lia].
  exfalso.
  assert (2 ^ k <= 2 ^ (Zdigits2 m - 1)) by (apply Z.pow_le_mono_r; lia).
  lia.
Qed.

Lemma iter_pos_nat {A : Type} (f : A -> A) (p : positive) (x : A) :
  SpecFloat.iter_pos f p x = Nat.iter (Pos.to_nat p) f x.
Proof.
  revert x. induction p as [p IH | p IH |]; intros x; cbn [SpecFloat.iter_pos].
  - rewrite !IH, Pos2Nat.inj_xI.
    replace (S (2 * Pos.to_nat p)) with (Pos.to_nat p + S (Pos.to_nat p))%nat
      by lia.
    rewrite Nat.iter_add, Nat.iter_succ_r. reflexivity.
  - rewrite !IH, Pos2Nat.inj_xO.
    replace (2 * Pos.to_nat p)%nat with (Pos.to_nat p + Pos.to_nat p)%nat
      by lia.
    rewrite Nat.iter_add. reflexivity.
  - reflexivity.
Qed.

Lemma shr_1_m (mrs : shr_record) :
  0 <= shr_m mrs -> shr_m (shr_1 mrs) = shr_m mrs / 2.
Proof.
  destruct mrs as [m r s]. simpl. intros Hm.
  destruct m as [| [p | p |] |]; cbn [shr_m]; try lia.
  - reflexivity.
  - apply Z.div_unique with 1; lia.
  - apply Z.div_unique with 0; lia.
  - reflexivity.
Qed.

Lemma shr_1_exact (mrs : shr_record) :
  0 <= shr_m mrs -> shr_r mrs = false -> shr_s mrs = false ->
  Z.even (shr_m mrs) = true ->
  shr_r (shr_1 mrs) = false /\ shr_s (shr_1 mrs) = false.
Proof.
  destruct mrs as [m r s]. simpl. intros Hm -> -> He.
  destruct m as [| [p | p |] |]; simpl in *; try discriminate; auto; lia.
Qed.

Lemma iter_shr_m (n : nat) (mrs : shr_record) :
  0 <= shr_m mrs ->
  shr_m (Nat.iter n shr_1 mrs) = shr_m mrs / 2 ^ Z.of_nat n.
Proof.
  intros Hm. induction n as [| n IH].
  - simpl. now rewrite Z.div_1_r.
  - rewrite Nat.iter_succ, shr_1_m.
    + rewrite IH, Nat2Z.inj_succ, Z.pow_succ_r by lia.
      rewrite Z.div_div by lia. f_equal. lia.
    + rewrite IH. apply Z.div_pos; lia.
Qed.

Lemma iter_shr_exact (n : nat) (mrs : shr_record) :
  0 <= shr_m mrs -> shr_r mrs = false -> shr_s mrs = false ->
  shr_m mrs mod 2 ^ Z.of_nat n = 0 ->
  shr_r (Nat.iter n shr_1 mrs) = false /\ shr_s (Nat.iter n shr_1 mrs) = false.
Proof.
  intros Hm Hr Hs. induction n as [| n IH]; intros Hd.
  - simpl. auto.
  - rewrite Nat2Z.inj_succ, Z.pow_succ_r in Hd by lia.
    assert (Hp : 0 < 2 ^ Z.of_nat n) by (apply Z.pow_pos_nonneg; lia).
    apply Z.mod_divide in Hd; [| lia]. destruct Hd as [k Hk].
    assert (Hd' : shr_m mrs mod 2 ^ Z.of_nat n = 0).
    { apply Z.mod_divide; [lia |]. exists (k * 2). lia. }
    destruct (IH Hd') as [Hr' Hs'].
    rewrite Nat.iter_succ. apply shr_1_exact; auto.
    + rewrite iter_shr_m by assumption. apply Z.div_pos; lia.
    + rewrite iter_shr_m by assumption.
      replace (shr_m mrs) with ((k * 2) * 2 ^ Z.of_nat n) by lia.
      rewrite Z.div_mul by lia. rewrite Z.even_mul. simpl.
      now rewrite orb_true_r.
Qed.

Lemma loc_of_record_of_loc (m : Z) (l : location) :
  loc_of_shr_record (shr_record_of_loc m l) = l.
Proof. destruct l as [| []]; reflexivity. Qed.

Lemma shr_m_record_of_loc (m : Z) (l : location) :
  shr_m (shr_record_of_loc m l) = m.
Proof. destruct l as [| []]; reflexivity. Qed.

(** [shr_fexp] divides the mantissa by the power of two that brings the
    exponent up to the one of the format, and keeps an exact location exact
    when no bit is lost. *)
Lemma shr_fexp_spec (mx ex : Z) (lx : location) :
  0 <= mx ->
  let n := Z.max 0 (fexp prec emax (Zdigits2 mx + ex) - ex) in
  let r := shr_fexp prec emax mx ex lx in
  shr_m (fst r) = mx / 2 ^ n /\ snd r = ex + n /\
  (lx = loc_Exact -> mx mod 2 ^ n = 0 ->
   loc_of_shr_record (fst r) = loc_Exact) /\
  (n = 0 -> loc_of_shr_record (fst r) = lx).
Proof.
  intros Hm n r. subst n r. unfold shr_fexp, shr.
  destruct (fexp prec emax (Zdigits2 mx + ex) - ex) as [| p | p] eqn:E.
  - simpl. rewrite Z.div_1_r, shr_m_record_of_loc, loc_of_record_of_loc.
    repeat split; auto; lia.
  - cbn [fst snd]. rewrite iter_pos_nat.
    replace (Z.max 0 (Zpos p)) with (Z.of_nat (Pos.to_nat p))
      by (rewrite positive_nat_Z; lia).
    rewrite iter_shr_m by (rewrite shr_m_record_of_loc; lia).
    rewrite shr_m_record_of_loc, positive_nat_Z.
    repeat split; auto; try lia.
    intros -> Hd.
    destruct (iter_shr_exact (Pos.to_nat p) (shr_record_of_loc mx loc_Exact))
      as [Hr Hs]; simpl; auto.
    { now rewrite positive_nat_Z. }
    destruct (Nat.iter _ _ _) as [m' r' s']. simpl in *. now subst.
  - simpl. rewrite Z.div_1_r, shr_m_record_of_loc, loc_of_record_of_loc.
    repeat split; auto; lia.
Qed.

Lemma round_nearest_even_cases (m : Z) (l : location) :
  round_nearest_even m l = m \/
  (round_nearest_even m l = m + 1 /\ l <> loc_Exact).
Proof.
  destruct l as [| []]; simpl; auto.
  - destruct (Z.even m); [auto | right; split; [reflexivity | discriminate]].
  - right; split; [reflexivity | discriminate].
Qed.

Lemma fexp_le_0 (d : Z) : d <= 53 -> fexp prec emax d <= 0.
Proof. unfold fexp, emin, prec, emax. lia. Qed.

(** One shift-and-round step below an integer bound: a mantissa [mx] at
    exponent [ex <= 0] that does not exceed [N] (strictly, unless it is
    exact) is rounded to a mantissa that does not exceed [N] either. *)
Lemma shift_round_upper (mx ex : Z) (lx : location) (N : Z) :
  0 <= mx -> ex <= 0 -> 0 <= N < 2 ^ 53 ->
  mx <= N * 2 ^ (- ex) ->
  (lx <> loc_Exact -> mx < N * 2 ^ (- ex)) ->
  let r := shr_fexp prec emax mx ex lx in
  let m2 := round_nearest_even (shr_m (fst r)) (loc_of_shr_record (fst r)) in
  snd r <= 0 /\ 0 <= m2 <= N * 2 ^ (- snd r).
Proof.
  intros Hm He HN Hle Hlt r m2.
  destruct (shr_fexp_spec mx ex lx Hm) as (Hm1 & He1 & Hex & Hid).
  fold r in Hm1, He1, Hex, Hid.
  set (n := Z.max 0 (fexp prec emax (Zdigits2 mx + ex) - ex)) in *.
  assert (Hp : 0 < 2 ^ (- ex)) by (apply Z.pow_pos_nonneg; lia).
  assert (Hd : Zdigits2 mx <= 53 - ex).
  { apply Zdigits2_le; try lia.
    replace (53 - ex) with (53 + - ex) by lia.
    rewrite Z.pow_add_r by lia. nia. }
  assert (He' : snd r <= 0).
  { rewrite He1. pose proof (fexp_le_0 (Zdigits2 mx + ex) ltac:(lia)). lia. }
  assert (Hn : 0 <= n) by lia.
  assert (Hpn : 0 < 2 ^ n) by (apply Z.pow_pos_nonneg; lia).
  assert (Hp' : 0 < 2 ^ (- snd r)) by (apply Z.pow_pos_nonneg; lia).
  assert (Hsplit : 2 ^ (- ex) = 2 ^ (- snd r) * 2 ^ n).
  { rewrite <- Z.pow_add_r by lia. f_equal. lia. }
  assert (Hm1le : shr_m (fst r) <= N * 2 ^ (- snd r)).
  { rewrite Hm1. apply Z.div_le_upper_bound; [lia |]. rewrite Hsplit in Hle. lia. }
  assert (Hm1pos : 0 <= shr_m (fst r)).
  { rewrite Hm1. apply Z.div_pos; lia. }
  split; [exact He' |].
  subst m2.
  destruct (round_nearest_even_cases (shr_m (fst r)) (loc_of_shr_record (fst r)))
    as [-> | [-> Hne]]; [lia |].
  split; [lia |].
  destruct (Z_lt_le_dec (shr_m (fst r)) (N * 2 ^ (- snd r))) as [| Hge]; [lia |].
  exfalso. apply Hne.
  assert (Heq : shr_m (fst r) = N * 2 ^ (- snd r)) by lia.
  assert (Hmul : 2 ^ n * (mx / 2 ^ n) <= mx) by (apply Z.mul_div_le; lia).
  rewrite <- Hm1, Heq in Hmul.
  assert (Hmx : mx = N * 2 ^ (- ex)) by (rewrite Hsplit; lia).
  destruct lx as [| c]; [| exfalso; assert (mx < N * 2 ^ (- ex)) by (apply Hlt; discriminate); lia].
  apply Hex; [reflexivity |].
  rewrite Hmx, Hsplit, Z.mul_assoc. apply Z.mod_mul. lia.
Qed.

(** [binary_round_aux] below an integer bound [N < 2 ^ 53]: the result is
    a zero or a finite number of the given sign, at most [N]. *)
Lemma binary_round_aux_upper (sx : bool) (mx ex : Z) (lx : location) (N : Z) :
  0 <= mx -> ex <= 0 -> 0 <= N < 2 ^ 53 ->
  mx <= N * 2 ^ (- ex) ->
  (lx <> loc_Exact -> mx < N * 2 ^ (- ex)) ->
  match binary_round_aux prec emax sx mx ex lx with
  | S754_zero s => s = sx
  | S754_finite s m e => s = sx /\ e <= 0 /\ Zpos m <= N * 2 ^ (- e)
  | _ => False
  end.
Proof.
  intros Hm He HN Hle Hlt.
  destruct (shift_round_upper mx ex lx N Hm He HN Hle Hlt) as (He1 & Hm2pos & Hm2).
  unfold binary_round_aux.
  destruct (shr_fexp prec emax mx ex lx) as [mrs1 e1]. cbn [fst snd] in *.
  set (m2 := round_nearest_even (shr_m mrs1) (loc_of_shr_record mrs1)) in *.
  destruct (shift_round_upper m2 e1 loc_Exact N Hm2pos He1 HN Hm2
              ltac:(congruence)) as (He2 & _ & _).
  destruct (shr_fexp_spec m2 e1 loc_Exact Hm2pos) as (Hm3 & He3 & _ & _).
  destruct (shr_fexp prec emax m2 e1 loc_Exact) as [mrs2 e2]. cbn [fst snd] in *.
  set (n := Z.max 0 (fexp prec emax (Zdigits2 m2 + e1) - e1)) in *.
  assert (Hn : 0 <= n) by lia.
  assert (Hpn : 0 < 2 ^ n) by (apply Z.pow_pos_nonneg; lia).
  assert (Hp2 : 0 < 2 ^ (- e2)) by (apply Z.pow_pos_nonneg; lia).
  assert (Hsplit : 2 ^ (- e1) = 2 ^ (- e2) * 2 ^ n).
  { rewrite <- Z.pow_add_r by lia. f_equal. lia. }
  assert (Hm3le : shr_m mrs2 <= N * 2 ^ (- e2)).
  { rewrite Hm3. apply Z.div_le_upper_bound; [lia |]. rewrite Hsplit in Hm2. lia. }
  assert (Hm3pos : 0 <= shr_m mrs2).
  { rewrite Hm3. apply Z.div_pos; lia. }
  destruct (shr_m mrs2) as [| m3 | m3]; [reflexivity | | lia].
  replace (e2 <=? emax - prec) with true
    by (symmetry; apply Z.leb_le; unfold emax, prec; lia).
  auto.
Qed.

Lemma binary_round_aux_canonical (s : bool) (m : positive) (e : Z) :
  fexp prec emax (Zpos (digits2_pos m) + e) = e -> e <= emax - prec ->
  binary_round_aux prec emax s (Zpos m) e loc_Exact = S754_finite s m e.
Proof.
  intros Hc He. unfold binary_round_aux, shr_fexp. cbn [Zdigits2].
  rewrite Hc, Z.sub_diag. cbn [shr shr_record_of_loc loc_of_shr_record shr_m
    round_nearest_even Zdigits2].
  rewrite Hc, Z.sub_diag. cbn [shr shr_record_of_loc shr_m].
  apply Z.leb_le in He. now rewrite He.
Qed.

Lemma digits2_iter_xO (p k : positive) :
  digits2_pos (Pos.iter xO p k) = (digits2_pos p + k)%positive.
Proof.
  induction k as [| k IH] using Pos.peano_ind.
  - simpl. lia.
  - rewrite Pos.iter_succ. simpl. rewrite IH. lia.
Qed.

Lemma Zpos_iter_xO (p k : positive) :
  Zpos (Pos.iter xO p k) = Zpos p * 2 ^ Zpos k.
Proof.
  induction k as [| k IH] using Pos.peano_ind.
  - simpl. lia.
  - rewrite Pos.iter_succ, Pos2Z.inj_xO, IH, Pos2Z.inj_succ, Z.pow_succ_r; lia.
Qed.

(** An integer below [2 ^ 53] is converted exactly. *)
Lemma binary_round_small (s : bool) (p : positive) :
  Zpos p < 2 ^ 53 ->
  exists m e, binary_round prec emax s p 0 = S754_finite s m e /\
              e <= 0 /\ Zpos m = Zpos p * 2 ^ (- e).
Proof.
  intros Hp.
  pose proof (Zdigits2_le (Zpos p) 53 ltac:(lia) ltac:(lia) Hp) as Hd.
  cbn [Zdigits2] in Hd.
  unfold binary_round, shl_align.
  assert (Hf : fexp prec emax (Zpos (digits2_pos p) + 0) = Zpos (digits2_pos p) - 53).
  { unfold fexp, emin, prec, emax. lia. }
  rewrite Hf.
  destruct (Zpos (digits2_pos p) - 53 - 0) as [| k | k] eqn:E; try lia.
  - exists p, 0. split; [| simpl; lia].
    apply binary_round_aux_canonical; [| unfold emax, prec; lia].
    unfold fexp, emin, prec, emax. lia.
  - exists (Pos.iter xO p k), (Zpos (digits2_pos p) - 53). split.
    + apply binary_round_aux_canonical; [| unfold emax, prec; lia].
      rewrite digits2_iter_xO. unfold fexp, emin, prec, emax. lia.
    + split; [lia |]. rewrite Zpos_iter_xO. do 2 f_equal. lia.
Qed.

Lemma float_of_int_small (n : Z) :
  0 < n < 2 ^ 53 ->
  exists m e, float_of_int n = Ok (S754_finite false m e) /\
              e <= 0 /\ Zpos m = n * 2 ^ (- e).
Proof.
  intros [Hn Hlt]. destruct n as [| p | p]; try lia.
  destruct (binary_round_small false p Hlt) as (m & e & Hr & He & Hm).
  exists m, e. unfold float_of_int, binary_normalize. rewrite Hr. auto.
Qed.

(** The product of a float in [[0, 1]] and an integer [0 <= W < 2 ^ 53]
    lies in [[0, W]]. *)
Lemma SFmul_upper (x w : spec_float) (W : Z) :
  0 <= W < 2 ^ 53 -> float_in_0 1 x -> float_of_int W = Ok w ->
  float_in_0 W (SFmul prec emax x w).
Proof.
  intros HW Hx Hw.
  destruct (Z.eq_dec W 0) as [-> | Hne].
  - inversion Hw; subst w.
    destruct x as [sx | sx | | [] mx ex]; simpl in *; tauto.
  - destruct (float_of_int_small W ltac:(lia)) as (mw & ew & Hw' & Hew & Hmw).
    rewrite Hw' in Hw. inversion Hw; subst w. clear Hw.
    destruct x as [sx | sx | | [] mx ex]; cbn [float_in_0] in Hx;
      try tauto; try exact I.
    destruct Hx as [Hex Hmx]. rewrite Z.mul_1_l in Hmx. cbn [SFmul].
    pose proof (binary_round_aux_upper (xorb false false)
                  (Zpos (mx * mw)) (ex + ew) loc_Exact W) as H.
    assert (Hp1 : 0 < 2 ^ (- ex)) by (apply Z.pow_pos_nonneg; lia).
    assert (Hp2 : 0 < 2 ^ (- ew)) by (apply Z.pow_pos_nonneg; lia).
    assert (Hs : 2 ^ (- (ex + ew)) = 2 ^ (- ex) * 2 ^ (- ew)).
    { rewrite <- Z.pow_add_r by lia. f_equal. lia. }
    specialize (H ltac:(lia) ltac:(lia) HW).
    rewrite Hs, Pos2Z.inj_mul in H.
    specialize (H ltac:(nia) ltac:(congruence)).
    destruct (binary_round_aux _ _ _ _ _ _) as [s | s | | s m e];
      cbn [float_in_0]; try tauto.
    destruct H as (-> & He & Hm). simpl. auto.
Qed.

Lemma new_location_exact (n k : Z) : new_location n k <> loc_Exact -> k <> 0.
Proof.
  intros H ->. apply H. unfold new_location, new_location_even, new_location_odd.
  now destruct (Z.even n).
Qed.

(** The quotient of two positive floats, the first not above the second,
    lies in [[0, 1]]. *)
Lemma SFdiv_upper (m1 : positive) (e1 : Z) (m2 : positive) (e2 : Z) :
  Zpos m1 * 2 ^ (e1 - Z.min e1 e2) <= Zpos m2 * 2 ^ (e2 - Z.min e1 e2) ->
  float_in_0 1 (SFdiv prec emax (S754_finite false m1 e1) (S754_finite false m2 e2)).
Proof.
  intros Hle. cbn [SFdiv]. unfold SFdiv_core_binary. cbn [Zdigits2].
  set (d1 := Zpos (digits2_pos m1)). set (d2 := Zpos (digits2_pos m2)).
  set (c := Z.min e1 e2) in *.
  set (e' := Z.min (fexp prec emax (d1 + e1 - (d2 + e2))) (e1 - e2)).
  set (s := e1 - e2 - e').
  assert (Hs : 0 <= s) by (unfold s, e'; lia).
  pose proof (digits2_pos_bounds m1) as [Hd1 _]. fold d1 in Hd1.
  pose proof (digits2_pos_bounds m2) as [_ Hd2]. fold d2 in Hd2.
  assert (Hc1 : 0 <= e1 - c) by (unfold c; lia).
  assert (Hc2 : 0 <= e2 - c) by (unfold c; lia).
  assert (Hdd : 1 <= d1 /\ 1 <= d2) by (unfold d1, d2; lia).
  assert (Hdig : d1 + e1 - (d2 + e2) <= 0).
  { assert (H : 2 ^ (d1 - 1 + (e1 - c)) < 2 ^ (d2 + (e2 - c))).
    { rewrite !Z.pow_add_r by lia.
      assert (0 < 2 ^ (e1 - c)) by (apply Z.pow_pos_nonneg; lia).
      assert (0 < 2 ^ (e2 - c)) by (apply Z.pow_pos_nonneg; lia).
      nia. }
    apply Z.pow_lt_mono_r_iff in H; lia. }
  assert (He' : e' <= 0).
  { pose proof (fexp_le_0 (d1 + e1 - (d2 + e2)) ltac:(lia)). unfold e'. lia. }
  assert (Hm' : match s with
                | Z0 => Zpos m1
                | Zpos _ => Z.shiftl (Zpos m1) s
                | Zneg _ => 0
                end = Zpos m1 * 2 ^ s).
  { destruct s as [| p | p] eqn:E; [simpl; lia | | lia].
    now rewrite Z.shiftl_mul_pow2 by lia. }
  rewrite Hm'.
  pose proof (Z_div_mod (Zpos m1 * 2 ^ s) (Zpos m2) ltac:(lia)) as Hdm.
  destruct (Z.div_eucl (Zpos m1 * 2 ^ s) (Zpos m2)) as [q r].
  destruct Hdm as [Hq Hr].
  assert (Hps : 0 < 2 ^ s) by (apply Z.pow_pos_nonneg; lia).
  assert (Hpe : 0 < 2 ^ (- e')) by (apply Z.pow_pos_nonneg; lia).
  assert (Hbound : Zpos m1 * 2 ^ s <= Zpos m2 * 2 ^ (- e')).
  { assert (Hpc1 : 0 < 2 ^ (e1 - c)) by (apply Z.pow_pos_nonneg; lia).
    assert (Hpc2 : 0 < 2 ^ (e2 - c)) by (apply Z.pow_pos_nonneg; lia).
    assert (Hid : 2 ^ s * 2 ^ (e2 - c) = 2 ^ (e1 - c) * 2 ^ (- e')).
    { rewrite <- !Z.pow_add_r by lia. f_equal. unfold s. lia. }
    apply Z.mul_le_mono_pos_r with (p := 2 ^ (e2 - c)); [lia |].
    rewrite <- !Z.mul_assoc, Hid.
    rewrite (Z.mul_comm (2 ^ (- e'))), !Z.mul_assoc.
    apply Z.mul_le_mono_nonneg_r; lia. }
  assert (Hq0 : 0 <= q) by nia.
  pose proof (binary_round_aux_upper (xorb false false) q e'
                (new_location (Zpos m2) r) 1 Hq0 He' ltac:(lia)) as H.
  rewrite Z.mul_1_l in H.
  specialize (H ltac:(nia)).
  assert (Hstrict : new_location (Zpos m2) r <> loc_Exact -> q < 2 ^ (- e')).
  { intros Hn. apply new_location_exact in Hn. nia. }
  specialize (H Hstrict).
  destruct (binary_round_aux _ _ _ _ _ _) as [s' | s' | | s' m e];
    cbn [float_in_0]; try tauto.
  destruct H as (-> & He & Hm). cbn [xorb]. auto.
Qed.

Lemma binary_round_aux_opp (sx : bool) (mx ex : Z) (lx : location) :
  binary_round_aux prec emax (negb sx) mx ex lx
  = SFopp (binary_round_aux prec emax sx mx ex lx).
Proof.
  unfold binary_round_aux.
  destruct (shr_fexp prec emax mx ex lx) as [mrs1 e1].
  destruct (shr_fexp prec emax _ e1 loc_Exact) as [mrs2 e2].
  destruct (shr_m mrs2); try reflexivity.
  destruct (e2 <=? emax - prec); reflexivity.
Qed.

Lemma SFmul_opp_r (x w : spec_float) :
  SFmul prec emax x (SFopp w) = SFopp (SFmul prec emax x w).
Proof.
  destruct x as [sx | sx | | sx mx ex], w as [sw | sw | | sw mw ew];
    cbn [SFmul SFopp]; rewrite <- ?negb_xorb_r; try reflexivity.
  apply binary_round_aux_opp.
Qed.

Lemma float_of_int_opp (p : positive) (w : spec_float) :
  float_of_int (Zpos p) = Ok w -> float_of_int (Zneg p) = Ok (SFopp w).
Proof.
  unfold float_of_int, binary_normalize, binary_round.
  destruct (shl_align p 0 _) as [mz ez].
  change true with (negb false). rewrite binary_round_aux_opp.
  destruct (binary_round_aux prec emax false (Zpos mz) ez loc_Exact);
    cbn [SFopp]; intros H; inversion H; reflexivity.
Qed.

(** *** Accuracy of one operation in the normal range *)

Lemma Zdigits2_eq (m k : Z) :
  0 < k -> 2 ^ (k - 1) <= m < 2 ^ k -> Zdigits2 m = k.
Proof.
  intros Hk [Hlo Hhi].
  assert (Hm : 0 < m).
  { assert (0 < 2 ^ (k - 1)) by (apply Z.pow_pos_nonneg; lia). lia. }
  pose proof (Zdigits2_le m k ltac:(lia) ltac:(lia) Hhi) as Hle.
  pose proof (Zdigits2_bounds m Hm) as [_ Hup].
  pose proof (Zdigits2_nonneg m) as Hnn.
  destruct (Z_lt_le_dec (Zdigits2 m) k) as [Hlt | ]; [| lia].
  exfalso.
  assert (2 ^ Zdigits2 m <= 2 ^ (k - 1)) by (apply Z.pow_le_mono_r; lia).
  lia.
Qed.

(** Rounding a mantissa [mx] of at least 53 digits, away from underflow
    and overflow: the result is finite, has 53 digits, and its value is
    [mx] with the low [n] bits cleared, or that plus [2 ^ n]. *)
Lemma binary_round_aux_bracket (sx : bool) (mx ex : Z) (lx : location) :
  let n := Zdigits2 mx - 53 in
  0 < mx -> 0 <= n -> -1074 <= ex + n -> Zdigits2 mx + ex <= 1023 ->
  exists m e,
    binary_round_aux prec emax sx mx ex lx = S754_finite sx m e /\
    ex <= e /\ 2 ^ 52 <= Zpos m < 2 ^ 53 /\
    (Zpos m * 2 ^ (e - ex) = mx / 2 ^ n * 2 ^ n \/
     Zpos m * 2 ^ (e - ex) = (mx / 2 ^ n + 1) * 2 ^ n).
Proof.
  intros n Hm Hn Hlo Hhi.
  pose proof (Zdigits2_bounds mx Hm) as [Hd1 Hd2]. fold n in Hd1, Hd2.
  set (d := Zdigits2 mx) in *.
  assert (Hpn : 0 < 2 ^ n) by (apply Z.pow_pos_nonneg; lia).
  assert (Hf1 : Z.max 0 (fexp prec emax (d + ex) - ex) = n).
  { unfold fexp, emin, prec, emax. lia. }
  destruct (shr_fexp_spec mx ex lx ltac:(lia)) as (Hm1 & He1 & _ & _).
  fold d in Hm1, He1. rewrite Hf1 in Hm1, He1.
  unfold binary_round_aux.
  destruct (shr_fexp prec emax mx ex lx) as [mrs1 e1]. cbn [fst snd] in *.
  set (m1 := shr_m mrs1) in *.
  assert (Hm1b : 2 ^ 52 <= m1 < 2 ^ 53).
  { rewrite Hm1. split.
    - apply Z.div_le_lower_bound; [lia |].
      rewrite <- Z.pow_add_r by lia. replace (n + 52) with (d - 1) by lia. lia.
    - apply Z.div_lt_upper_bound; [lia |].
      rewrite <- Z.pow_add_r by lia. replace (n + 53) with d by lia. lia. }
  set (m2 := round_nearest_even m1 (loc_of_shr_record mrs1)).
  assert (Hm2 : m2 = m1 \/ m2 = m1 + 1).
  { subst m2. destruct (round_nearest_even_cases m1 (loc_of_shr_record mrs1))
      as [H | [H _]]; auto. }
  assert (Hm2pos : 0 <= m2) by lia.
  destruct (shr_fexp_spec m2 e1 loc_Exact Hm2pos) as (Hm3 & He3 & _ & _).
  destruct (shr_fexp prec emax m2 e1 loc_Exact) as [mrs2 e2]. cbn [fst snd] in *.
  destruct (Z_lt_le_dec m2 (2 ^ 53)) as [Hlt | Hge].
  - assert (Hd2' : Zdigits2 m2 = 53) by (apply Zdigits2_eq; lia).
    assert (Hf2 : Z.max 0 (fexp prec emax (Zdigits2 m2 + e1) - e1) = 0).
    { rewrite Hd2'. unfold fexp, emin, prec, emax. lia. }
    rewrite Hf2 in Hm3, He3. rewrite Z.div_1_r in Hm3.
    rewrite Hm3. destruct m2 as [| p | p]; try lia.
    replace (e2 <=? emax - prec) with true
      by (symmetry; apply Z.leb_le; unfold emax, prec; lia).
    exists p, e2. split; [reflexivity |]. split; [lia |]. split; [lia |].
    replace (e2 - ex) with n by lia.
    destruct Hm2 as [-> | ->]; rewrite <- Hm1; auto.
  - assert (Hm2eq : m2 = 2 ^ 53) by lia.
    assert (Hd2' : Zdigits2 m2 = 54).
    { apply Zdigits2_eq; [lia |]. rewrite Hm2eq. split; [reflexivity |].
      apply Z.pow_lt_mono_r; lia. }
    assert (Hf2 : Z.max 0 (fexp prec emax (Zdigits2 m2 + e1) - e1) = 1).
    { rewrite Hd2'. unfold fexp, emin, prec, emax. lia. }
    rewrite Hf2 in Hm3, He3. rewrite Hm2eq in Hm3.
    change (2 ^ 53 / 2 ^ 1) with (2 ^ 52) in Hm3.
    rewrite Hm3. change (2 ^ 52) with (Zpos (2 ^ 52)).
    replace (e2 <=? emax - prec) with true
      by (symmetry; apply Z.leb_le; unfold emax, prec; lia).
    exists (2 ^ 52)%positive, e2. split; [reflexivity |]. split; [lia |].
    split; [split; [reflexivity | reflexivity] |].
    right. replace (e2 - ex) with (n + 1) by lia.
    rewrite Z.pow_add_r by lia.
    assert (Hm1eq : m1 + 1 = 2 ^ 53) by lia.
    rewrite <- Hm1, Hm1eq. change (Zpos (2 ^ 52) * (2 ^ n * 2 ^ 1)) with
      (2 ^ 52 * (2 ^ n * 2)). change (2 ^ 53) with (2 ^ 52 * 2). lia.
Qed.

(** The quotient of two integers [a <= b < 2 ^ 53]: a normal float, at
    most 1, within [2 ^ -52] of [a / b], relatively. *)
Lemma SFdiv_int_accurate (pa pb : positive) :
  Zpos pa <= Zpos pb -> Zpos pb < 2 ^ 53 ->
  exists m k,
    SFdiv prec emax (S754_finite false pa 0) (S754_finite false pb 0)
    = S754_finite false m (Zneg k) /\
    2 ^ 52 <= Zpos m < 2 ^ 53 /\ Zpos k <= 105 /\ Zpos m <= 2 ^ Zpos k /\
    2 ^ 52 * Z.abs (Zpos m * Zpos pb - Zpos pa * 2 ^ Zpos k)
    <= Zpos pa * 2 ^ Zpos k.
Proof.
  intros Hab Hb.
  pose proof (SFdiv_upper pa 0 pb 0 ltac:(simpl; lia)) as Hup.
  revert Hup. cbn [SFdiv]. unfold SFdiv_core_binary. cbn [Zdigits2].
  pose proof (digits2_pos_bounds pa) as [Ha1 Ha2].
  pose proof (digits2_pos_bounds pb) as [Hb1 Hb2].
  set (d1 := Zpos (digits2_pos pa)) in *. set (d2 := Zpos (digits2_pos pb)) in *.
  assert (Hd1 : 1 <= d1 <= 53).
  { split; [unfold d1; lia |].
    apply (Zdigits2_le (Zpos pa) 53); lia. }
  assert (Hd2 : 1 <= d2 <= 53).
  { split; [unfold d2; lia |].
    apply (Zdigits2_le (Zpos pb) 53); lia. }
  assert (He' : Z.min (fexp prec emax (d1 + 0 - (d2 + 0))) (0 - 0) = d1 - d2 - 53).
  { unfold fexp, emin, prec, emax. lia. }
  rewrite He'. set (e' := d1 - d2 - 53) in *.
  replace (0 - 0 - e') with (- e') by lia.
  assert (Hs : 0 < - e') by (unfold e'; lia).
  destruct (- e') as [| s | s] eqn:Es; try lia.
  rewrite Z.shiftl_mul_pow2 by lia.
  pose proof (Z_div_mod (Zpos pa * 2 ^ Zpos s) (Zpos pb) ltac:(lia)) as Hdm.
  destruct (Z.div_eucl (Zpos pa * 2 ^ Zpos s) (Zpos pb)) as [q r].
  destruct Hdm as [Hq Hr].
  assert (Hps : 0 < 2 ^ Zpos s) by (apply Z.pow_pos_nonneg; lia).
  assert (Hsd : Zpos s = 53 - d1 + d2) by (unfold e' in Es; lia).
  assert (Hq1 : 2 ^ 52 <= q).
  { assert (H1 : 2 ^ 52 * 2 ^ d2 <= Zpos pa * 2 ^ Zpos s).
    { rewrite <- Z.pow_add_r by lia.
      replace (52 + d2) with (d1 - 1 + Zpos s) by lia.
      rewrite Z.pow_add_r by lia. nia. }
    assert (0 < 2 ^ 52) by reflexivity. nia. }
  assert (Hq2 : q < 2 ^ 54).
  { assert (H1 : Zpos pa * 2 ^ Zpos s < 2 ^ 54 * 2 ^ (d2 - 1)).
    { rewrite <- Z.pow_add_r by lia.
      replace (54 + (d2 - 1)) with (d1 + Zpos s) by lia.
      rewrite Z.pow_add_r by lia. nia. }
    assert (0 < 2 ^ 54) by reflexivity. nia. }
  assert (Hdq : Zdigits2 q = 53 \/ Zdigits2 q = 54).
  { destruct (Z_lt_le_dec q (2 ^ 53)).
    - left. apply Zdigits2_eq; lia.
    - right. apply Zdigits2_eq; lia. }
  destruct (binary_round_aux_bracket (xorb false false) q e'
              (new_location (Zpos pb) r))
    as (m & e & Hres & Hee & Hmb & Hval).
  { assert (0 < 2 ^ 52) by reflexivity. lia. }
  { lia. }
  { unfold e'. lia. }
  { unfold e'. lia. }
  rewrite Hres. cbn [xorb float_in_0]. intros [He0 Hm1].
  rewrite Z.mul_1_l in Hm1.
  assert (Hpe : 0 < 2 ^ (- e)) by (apply Z.pow_pos_nonneg; lia).
  assert (Hneg : e <= -52).
  { destruct (Z_le_gt_dec e (-52)) as [| Hgt]; [assumption | exfalso].
    assert (2 ^ (- e) <= 2 ^ 51) by (apply Z.pow_le_mono_r; lia).
    assert (2 ^ 51 < 2 ^ 52) by reflexivity. lia. }
  destruct e as [| e | k]; try lia.
  exists m, k. split; [reflexivity |]. split; [assumption |].
  split; [unfold e' in Hee; lia |]. split; [exact Hm1 |].
  set (n := Zdigits2 q - 53) in *.
  assert (Hn : 0 <= n <= 1) by lia.
  assert (Hpn : 0 < 2 ^ n) by (apply Z.pow_pos_nonneg; lia).
  pose proof (Z.div_mod q (2 ^ n) ltac:(lia)) as Hqn.
  pose proof (Z.mod_pos_bound q (2 ^ n) Hpn) as Hrn.
  set (m1 := q / 2 ^ n) in *.
  assert (Hm1b : 2 ^ 52 <= m1).
  { apply Z.div_le_lower_bound; [lia |].
    destruct Hdq as [Hd | Hd]; unfold n; rewrite Hd.
    - change (2 ^ (53 - 53)) with 1. lia.
    - change (2 ^ (54 - 53) * 2 ^ 52) with (2 ^ 53).
      pose proof (Zdigits2_bounds q ltac:(lia)) as [Hlo _].
      rewrite Hd in Hlo. exact Hlo. }
  set (M := Zpos m * 2 ^ (Zneg k - e')) in *.
  assert (Hscale : 2 ^ Zpos s = 2 ^ Zpos k * 2 ^ (Zneg k - e')).
  { rewrite <- Z.pow_add_r by lia. f_equal. lia. }
  assert (Hpk : 0 < 2 ^ Zpos k) by (apply Z.pow_pos_nonneg; lia).
  assert (Hpd : 0 < 2 ^ (Zneg k - e')) by (apply Z.pow_pos_nonneg; lia).
  assert (Herr : 2 ^ 52 * Z.abs (M * Zpos pb - Zpos pa * 2 ^ Zpos s)
                 <= Zpos pa * 2 ^ Zpos s).
  { assert (H52 : 0 < 2 ^ 52) by reflexivity.
    set (X := Zpos pb) in *. set (T := 2 ^ n) in *. set (rn := q mod T) in *.
    assert (H1 : 0 <= X * rn <= X * T - X).
    { split; [apply Z.mul_nonneg_nonneg; lia |].
      replace (X * T - X) with (X * (T - 1)) by ring.
      apply Z.mul_le_mono_nonneg_l; lia. }
    assert (H2 : 2 ^ 52 * (X * T) <= X * (T * m1)).
    { replace (2 ^ 52 * (X * T)) with (X * (T * 2 ^ 52)) by ring.
      apply Z.mul_le_mono_nonneg_l; [lia |].
      apply Z.mul_le_mono_nonneg_l; lia. }
    assert (H3 : X * q = X * (T * m1) + X * rn) by (rewrite Hqn at 1; ring).
    assert (Ha : Z.abs (M * X - Zpos pa * 2 ^ Zpos s) <= X * T).
    { apply Z.abs_le. rewrite Hq, H3.
      destruct Hval as [Hv | Hv]; rewrite Hv.
      - replace (m1 * T * X) with (X * (T * m1)) by ring. lia.
      - replace ((m1 + 1) * T * X) with (X * (T * m1) + X * T) by ring. lia. }
    rewrite Hq at 2. rewrite H3. lia. }
  unfold M in Herr. rewrite Hscale in Herr.
  replace (Zpos m * 2 ^ (Zneg k - e') * Zpos pb
           - Zpos pa * (2 ^ Zpos k * 2 ^ (Zneg k - e')))
    with ((Zpos m * Zpos pb - Zpos pa * 2 ^ Zpos k) * 2 ^ (Zneg k - e'))
    in Herr by ring.
  rewrite Z.abs_mul, (Z.abs_eq (2 ^ (Zneg k - e'))) in Herr by lia.
  nia.
Qed.

(** A normal float in [[0, 1]] times [100.0]: a normal float within
    [2 ^ -52] of the exact product, relatively. *)
Lemma SFmul_100_accurate (m k : positive) :
  2 ^ 52 <= Zpos m < 2 ^ 53 -> Zpos k <= 105 -> Zpos m <= 2 ^ Zpos k ->
  exists m' k',
    SFmul prec emax (S754_finite false m (Zneg k))
      (S754_finite false 7036874417766400 (-46))
    = S754_finite false m' (Zneg k') /\
    2 ^ 52 <= Zpos m' < 2 ^ 53 /\
    float_in_0 100 (S754_finite false m' (Zneg k')) /\
    2 ^ 52 * Z.abs (Zpos m' * 2 ^ Zpos k - 100 * Zpos m * 2 ^ Zpos k')
    <= 100 * Zpos m * 2 ^ Zpos k'.
Proof.
  intros Hm Hk Hle.
  assert (H52 : 0 < 2 ^ 52) by reflexivity.
  pose proof (SFmul_upper (S754_finite false m (Zneg k))
                (S754_finite false 7036874417766400 (-46)) 100
                ltac:(split; [lia | reflexivity])) as Hup.
  cbn [float_in_0] in Hup. specialize (Hup ltac:(split; [lia |
    change (- Zneg k) with (Zpos k); lia]) eq_refl).
  revert Hup. cbn [SFmul xorb].
  set (Mx := Zpos (m * 7036874417766400)).
  assert (HMx : Mx = Zpos m * (100 * 2 ^ 46)) by (unfold Mx; rewrite Pos2Z.inj_mul; reflexivity).
  assert (Hlo : 2 ^ 104 <= Mx).
  { rewrite HMx. change (2 ^ 104) with (2 ^ 52 * (64 * 2 ^ 46)).
    change (2 ^ 46) with 70368744177664. lia. }
  assert (Hhi : Mx < 2 ^ 106).
  { rewrite HMx. change (2 ^ 106) with (2 ^ 53 * (128 * 2 ^ 46)).
    change (2 ^ 46) with 70368744177664. change (2 ^ 53) with 9007199254740992 in *.
    lia. }
  assert (Hd : Zdigits2 Mx = 105 \/ Zdigits2 Mx = 106).
  { destruct (Z_lt_le_dec Mx (2 ^ 105)).
    - left. apply Zdigits2_eq; [lia |]. split; assumption.
    - right. apply Zdigits2_eq; [lia |]. split; assumption. }
  assert (H104 : 0 < 2 ^ 104) by reflexivity.
  destruct (binary_round_aux_bracket false Mx (Zneg k + -46) loc_Exact)
    as (m' & e' & Hres & Hee & Hmb & Hval); try lia.
  rewrite Hres. cbn [float_in_0]. intros [He0 Hm100].
  assert (Hpe : 0 < 2 ^ (- e')) by (apply Z.pow_pos_nonneg; lia).
  assert (Hneg : e' <= -46).
  { destruct (Z_le_gt_dec e' (-46)) as [| Hgt]; [assumption | exfalso].
    assert (2 ^ (- e') <= 2 ^ 45) by (apply Z.pow_le_mono_r; lia).
    change (2 ^ 45) with 35184372088832 in *.
    change (2 ^ 52) with 4503599627370496 in *. lia. }
  destruct e' as [| e' | k']; try lia.
  exists m', k'. split; [reflexivity |]. split; [assumption |].
  split; [cbn [float_in_0]; auto |].
  set (n := Zdigits2 Mx - 53) in *.
  assert (Hn : 52 <= n <= 53) by lia.
  assert (Hpn : 0 < 2 ^ n) by (apply Z.pow_pos_nonneg; lia).
  pose proof (Z.div_mod Mx (2 ^ n) ltac:(lia)) as Hqn.
  pose proof (Z.mod_pos_bound Mx (2 ^ n) Hpn) as Hrn.
  set (m1 := Mx / 2 ^ n) in *. set (T := 2 ^ n) in *.
  assert (Hm1b : 2 ^ 52 <= m1).
  { apply Z.div_le_lower_bound; [lia |].
    pose proof (Zdigits2_bounds Mx ltac:(lia)) as [Hl _].
    unfold T. rewrite <- Z.pow_add_r by lia.
    replace (n + 52) with (Zdigits2 Mx - 1) by lia. exact Hl. }
  set (M := Zpos m' * 2 ^ (Zneg k' - (Zneg k + -46))) in *.
  assert (HT : 2 ^ 52 * T <= T * m1).
  { rewrite (Z.mul_comm (2 ^ 52)). apply Z.mul_le_mono_nonneg_l; lia. }
  assert (Herr : 2 ^ 52 * Z.abs (M - Mx) <= Mx).
  { assert (Ha : Z.abs (M - Mx) <= T).
    { apply Z.abs_le. destruct Hval as [Hv | Hv]; rewrite Hv; lia. }
    lia. }
  set (S := 2 ^ (Zpos k' - 46)).
  assert (HS : 0 < S) by (apply Z.pow_pos_nonneg; lia).
  assert (HMS : M * S = Zpos m' * 2 ^ Zpos k).
  { unfold M, S. rewrite <- Z.mul_assoc, <- Z.pow_add_r by lia.
    do 2 f_equal. lia. }
  assert (HxS : Mx * S = 100 * Zpos m * 2 ^ Zpos k').
  { rewrite HMx. unfold S.
    replace (Zpos k') with (46 + (Zpos k' - 46)) at 2 by lia.
    rewrite (Z.pow_add_r 2 46) by lia. ring. }
  rewrite <- HMS, <- HxS.
  replace (M * S - Mx * S) with ((M - Mx) * S) by ring.
  rewrite Z.abs_mul, (Z.abs_eq S) by lia.
  rewrite Z.mul_assoc. apply Z.mul_le_mono_nonneg_r; lia.
Qed.

End Binary64.

(** ** Rounding a float to an integer *)

Section Rounding.

Lemma div_half_even_nearest (m d : Z) :
  0 <= m -> 0 < d ->
  let k := div_half_even m d in
  2 * Z.abs (k * d - m) <= d /\
  (2 * Z.abs (k * d - m) = d -> Z.even k = true).
Proof.
  intros Hm Hd k. subst k. unfold div_half_even.
  pose proof (Z.div_mod m d ltac:(lia)) as Hdm.
  pose proof (Z.mod_pos_bound m d Hd) as Hr.
  destruct (Z.compare_spec (2 * (m mod d)) d) as [He | Hl | Hg].
  - destruct (Z.even (m / d)) eqn:Hev.
    + split; [nia | auto].
    + split; [nia |]. intros _.
      rewrite Z.even_add, Hev. reflexivity.
  - split; [nia | nia].
  - split; [nia | nia].
Qed.

Lemma div_half_even_bounds (m d N : Z) :
  0 <= m -> 0 < d -> m <= N * d -> 0 <= div_half_even m d <= N.
Proof.
  intros Hm Hd Hle. unfold div_half_even.
  pose proof (Z.div_mod m d ltac:(lia)) as Hdm.
  pose proof (Z.mod_pos_bound m d Hd) as Hr.
  assert (0 <= m / d) by (apply Z.div_pos; lia).
  assert (m / d <= N) by (apply Z.div_le_upper_bound; lia).
  destruct (Z.compare_spec (2 * (m mod d)) d) as [He | Hl | Hg];
    [destruct (Z.even (m / d)) | |]; nia.
Qed.

(** [round] of a float in [[0, N]] is an integer in [[0, N]]. *)
Lemma round_in_0 (N : Z) (v : spec_float) :
  0 <= N -> float_in_0 N v ->
  exists k, round (PyFloat v) = Ok k /\ 0 <= k <= N.
Proof.
  intros HN.
  destruct v as [s | s | | [] m e]; cbn [float_in_0]; try tauto.
  - intros _. exists 0. split; [reflexivity | lia].
  - intros [He Hm]. eexists. split; [reflexivity |]. cbn [cond_Zopp].
    destruct e as [| e | e]; try lia.
    change (- Zneg e) with (Zpos e) in Hm.
    apply div_half_even_bounds; lia.
Qed.

Lemma round_opp (v : spec_float) (k : Z) :
  round (PyFloat v) = Ok k -> round (PyFloat (SFopp v)) = Ok (- k).
Proof.
  destruct v as [s | s | | s m e]; cbn [round SFopp]; try discriminate.
  - intros H; inversion H; reflexivity.
  - intros H; inversion H. f_equal. destruct s; simpl; lia.
Qed.

Lemma nearest_even_exact (z : Z) : nearest_even (inject_Z z) z.
Proof.
  unfold nearest_even.
  setoid_replace (inject_Z z - inject_Z z)%Q with 0%Q by ring.
  split; [easy | intros H0; discriminate H0].
Qed.

Lemma cond_Zopp_mul (s : bool) (a b : Z) :
  cond_Zopp s a * b = cond_Zopp s (a * b).
Proof. destruct s; cbn [cond_Zopp]; lia. Qed.

(** [round] returns the nearest integer, ties to even. *)
Lemma round_nearest_even (v : spec_float) (k : Z) :
  round (PyFloat v) = Ok k -> nearest_even (float_value v) k.
Proof.
  destruct v as [s | s | | s m e]; cbn [round float_value]; try discriminate.
  - intros H; inversion H; subst. apply (nearest_even_exact 0).
  - intros H; inversion H; subst k; clear H.
    destruct e as [| e | e]; cbv beta iota.
    + rewrite cond_Zopp_mul. apply nearest_even_exact.
    + rewrite cond_Zopp_mul. apply nearest_even_exact.
    + pose proof (div_half_even_nearest (Zpos m) (2 ^ Zpos e) ltac:(lia)
                    ltac:(apply Z.pow_pos_nonneg; lia)) as [H1 H2].
      set (k := div_half_even (Zpos m) (2 ^ Zpos e)) in *.
      assert (HD : Zpos (2 ^ e) = 2 ^ Zpos e) by (rewrite Pos2Z.inj_pow; reflexivity).
      assert (Habs : Z.abs (cond_Zopp s k * Zpos (2 ^ e) - cond_Zopp s (Zpos m))
                     = Z.abs (k * 2 ^ Zpos e - Zpos m)).
      { rewrite HD. destruct s; cbn [cond_Zopp]; lia. }
      unfold nearest_even, Qminus, Qplus, Qopp, Qabs, Qle, Qeq, inject_Z.
      cbn [Qnum Qden].
      change (Z.pow_pos 2 e) with (2 ^ Zpos e). fold k.
      rewrite ?Z.mul_1_r, ?Pos.mul_1_l, !Z.add_opp_r.
      rewrite Habs, HD, Z.mul_1_l.
      split; [lia |]. intros Heq.
      assert (Hev : Z.even k = true) by (apply H2; lia).
      destruct s; cbn [cond_Zopp]; [rewrite Z.even_opp |]; exact Hev.
Qed.

(** [int] of a float in [[0, N]] is its integer part, in [[0, N]]. *)
Lemma int_in_0 (N : Z) (v : spec_float) :
  0 <= N -> float_in_0 N v ->
  exists k, int (PyFloat v) = Ok k /\ 0 <= k <= N /\ k = Qfloor (float_value v).
Proof.
  intros HN.
  destruct v as [s | s | | [] m e]; cbn [float_in_0]; try tauto.
  - intros _. exists 0. repeat split; lia.
  - intros [He Hm]. eexists. split; [reflexivity |]. cbn [cond_Zopp float_value].
    destruct e as [| e | e]; try lia.
    + change (2 ^ (- 0)) with 1 in Hm. rewrite Qfloor_Z. change (2 ^ 0) with 1. lia.
    + change (- Zneg e) with (Zpos e) in Hm.
      assert (0 < 2 ^ Zpos e) by (apply Z.pow_pos_nonneg; lia).
      cbn [Qfloor]. rewrite Pos2Z.inj_pow. change (Zpos 2) with 2.
      split; [| reflexivity]. split; [apply Z.div_pos; lia |].
      apply Z.div_le_upper_bound; lia.
Qed.

End Rounding.

(** ** The bar renderers *)

Section Bars.

(** A string of one character: only the count decides. *)
Lemma str_repeat_char (c : ascii) (n : Z) :
  str_repeat (String c "") n
  = if index_fits n then Ok (str_mul (String c "") n) else Raise OverflowError.
Proof.
  unfold str_repeat. destruct (index_fits n) eqn:E; [| reflexivity].
  unfold index_fits in E. apply andb_prop in E. destruct E as [_ E].
  apply Z.ltb_lt in E. cbn [String.length].
  replace (2 ^ 63 - 1 <? Z.of_nat 1 * n) with false; [reflexivity |].
  symmetry. apply Z.ltb_ge. lia.
Qed.

Lemma str_repeat_fits (c : ascii) (n : Z) :
  - 2 ^ 63 <= n < 2 ^ 63 ->
  str_repeat (String c "") n = Ok (str_mul (String c "") n).
Proof.
  intros Hn. rewrite str_repeat_char. unfold index_fits.
  replace (- 2 ^ 63 <=? n) with true by (symmetry; apply Z.leb_le; lia).
  replace (n <? 2 ^ 63) with true by (symmetry; apply Z.ltb_lt; lia).
  reflexivity.
Qed.

(** Counts of magnitude up to [2 ^ 54] fit an index. *)
Lemma str_repeat_small (c : ascii) (n : Z) :
  - (2 * 2 ^ 53) <= n <= 2 * 2 ^ 53 ->
  str_repeat (String c "") n = Ok (str_mul (String c "") n).
Proof.
  intros Hn. apply str_repeat_fits.
  change (2 ^ 53) with 9007199254740992 in Hn.
  change (2 ^ 63) with 9223372036854775808. lia.
Qed.

Lemma str_mul_nonpos (s : string) (n : Z) : n <= 0 -> str_mul s n = "".
Proof.
  intros Hn. unfold str_mul. replace (Z.to_nat n) with 0%nat by lia. reflexivity.
Qed.

Lemma length_append (a b : string) :
  String.length (a ++ b) = (String.length a + String.length b)%nat.
Proof. induction a as [| c a IH]; simpl; [reflexivity | now rewrite IH]. Qed.

Lemma length_str_mul (c : ascii) (n : Z) :
  String.length (str_mul (String c "") n) = Z.to_nat n.
Proof.
  unfold str_mul. set (f := append (String c "")).
  induction (Z.to_nat n) as [| k IH]; [reflexivity |].
  rewrite Nat.iter_succ. unfold f at 1. cbn [append String.length].
  now rewrite IH.
Qed.

(** A percentage that passes the guard of [Duim.percent_to_graph] divides
    by 100 to a ratio in [[0, 1]]. *)
Lemma guarded_ratio (percent : num) :
  le (PyInt 0) percent = true -> le percent (PyInt 100) = true ->
  exists r, truediv percent (PyInt 100) = Ok (PyFloat r) /\ float_in_0 1 r.
Proof.
  destruct percent as [n | f]; cbn [le].
  - intros H0 H100. apply Z.leb_le in H0, H100.
    cbn [truediv]. unfold int_truediv. change (100 =? 0) with false. cbv iota.
    destruct (n =? 0) eqn:En.
    + eexists. split; [reflexivity | exact I].
    + apply Z.eqb_neq in En.
      replace (n <? 0) with false by (symmetry; apply Z.ltb_ge; lia).
      change (100 <? 0) with false. change (Z.to_pos (Z.abs 100)) with 100%positive.
      pose proof (SFdiv_upper (Z.to_pos (Z.abs n)) 0 100 0) as H.
      rewrite Z2Pos.id in H by lia. specialize (H ltac:(simpl; lia)).
      destruct (SFdiv prec emax _ _) as [s | s | | s m e];
        cbn [float_in_0] in H; try tauto; eexists; split;
        try reflexivity; assumption.
  - intros H0 H100.
    assert (Hlit : to_float (PyInt 100)
                   = Ok (S754_finite false 7036874417766400 (-46)))
      by reflexivity.
    cbn [truediv]. rewrite Hlit. cbn [to_float bind is_zero].
    destruct f as [s | s | | s m e]; cbn [float_cmp_int] in H0, H100.
    + eexists. split; [reflexivity | exact I].
    + destruct s; cbn in H0, H100; [discriminate H0 | discriminate H100].
    + cbn in H0. discriminate H0.
    + destruct s; cbn [cond_Zopp] in H0, H100.
      { exfalso.
        assert (Hneg : forall k n, 0 <= k -> 0 <= n -> (- Zpos m * 2 ^ k ?= n) = Lt).
        { intros k n Hk Hn. apply Z.compare_lt_iff.
          assert (0 < 2 ^ k) by (apply Z.pow_pos_nonneg; lia). nia. }
        destruct e as [| e | e]; cbv beta iota in H0;
          [rewrite (Hneg 0) in H0 by lia | rewrite (Hneg (Zpos e)) in H0 by lia
          | cbn in H0]; discriminate H0. }
      eexists. split; [reflexivity |]. apply SFdiv_upper.
      assert (Hcmp : forall a b, match a ?= b with Gt => false | _ => true end = true
                                 -> a <= b).
      { intros a b. destruct (Z.compare_spec a b); [lia | lia | discriminate]. }
      destruct e as [| e | e]; cbv beta iota in H100; apply Hcmp in H100.
      * change (Z.min 0 (-46)) with (-46). change (2 ^ 0) with 1 in H100.
        change (2 ^ (-46 - -46)) with 1.
        change (2 ^ (0 - -46)) with 70368744177664. lia.
      * assert (Hp : 0 < 2 ^ Zpos e) by (apply Z.pow_pos_nonneg; lia).
        replace (Z.min (Zpos e) (-46)) with (-46) by lia.
        replace (Zpos e - -46) with (Zpos e + 46) by lia.
        rewrite Z.pow_add_r by lia. change (2 ^ (-46 - -46)) with 1.
        change (2 ^ 46) with 70368744177664. lia.
      * assert (Hp : 0 < 2 ^ Zpos e) by (apply Z.pow_pos_nonneg; lia).
        destruct (Z_le_gt_dec (Zneg e) (-46)) as [Hc | Hc].
        -- replace (Z.min (Zneg e) (-46)) with (Zneg e) by lia.
           rewrite Z.sub_diag. change (2 ^ 0) with 1.
           replace (Zpos e) with (46 + (-46 - Zneg e)) in H100 by lia.
           rewrite Z.pow_add_r in H100 by lia.
           change (2 ^ 46) with 70368744177664 in H100. lia.
        -- replace (Z.min (Zneg e) (-46)) with (-46) by lia.
           change (2 ^ (-46 - -46)) with 1.
           assert (Hs : 2 ^ 46 = 2 ^ Zpos e * 2 ^ (Zneg e - -46)).
           { rewrite <- Z.pow_add_r by lia. f_equal. lia. }
           assert (0 < 2 ^ (Zneg e - -46)) by (apply Z.pow_pos_nonneg; lia).
           change (2 ^ 46) with 70368744177664 in Hs. nia.
Qed.

Lemma mul_ratio_nonneg (r : spec_float) (W : Z) :
  float_in_0 1 r -> 0 <= W < 2 ^ 53 ->
  exists v, mul (PyFloat r) (PyInt W) = Ok (PyFloat v) /\ float_in_0 W v.
Proof.
  intros Hr HW. cbn [mul to_float bind].
  destruct (Z.eq_dec W 0) as [-> | Hne].
  - change (float_of_int 0) with (Ok (S754_zero false)). cbn [bind].
    eexists. split; [reflexivity |]. now apply SFmul_upper.
  - destruct (float_of_int_small W ltac:(lia)) as (m & e & Hw & _).
    rewrite Hw. cbn [bind]. eexists. split; [reflexivity |].
    now apply SFmul_upper.
Qed.

Lemma mul_ratio_neg (r : spec_float) (W : Z) :
  float_in_0 1 r -> 0 < W < 2 ^ 53 ->
  exists v, mul (PyFloat r) (PyInt (- W)) = Ok (PyFloat (SFopp v)) /\
            float_in_0 W v.
Proof.
  intros Hr HW. cbn [mul to_float bind].
  destruct (float_of_int_small W HW) as (m & e & Hw & _).
  destruct W as [| p | p]; try lia. cbn [Z.opp].
  rewrite (float_of_int_opp p _ Hw). cbn [bind].
  rewrite SFmul_opp_r. eexists. split; [reflexivity |].
  apply SFmul_upper; [lia | assumption | exact Hw].
Qed.

(** The bar of [Duim.percent_to_graph] for a percentage that passes the
    guard: the scaled ratio, the fill count that [round] gives, and the
    string returned. *)
Lemma duim_bar (percent : num) (W : Z) :
  le (PyInt 0) percent = true -> le percent (PyInt 100) = true ->
  - 2 ^ 53 < W < 2 ^ 53 ->
  exists v k,
    (ratio <- truediv percent (PyInt 100) ;; mul ratio (PyInt W)) = Ok (PyFloat v) /\
    round (PyFloat v) = Ok k /\
    (0 <= W -> 0 <= k <= W) /\ (W <= 0 -> W <= k <= 0) /\
    Duim.percent_to_graph percent W
    = Ok (str_mul "=" k ++ str_mul " " (W - k)).
Proof.
  intros H0 H100 HW.
  destruct (guarded_ratio percent H0 H100) as (r & Hr & Hin).
  unfold Duim.percent_to_graph. rewrite H0, H100, Hr. cbn [andb negb bind].
  destruct (Z_le_gt_dec 0 W) as [Hpos | Hneg].
  - destruct (mul_ratio_nonneg r W Hin ltac:(lia)) as (v & Hv & Hvin).
    destruct (round_in_0 W v Hpos Hvin) as (k & Hk & Hkb).
    exists v, k. rewrite Hv. cbn [bind]. rewrite Hk. cbn [bind].
    rewrite !str_repeat_small by lia. cbn [bind].
    repeat split; auto; lia.
  - destruct (mul_ratio_neg r (- W) Hin ltac:(lia)) as (v & Hv & Hvin).
    rewrite Z.opp_involutive in Hv.
    destruct (round_in_0 (- W) v ltac:(lia) Hvin) as (k & Hk & Hkb).
    apply round_opp in Hk.
    exists (SFopp v), (- k). rewrite Hv. cbn [bind]. rewrite Hk. cbn [bind].
    rewrite !str_repeat_small by lia. cbn [bind].
    repeat split; auto; lia.
Qed.

(** A float that the comparisons place in [[0, 1]]. *)
Lemma guarded_unit (f : spec_float) :
  le (PyInt 0) (PyFloat f) = true -> le (PyFloat f) (PyInt 1) = true ->
  float_in_0 1 f.
Proof.
  cbn [le]. intros H0 H1.
  assert (Hcmp : forall a b, match a ?= b with Gt => false | _ => true end = true
                             -> a <= b).
  { intros a b. destruct (Z.compare_spec a b); [lia | lia | discriminate]. }
  assert (Hcmp' : forall a b, match a ?= b with Lt => false | _ => true end = true
                              -> b <= a).
  { intros a b. destruct (Z.compare_spec a b); [lia | discriminate | lia]. }
  destruct f as [s | s | | s m e]; cbn [float_cmp_int float_in_0] in *.
  - exact I.
  - destruct s; cbn in H0, H1; [discriminate H0 | discriminate H1].
  - discriminate H0.
  - destruct e as [| e | e]; cbv beta iota in H0, H1;
      apply Hcmp in H1; apply Hcmp' in H0.
    + change (2 ^ 0) with 1 in *. destruct s; cbn [cond_Zopp] in *; [lia |].
      change (2 ^ (- 0)) with 1. lia.
    + assert (1 < 2 ^ Zpos e) by (apply Z.pow_gt_1; lia).
      destruct s; cbn [cond_Zopp] in *; nia.
    + assert (0 < 2 ^ Zpos e) by (apply Z.pow_pos_nonneg; lia).
      destruct s; cbn [cond_Zopp] in *; [lia |].
      change (- Zneg e) with (Zpos e). lia.
Qed.

(** The bar of [Assignment2.percent_to_graph] for a fraction in [[0, 1]]. *)
Lemma assignment2_bar (percent : num) (L : Z) :
  le (PyInt 0) percent = true -> le percent (PyInt 1) = true ->
  0 <= L < 2 ^ 53 ->
  exists scaled hashes shown,
    mul percent (PyInt L) = Ok scaled /\
    int scaled = Ok hashes /\ hashes = Qfloor (num_value scaled) /\
    0 <= hashes <= L /\
    Assignment2.percent_to_graph percent L
    = Ok ("[" ++ str_mul "#" hashes ++ str_mul " " (L - hashes)
            ++ " | " ++ str_of_int shown ++ "%]").
Proof.
  intros H0 H1 HL. unfold Assignment2.percent_to_graph.
  destruct percent as [n | f].
  - cbn [le] in H0, H1. apply Z.leb_le in H0, H1.
    exists (PyInt (n * L)), (n * L), (n * 100). cbn [mul bind int num_value].
    assert (Hb : 0 <= n * L <= L) by nia.
    cbv zeta. rewrite !str_repeat_small by lia. cbn [bind].
    rewrite Qfloor_Z. repeat split; auto; lia.
  - pose proof (guarded_unit f H0 H1) as Hin.
    destruct (mul_ratio_nonneg f L Hin HL) as (v & Hv & Hvin).
    destruct (int_in_0 L v ltac:(lia) Hvin) as (h & Hh & Hhb & Hfl).
    destruct (mul_ratio_nonneg f 100 Hin ltac:(split; [lia | reflexivity]))
      as (v' & Hv' & Hvin').
    destruct (int_in_0 100 v' ltac:(lia) Hvin') as (h' & Hh' & _).
    exists (PyFloat v), h, h'. rewrite Hv, Hv'. cbn [bind]. rewrite Hh, Hh'.
    cbn [bind num_value]. cbv zeta. rewrite !str_repeat_small by lia.
    cbn [bind]. repeat split; auto; lia.
Qed.

(** C1 (as stated, refuted).  At [percent = 50.0] and width 1 the exact
    product is one half: rounding half up fills one character, while
    [Duim.percent_to_graph] fills none ([round] takes a tie to the even
    integer) and [Assignment2.percent_to_graph], which expects a fraction,
    fills fifty.  Read as a fraction, [0.375] at length 4 makes 1.5:
    [Assignment2.percent_to_graph] truncates it to one character where
    rounding half up gives two. *)
Lemma percent_to_graph_not_half_up :
  spec_bar "=" 50 1 = "=" /\
  Duim.percent_to_graph (PyFloat (float_lit 50)) 1 = Ok " " /\
  Duim.percent_to_graph (PyFloat (float_lit 50)) 1 <> Ok (spec_bar "=" 50 1) /\
  Assignment2.percent_to_graph (PyFloat (float_lit 50)) 1
  = Ok ("[" ++ str_mul "#" 50 ++ " | 5000%]") /\
  round_half_up ((3 # 8) * 4) = 2 /\
  Assignment2.percent_to_graph (PyFloat (S754_finite false 3 (-3))) 4
  = Ok "[#    | 37%]".
Proof. repeat split; try (vm_compute; reflexivity). vm_compute. discriminate. Qed.

(** C1 (amended).  For a width below [2 ^ 53]: [Duim.percent_to_graph], for
    a percentage in [[0, 100]], returns [filled] markers followed by
    [width - filled] spaces, where [filled] is the integer nearest to the
    binary64 value of [(percent / 100) * width], a tie going to the even
    integer; [Assignment2.percent_to_graph], for a fraction in [[0, 1]],
    returns, between its brackets, [hashes] markers followed by
    [width - hashes] spaces, where [hashes] is the binary64 value of
    [percent * width] truncated. *)
Theorem percent_to_graph_fill (percent : num) (width : Z) :
  0 < width < 2 ^ 53 ->
  le (PyInt 0) percent = true ->
  (le percent (PyInt 100) = true ->
   exists scaled filled,
     (ratio <- truediv percent (PyInt 100) ;; mul ratio (PyInt width))
     = Ok scaled /\
     nearest_even (num_value scaled) filled /\ 0 <= filled <= width /\
     Duim.percent_to_graph percent width
     = Ok (str_mul "=" filled ++ str_mul " " (width - filled))) /\
  (le percent (PyInt 1) = true ->
   exists scaled hashes shown,
     mul percent (PyInt width) = Ok scaled /\
     hashes = Qfloor (num_value scaled) /\ 0 <= hashes <= width /\
     Assignment2.percent_to_graph percent width
     = Ok ("[" ++ str_mul "#" hashes ++ str_mul " " (width - hashes)
             ++ " | " ++ str_of_int shown ++ "%]")).
Proof.
  intros HW H0. split.
  - intros H100.
    destruct (duim_bar percent width H0 H100 ltac:(lia))
      as (v & k & Hv & Hk & Hpos & _ & Hbar).
    exists (PyFloat v), k. repeat split; auto; try lia.
    + apply (round_nearest_even v k Hk).
    + apply (round_nearest_even v k Hk).
  - intros H1.
    destruct (assignment2_bar percent width H0 H1 ltac:(lia))
      as (scaled & h & shown & Hs & _ & Hfl & Hb & Hbar).
    exists scaled, h, shown. auto.
Qed.

Lemma percent_to_graph_fill_witness :
  (exists scaled filled,
     (ratio <- truediv (PyInt 1) (PyInt 100) ;; mul ratio (PyInt 20))
     = Ok scaled /\
     nearest_even (num_value scaled) filled /\ 0 <= filled <= 20 /\
     Duim.percent_to_graph (PyInt 1) 20
     = Ok (str_mul "=" filled ++ str_mul " " (20 - filled))) /\
  (exists scaled hashes shown,
     mul (PyInt 1) (PyInt 20) = Ok scaled /\
     hashes = Qfloor (num_value scaled) /\ 0 <= hashes <= 20 /\
     Assignment2.percent_to_graph (PyInt 1) 20
     = Ok ("[" ++ str_mul "#" hashes ++ str_mul " " (20 - hashes)
             ++ " | " ++ str_of_int shown ++ "%]")).
Proof.
  destruct (percent_to_graph_fill (PyInt 1) 20
              (conj eq_refl eq_refl) eq_refl) as [Hd Ha].
  split; [exact (Hd eq_refl) | exact (Ha eq_refl)].
Defined.

(** C2 (as stated, refuted).  [Assignment2.percent_to_graph] takes a
    fraction: at [percent = 2.0] and length 20 the region between its
    brackets holds 40 markers and no space. *)
Lemma assignment2_bar_exceeds_width :
  Assignment2.percent_to_graph (PyFloat (float_lit 2)) 20
  = Ok ("[" ++ (str_mul "#" 40 ++ str_mul " " (-20)) ++ " | 200%]") /\
  String.length (str_mul "#" 40 ++ str_mul " " (-20)) = 40%nat.
Proof. split; vm_compute; reflexivity. Qed.

(** C2 (amended).  For a width below [2 ^ 53], the bar region has exactly
    [width] characters, markers then spaces: in [Duim.percent_to_graph] for
    a percentage in [[0, 100]], and in [Assignment2.percent_to_graph] for a
    fraction in [[0, 1]]. *)
Theorem percent_to_graph_width (percent : num) (width : Z) :
  0 < width < 2 ^ 53 ->
  le (PyInt 0) percent = true ->
  (le percent (PyInt 100) = true ->
   exists filled spaces,
     Duim.percent_to_graph percent width
     = Ok (str_mul "=" filled ++ str_mul " " spaces) /\
     0 <= filled /\ 0 <= spaces /\ filled + spaces = width /\
     Z.of_nat (String.length (str_mul "=" filled ++ str_mul " " spaces))
     = width) /\
  (le percent (PyInt 1) = true ->
   exists filled spaces shown,
     Assignment2.percent_to_graph percent width
     = Ok ("[" ++ str_mul "#" filled ++ str_mul " " spaces
             ++ " | " ++ str_of_int shown ++ "%]") /\
     0 <= filled /\ 0 <= spaces /\ filled + spaces = width /\
     Z.of_nat (String.length (str_mul "#" filled ++ str_mul " " spaces))
     = width).
Proof.
  intros HW H0. split.
  - intros H100.
    destruct (duim_bar percent width H0 H100 ltac:(lia))
      as (v & k & _ & _ & Hpos & _ & Hbar).
    exists k, (width - k). rewrite length_append, !length_str_mul.
    repeat split; auto; lia.
  - intros H1.
    destruct (assignment2_bar percent width H0 H1 ltac:(lia))
      as (scaled & h & shown & _ & _ & _ & Hb & Hbar).
    exists h, (width - h), shown. rewrite length_append, !length_str_mul.
    repeat split; auto; lia.
Qed.

Lemma percent_to_graph_width_witness :
  (exists filled spaces,
     Duim.percent_to_graph (PyInt 1) 20
     = Ok (str_mul "=" filled ++ str_mul " " spaces) /\
     0 <= filled /\ 0 <= spaces /\ filled + spaces = 20 /\
     Z.of_nat (String.length (str_mul "=" filled ++ str_mul " " spaces))
     = 20) /\
  (exists filled spaces shown,
     Assignment2.percent_to_graph (PyInt 1) 20
     = Ok ("[" ++ str_mul "#" filled ++ str_mul " " spaces
             ++ " | " ++ str_of_int shown ++ "%]") /\
     0 <= filled /\ 0 <= spaces /\ filled + spaces = 20 /\
     Z.of_nat (String.length (str_mul "#" filled ++ str_mul " " spaces))
     = 20).
Proof.
  destruct (percent_to_graph_width (PyInt 1) 20
              (conj eq_refl eq_refl) eq_refl) as [Hd Ha].
  split; [exact (Hd eq_refl) | exact (Ha eq_refl)].
Defined.








End Bars.

(** ** Splitting lines *)

Section Splitting.

Lemma append_assoc (a b c : string) : (a ++ b) ++ c = a ++ b ++ c.
Proof. induction a as [| x a IH]; simpl; [reflexivity | now rewrite IH]. Qed.

Lemma append_nil_r (a : string) : a ++ "" = a.
Proof. induction a as [| x a IH]; simpl; [reflexivity | now rewrite IH]. Qed.

Lemma lstrip_app (lead s : string) :
  all_space lead = true -> lstrip (lead ++ s) = lstrip s.
Proof.
  induction lead as [| c lead IH]; simpl; [reflexivity |].
  intros H. apply andb_true_iff in H. destruct H as [Hc Hl].
  rewrite Hc. auto.
Qed.

Lemma lstrip_nonspace (s : string) : starts_nonspace s -> lstrip s = s.
Proof. intros (c & r & -> & Hc). simpl. now rewrite Hc. Qed.

(** [lstrip] removes a run of whitespace and stops at a character that is
    not whitespace, or at the end. *)
Lemma lstrip_spec (s : string) :
  exists lead, s = lead ++ lstrip s /\ all_space lead = true /\
               (lstrip s = "" \/ starts_nonspace (lstrip s)).
Proof.
  induction s as [| c s (lead & Hs & Hl & Ht)]; simpl.
  - exists "". auto.
  - destruct (isspace c) eqn:Hc.
    + exists (String c lead). simpl. rewrite Hc, Hl. split; [congruence | auto].
    + exists "". repeat split. right. exists c, s. auto.
Qed.

Lemma take_word_app (w r : string) :
  no_space w = true -> starts_space_or_empty r -> take_word (w ++ r) = (w, r).
Proof.
  intros Hw Hr. induction w as [| c w IH]; simpl.
  - destruct Hr as [-> | (c & r' & -> & Hc)]; simpl; [reflexivity |].
    now rewrite Hc.
  - simpl in Hw. apply andb_true_iff in Hw. destruct Hw as [Hc Hw].
    apply negb_true_iff in Hc. rewrite Hc, (IH Hw). reflexivity.
Qed.

Lemma take_word_spec (s w r : string) :
  take_word s = (w, r) ->
  s = w ++ r /\ no_space w = true /\ starts_space_or_empty r.
Proof.
  revert w r. induction s as [| c s IH]; simpl; intros w r H.
  - inversion H; subst. repeat split. now left.
  - destruct (isspace c) eqn:Hc.
    + inversion H; subst. repeat split. right. exists c, s. auto.
    + destruct (take_word s) as [w' r'] eqn:E. inversion H; subst.
      destruct (IH w' r eq_refl) as (Hs & Hw & Hr).
      simpl. rewrite Hc, Hw. split; [congruence | auto].
Qed.

(** [line.split(maxsplit=1)] has two items exactly on the lines made of a
    token, a whitespace run and a rest, after optional whitespace. *)
Lemma split_max_1_shape (line tok rest : string) :
  split_max 1 line = [tok; rest] <->
  exists lead gap,
    line = lead ++ tok ++ gap ++ rest /\ all_space lead = true /\
    tok <> "" /\ no_space tok = true /\
    gap <> "" /\ all_space gap = true /\ starts_nonspace rest.
Proof.
  split.
  - cbn [split_max].
    destruct (lstrip_spec line) as (lead & Hline & Hlead & Ht).
    destruct (lstrip line) as [| c t] eqn:El; [discriminate |].
    destruct Ht as [Ht | (c0 & t0 & Ht & Hc0)]; [discriminate |].
    inversion Ht; subst c0 t0; clear Ht.
    destruct (take_word (String c t)) as [w r] eqn:Ew.
    destruct (take_word_spec _ _ _ Ew) as (Hs & Hw & Hr).
    destruct (lstrip_spec r) as (gap & Hr' & Hgap & Hp).
    destruct (lstrip r) as [| c' p] eqn:Er; [discriminate |].
    intros H. inversion H; subst w rest; clear H.
    destruct Hp as [Hp | Hp]; [discriminate |].
    exists lead, gap. rewrite Hline, Hs, Hr' at 1.
    repeat split; auto.
    + intros ->. simpl in Ew. rewrite Hc0 in Ew.
      destruct (take_word t); discriminate.
    + intros ->. simpl in Hr'. subst r.
      destruct Hr as [Hr | (c1 & r1 & Hr & Hc1)]; [discriminate |].
      destruct Hp as (c2 & r2 & Hp & Hc2). congruence.
  - intros (lead & gap & -> & Hlead & Htok & Hns & Hgap & Hgs & Hrest).
    cbn [split_max]. rewrite (lstrip_app lead _ Hlead).
    destruct tok as [| c tok]; [congruence |].
    simpl in Hns. apply andb_true_iff in Hns. destruct Hns as [Hc Hns].
    apply negb_true_iff in Hc.
    change (String c tok ++ gap ++ rest) with (String c (tok ++ gap ++ rest)).
    cbn [lstrip]. rewrite Hc.
    change (String c (tok ++ gap ++ rest)) with (String c tok ++ gap ++ rest).
    rewrite take_word_app.
    + rewrite (lstrip_app gap _ Hgs), (lstrip_nonspace rest Hrest).
      destruct Hrest as (c' & r' & -> & _). reflexivity.
    + simpl. now rewrite Hc, Hns.
    + right. destruct gap as [| g gap]; [congruence |].
      simpl in Hgs. apply andb_true_iff in Hgs. destruct Hgs as [Hg _].
      exists g, (gap ++ rest). auto.
Qed.

End Splitting.

(** ** Reading integers *)

Section Integers.

Lemma digit_not_space (c : ascii) (d : Z) :
  digit_of c = Some d -> isspace c = false /\ d = ord c - 48.
Proof.
  unfold digit_of, isspace. set (n := ord c).
  destruct ((48 <=? n) && (n <=? 57)) eqn:E; [| discriminate].
  intros H; inversion H; subst d. split; [| reflexivity].
  apply andb_true_iff in E. destruct E as [E1 E2].
  apply Z.leb_le in E1, E2.
  repeat (apply orb_false_iff; split);
    try (apply andb_false_iff; (left; apply Z.leb_gt; lia) || (right; apply Z.leb_gt; lia));
    apply Z.eqb_neq; lia.
Qed.

Lemma all_digits_no_space (s : string) :
  all_digits s = true -> no_space s = true.
Proof.
  induction s as [| c s IH]; simpl; [reflexivity |].
  destruct (digit_of c) as [d |] eqn:E; [| discriminate].
  intros H. destruct (digit_not_space c d E) as [-> _]. simpl. auto.
Qed.

Lemma rstrip_no_space (s : string) : no_space s = true -> rstrip s = s.
Proof.
  induction s as [| c s IH]; simpl; [reflexivity |].
  intros H. apply andb_true_iff in H. destruct H as [Hc Hs].
  apply negb_true_iff in Hc. rewrite (IH Hs), Hc. now destruct s.
Qed.

Lemma strip_no_space (s : string) : no_space s = true -> strip s = s.
Proof.
  intros H. unfold strip.
  assert (Hl : lstrip s = s).
  { destruct s as [| c s]; [reflexivity |]. simpl in *.
    apply andb_true_iff in H. destruct H as [Hc _].
    apply negb_true_iff in Hc. now rewrite Hc. }
  rewrite Hl. now apply rstrip_no_space.
Qed.

Lemma int_digits_decimal (s : string) (st : lex_state) (acc : Z) :
  all_digits s = true -> s <> "" \/ st = AfterDigit ->
  int_digits st acc s = Ok (decimal acc s).
Proof.
  revert st acc. induction s as [| c s IH]; intros st acc Hd Hne.
  - destruct Hne as [Hne | ->]; [congruence | reflexivity].
  - simpl in *. destruct (digit_of c) as [d |] eqn:E; [| discriminate].
    destruct (digit_not_space c d E) as [_ ->]. apply IH; auto.
Qed.

(** [int] reads a string of decimal digits as the number it writes. *)
Lemma int_of_str_digits (s : string) :
  s <> "" -> all_digits s = true -> int_of_str s = Ok (decimal 0 s).
Proof.
  intros Hne Hd. unfold int_of_str.
  rewrite (strip_no_space s (all_digits_no_space s Hd)).
  rewrite <- (int_digits_decimal s AtStart 0 Hd (or_introl Hne)).
  destruct s as [| c s]; [congruence |].
  simpl in Hd. destruct (digit_of c) as [d |] eqn:E; [| discriminate].
  destruct c as [[] [] [] [] [] [] [] []]; try discriminate E; reflexivity.
Qed.

Lemma int_digits_raises (s : string) (st : lex_state) (acc : Z) (e : exn) :
  int_digits st acc s = Raise e -> e = ValueError.
Proof.
  revert st acc. induction s as [| c s IH]; intros st acc; simpl.
  - destruct st; congruence.
  - destruct (digit_of c); [apply IH |].
    destruct (ord c =? 95); [| congruence].
    destruct st; try congruence. apply IH.
Qed.

(** [int] on a string raises nothing but [ValueError]. *)
Lemma int_of_str_raises (s : string) (e : exn) :
  int_of_str s = Raise e -> e = ValueError.
Proof.
  unfold int_of_str.
  assert (H : forall t, (n <- int_digits AtStart 0 t ;; Ok (- n)) = Raise e ->
                        e = ValueError).
  { intros t. destruct (int_digits AtStart 0 t) eqn:E; simpl; [discriminate |].
    intros H; inversion H; subst. eapply int_digits_raises; eauto. }
  destruct (strip s) as [| c t]; [simpl; congruence |].
  destruct c as [[] [] [] [] [] [] [] []];
    try apply int_digits_raises; apply H.
Qed.

End Integers.

(** ** [create_dir_dict] *)

Section DirDict.

Lemma string_eqb_refl (k : string) : String.eqb k k = true.
Proof. apply String.eqb_eq. reflexivity. Qed.

Lemma dict_get_set_eq {V : Type} (d : dict V) (k : string) (v : V) :
  dict_get (dict_set d k v) k = Some v.
Proof.
  induction d as [| [k' v'] d IH]; simpl.
  - now rewrite string_eqb_refl.
  - destruct (String.eqb k' k) eqn:E; simpl.
    + now rewrite string_eqb_refl.
    + now rewrite E.
Qed.

Lemma dict_get_set_ne {V : Type} (d : dict V) (k k' : string) (v : V) :
  k <> k' -> dict_get (dict_set d k v) k' = dict_get d k'.
Proof.
  intros Hne. induction d as [| [k0 v0] d IH]; simpl.
  - destruct (String.eqb k k') eqn:E; [apply String.eqb_eq in E; congruence | reflexivity].
  - destruct (String.eqb k0 k) eqn:E; simpl.
    + apply String.eqb_eq in E. subst k0.
      destruct (String.eqb k k') eqn:E'; [apply String.eqb_eq in E'; congruence | reflexivity].
    + now rewrite IH.
Qed.

(** [parse_du_line] succeeds exactly on the lines of the shape. *)
Lemma parse_du_line_shape (line path : string) (size : Z) :
  Duim.parse_du_line line = Ok (path, size) <-> du_line line size path.
Proof.
  unfold Duim.parse_du_line, du_line. split.
  - destruct (split_max 1 line) as [| a [| b [| c l]]] eqn:E; try discriminate.
    destruct (int_of_str a) as [n |] eqn:Ea; simpl; [| discriminate].
    intros H; inversion H; subst b n; clear H.
    apply split_max_1_shape in E.
    destruct E as (lead & gap & Hl & H1 & H2 & H3 & H4 & H5 & H6).
    exists lead, a, gap. repeat split; auto.
  - intros (lead & tok & gap & Hl & H1 & H2 & H3 & H4 & H5 & H6 & H7).
    assert (E : split_max 1 line = [tok; path]).
    { apply split_max_1_shape. exists lead, gap. repeat split; auto. }
    rewrite E, H4. reflexivity.
Qed.

Lemma parse_du_line_raises (line : string) (e : exn) :
  Duim.parse_du_line line = Raise e -> e = ValueError.
Proof.
  unfold Duim.parse_du_line.
  destruct (split_max 1 line) as [| a [| b [| c l]]]; try congruence.
  destruct (int_of_str a) as [n |] eqn:Ea; simpl; [discriminate |].
  intros H; inversion H; subst. eapply int_of_str_raises; eauto.
Qed.

Lemma create_dir_loop_shape (d : dict Z) (line : string) (rest : list string)
  (size : Z) (path : string) :
  du_line line size path ->
  Duim.create_dir_loop d (line :: rest)
  = Duim.create_dir_loop (dict_set d path size) rest.
Proof.
  intros H. apply parse_du_line_shape in H. cbn [Duim.create_dir_loop].
  rewrite H. reflexivity.
Qed.

Lemma create_dir_loop_skip (d : dict Z) (line : string) (rest : list string) :
  (forall size path, ~ du_line line size path) ->
  Duim.create_dir_loop d (line :: rest) = Duim.create_dir_loop d rest.
Proof.
  intros H. cbn [Duim.create_dir_loop].
  destruct (Duim.parse_du_line line) as [[p n] | e] eqn:E.
  - exfalso. apply (H n p). now apply parse_du_line_shape.
  - apply parse_du_line_raises in E. subst e. reflexivity.
Qed.

Lemma create_dir_loop_total (lines : list string) (d : dict Z) :
  exists d', Duim.create_dir_loop d lines = Ok d'.
Proof.
  revert d. induction lines as [| line rest IH]; intros d.
  - exists d. reflexivity.
  - cbn [Duim.create_dir_loop].
    destruct (Duim.parse_du_line line) as [[p n] | e] eqn:E.
    + apply IH.
    + apply parse_du_line_raises in E. subst e. apply IH.
Qed.

Lemma create_dir_loop_app (l1 l2 : list string) (d : dict Z) :
  Duim.create_dir_loop d (l1 ++ l2)
  = (d' <- Duim.create_dir_loop d l1 ;; Duim.create_dir_loop d' l2).
Proof.
  revert d. induction l1 as [| line rest IH]; intros d; [reflexivity |].
  cbn [app Duim.create_dir_loop].
  destruct (try_except _ ValueError (Ok d)) as [d' | e]; [apply IH | reflexivity].
Qed.

(** An entry of the result was in the dictionary at the start or comes
    from a line of the shape. *)
Lemma create_dir_loop_get (lines : list string) (d d' : dict Z)
  (path : string) (size : Z) :
  Duim.create_dir_loop d lines = Ok d' -> dict_get d' path = Some size ->
  dict_get d path = Some size \/
  exists line, In line lines /\ du_line line size path.
Proof.
  revert d. induction lines as [| line rest IH]; intros d Hl Hg.
  - inversion Hl; subst. auto.
  - cbn [Duim.create_dir_loop] in Hl.
    destruct (Duim.parse_du_line line) as [[p n] | e] eqn:E.
    + cbn [bind try_except fst snd] in Hl.
      destruct (IH _ Hl Hg) as [H | (l & Hin & H)].
      * destruct (string_dec p path) as [-> | Hne].
        -- rewrite dict_get_set_eq in H. inversion H; subst n.
           right. exists line. split; [now left | now apply parse_du_line_shape].
        -- rewrite dict_get_set_ne in H by assumption. auto.
      * right. exists l. split; [now right | assumption].
    + apply parse_du_line_raises in E. subst e.
      cbn [bind try_except exn_eqb] in Hl.
      destruct (IH _ Hl Hg) as [H | (l & Hin & H)]; auto.
      right. exists l. split; [now right | assumption].
Qed.

(** Lines that do not name [path] leave its entry as it is. *)
Lemma create_dir_loop_keep (lines : list string) (d d' : dict Z)
  (path : string) :
  Duim.create_dir_loop d lines = Ok d' ->
  (forall line, In line lines -> forall n, ~ du_line line n path) ->
  dict_get d' path = dict_get d path.
Proof.
  revert d. induction lines as [| line rest IH]; intros d Hl Hno.
  - inversion Hl; subst. reflexivity.
  - cbn [Duim.create_dir_loop] in Hl.
    destruct (Duim.parse_du_line line) as [[p n] | e] eqn:E.
    + cbn [bind try_except fst snd] in Hl.
      rewrite (IH _ Hl) by (intros l Hin; apply Hno; now right).
      apply dict_get_set_ne. intros ->.
      apply (Hno line (or_introl eq_refl) n). now apply parse_du_line_shape.
    + apply parse_du_line_raises in E. subst e.
      cbn [bind try_except exn_eqb] in Hl.
      apply (IH _ Hl). intros l Hin. apply Hno. now right.
Qed.

(** A line of decimal digits, whitespace and a path has the shape. *)
Lemma du_line_digits (ds gap path : string) :
  ds <> "" -> all_digits ds = true -> gap <> "" -> all_space gap = true ->
  starts_nonspace path -> du_line (ds ++ gap ++ path) (decimal 0 ds) path.
Proof.
  intros H1 H2 H3 H4 H5. exists "", ds, gap.
  repeat split; auto using all_digits_no_space, int_of_str_digits.
Qed.

Lemma du_line_short_shape (line : string) (size : Z) (path : string) :
  du_line_short line size path -> du_line line size path.
Proof.
  intros (lead & tok & gap & H1 & H2 & H3 & H4 & _ & H5 & H6 & H7 & H8).
  exists lead, tok, gap. repeat split; auto.
Qed.

Lemma du_line_short_digits (ds gap path : string) :
  ds <> "" -> all_digits ds = true -> (String.length ds <= 4300)%nat ->
  gap <> "" -> all_space gap = true -> starts_nonspace path ->
  du_line_short (ds ++ gap ++ path) (decimal 0 ds) path.
Proof.
  intros H1 H2 Hlen H3 H4 H5. exists "", ds, gap.
  repeat split; auto using all_digits_no_space, int_of_str_digits.
Qed.

Lemma plain_du_line_digit (c : ascii) (rest : string) :
  plain_du_line (String c rest) -> digit_of c <> None.
Proof.
  intros (ds & gap & path & Heq & Hne & Hd & _).
  destruct ds as [| a ds]; [congruence |].
  cbn [append] in Heq. inversion Heq; subst a.
  simpl in Hd. destruct (digit_of c); [discriminate | discriminate Hd].
Qed.

(** C6 (as stated, refuted).  Lines that are not of the shape
    [<integer><whitespace><path>] are stored, not skipped: a line that
    starts with whitespace, and a line whose size is written with a sign
    and an underscore, since [split] drops the leading whitespace and
    [int] reads [+1_0] as 10. *)
Lemma create_dir_dict_stores_other_shapes :
  ~ plain_du_line "   100 /a" /\
  ~ plain_du_line ("+1_0" ++ tab ++ "/x") /\
  Duim.create_dir_dict ["   100 /a"; "+1_0" ++ tab ++ "/x"]
  = Ok [("/a", 100); ("/x", 10)].
Proof.
  split; [| split].
  - intros H. apply plain_du_line_digit in H. now apply H.
  - intros H. apply plain_du_line_digit in H. now apply H.
  - vm_compute. reflexivity.
Qed.

(** C6 (amended).  [create_dir_dict] never aborts.  It reads the lines
    that [split(maxsplit=1)] cuts in two items of which [int] reads the
    first: whitespace or nothing, a token without whitespace that [int]
    reads (digits, which a sign may precede and single underscores
    separate; at most 4300 characters here, the limit of [int] on the
    digits), whitespace, and the rest of the line as the path.  Such a
    line puts its size under its path, and the entry stays unless a later
    line names the same path; a line that is not read changes nothing;
    every entry of the result comes from a line that is read.  A line of
    at most 4300 decimal digits, whitespace and a path is read, with the
    number the digits write.  On the lines [100<TAB>/a], [200 /b],
    [garbage-line], [50<TAB>/c] the result is [{/a: 100, /b: 200, /c: 50}]. *)
Theorem create_dir_dict_lines (pre post : list string) (line : string) :
  (exists d, Duim.create_dir_dict (pre ++ line :: post) = Ok d /\
     forall path size, dict_get d path = Some size ->
       exists l, In l (pre ++ line :: post) /\ du_line l size path) /\
  (forall size path, du_line_short line size path ->
     (forall l, In l post -> forall n, ~ du_line l n path) ->
     exists d, Duim.create_dir_dict (pre ++ line :: post) = Ok d /\
               dict_get d path = Some size) /\
  ((forall size path, ~ du_line line size path) ->
     Duim.create_dir_dict (pre ++ line :: post)
     = Duim.create_dir_dict (pre ++ post)) /\
  (forall ds gap path,
     ds <> "" -> all_digits ds = true -> (String.length ds <= 4300)%nat ->
     gap <> "" -> all_space gap = true -> starts_nonspace path ->
     du_line_short (ds ++ gap ++ path) (decimal 0 ds) path) /\
  Duim.create_dir_dict
    ["100" ++ tab ++ "/a"; "200 /b"; "garbage-line"; "50" ++ tab ++ "/c"]
  = Ok [("/a", 100); ("/b", 200); ("/c", 50)].
Proof.
  unfold Duim.create_dir_dict. split; [| split; [| split; [| split]]].
  - destruct (create_dir_loop_total (pre ++ line :: post) []) as [d Hd].
    exists d. split; [exact Hd |]. intros path size Hg.
    destruct (create_dir_loop_get _ _ _ _ _ Hd Hg) as [H | H];
      [discriminate H | exact H].
  - intros size path Hshape Hlater. apply du_line_short_shape in Hshape.
    rewrite create_dir_loop_app.
    destruct (create_dir_loop_total pre []) as [d1 Hd1]. rewrite Hd1.
    cbn [bind]. rewrite (create_dir_loop_shape _ _ _ _ _ Hshape).
    destruct (create_dir_loop_total post (dict_set d1 path size)) as [d2 Hd2].
    exists d2. split; [exact Hd2 |].
    rewrite (create_dir_loop_keep _ _ _ _ Hd2 Hlater). apply dict_get_set_eq.
  - intros Hno. rewrite !create_dir_loop_app.
    destruct (Duim.create_dir_loop [] pre) as [d1 | e]; [| reflexivity].
    cbn [bind]. now apply create_dir_loop_skip.
  - apply du_line_short_digits.
  - vm_compute. reflexivity.
Qed.

Lemma create_dir_dict_lines_witness :
  (exists d,
     Duim.create_dir_dict
       (["100" ++ tab ++ "/a"] ++ "200 /b" :: ["garbage-line"; "50" ++ tab ++ "/c"])
     = Ok d /\ dict_get d "/b" = Some 200) /\
  Duim.create_dir_dict
    (["100" ++ tab ++ "/a"; "200 /b"] ++ "garbage-line" :: ["50" ++ tab ++ "/c"])
  = Duim.create_dir_dict (["100" ++ tab ++ "/a"; "200 /b"] ++ ["50" ++ tab ++ "/c"]) /\
  du_line_short ("200" ++ " " ++ "/b") (decimal 0 "200") "/b".
Proof.
  assert (Hb : starts_nonspace "/b")
    by (exists "/"%char, "b"; split; reflexivity).
  assert (Hlen : (String.length "200" <= 4300)%nat)
    by (apply Nat.leb_le; reflexivity).
  split; [| split].
  - destruct (create_dir_dict_lines ["100" ++ tab ++ "/a"]
                ["garbage-line"; "50" ++ tab ++ "/c"] "200 /b") as (_ & H & _).
    apply (H 200 "/b").
    + exists "", "200", " ".
      split; [reflexivity |]. split; [reflexivity |].
      split; [discriminate |]. split; [reflexivity |].
      split; [exact Hlen |]. split; [reflexivity |].
      split; [discriminate |]. split; [reflexivity | exact Hb].
    + intros l [<- | [<- | []]] n Hd; apply parse_du_line_shape in Hd;
        vm_compute in Hd; discriminate Hd.
  - destruct (create_dir_dict_lines ["100" ++ tab ++ "/a"; "200 /b"]
                ["50" ++ tab ++ "/c"] "garbage-line") as (_ & _ & H & _).
    apply H. intros size path Hd. apply parse_du_line_shape in Hd.
    vm_compute in Hd. discriminate Hd.
  - destruct (create_dir_dict_lines [] [] "") as (_ & _ & _ & H & _).
    apply (H "200" " " "/b"); auto; try discriminate; reflexivity.
Defined.

End DirDict.

(** ** The size formatter *)

Section Sizes.

Lemma float_of_int_bounded (n : Z) :
  - 2 ^ 53 < n < 2 ^ 53 -> exists f, float_of_int n = Ok f.
Proof.
  intros Hn. destruct n as [| p | p].
  - eexists. reflexivity.
  - destruct (float_of_int_small (Zpos p) ltac:(lia)) as (m & e & H & _). eauto.
  - destruct (float_of_int_small (Zpos p) ltac:(lia)) as (m & e & H & _).
    eexists. apply float_of_int_opp. exact H.
Qed.

Lemma ge_lit_1e9 (x : Z) : ge (PyInt x) (PyFloat lit_1e9) = (10 ^ 9 <=? x).
Proof.
  unfold ge, lit_1e9, float_cmp_int. cbn [cond_Zopp].
  change (2 ^ Zpos 23) with 8388608. change (10 ^ 9) with 1000000000.
  destruct (Z.compare_spec 8388608000000000 (x * 8388608));
    destruct (Z.leb_spec 1000000000 x); try reflexivity; lia.
Qed.

Lemma ge_lit_1e6 (x : Z) : ge (PyInt x) (PyFloat lit_1e6) = (10 ^ 6 <=? x).
Proof.
  unfold ge, lit_1e6, float_cmp_int. cbn [cond_Zopp].
  change (2 ^ Zpos 33) with 8589934592. change (10 ^ 6) with 1000000.
  destruct (Z.compare_spec 8589934592000000 (x * 8589934592));
    destruct (Z.leb_spec 1000000 x); try reflexivity; lia.
Qed.

(** C7 (as stated, refuted).  The formatter of the human-readable mode has
    no threshold at [10 ^ 3]: 999 is formatted ["1.0 K"], not as a byte
    count; the formatter of the other mode writes every value raw, so 1000
    is ["1000 B"], not ["1.0 K"].  Neither formatter gives both ["999 B"]
    for 999 and ["1.0 K"] for 1000. *)
Lemma size_formatter_no_byte_threshold :
  Duim.size_formatter true 999 = Ok "1.0 K" /\
  Duim.size_formatter false 1000 = Ok "1000 B" /\
  forall human : bool,
    ~ (Duim.size_formatter human 999 = Ok "999 B" /\
       Duim.size_formatter human 1000 = Ok "1.0 K").
Proof.
  split; [vm_compute; reflexivity |]. split; [vm_compute; reflexivity |].
  intros [] [H1 H2]; vm_compute in H1, H2; discriminate.
Qed.

(** C7 (amended).  In the human-readable mode the formatter chooses G for
    values from [10 ^ 9], M for values from [10 ^ 6] and K for every smaller
    value, and writes the quotient by [10 ^ 9], [10 ^ 6] or [10 ^ 3] with one
    decimal: 1000 is ["1.0 K"] and so is 999, [10 ^ 6] is ["1.0 M"],
    [10 ^ 9] is ["1.0 G"].  The raw form [<x> B] is that of the other mode,
    for every value: 999 is ["999 B"] there. *)
Theorem size_formatter_units (x : Z) :
  - 2 ^ 53 < x < 2 ^ 53 ->
  (exists fx,
     float_of_int x = Ok fx /\
     Duim.size_formatter true x
     = Ok (if 10 ^ 9 <=? x
           then format_fixed 1 (SFdiv prec emax fx lit_1e9) ++ " G"
           else if 10 ^ 6 <=? x
           then format_fixed 1 (SFdiv prec emax fx lit_1e6) ++ " M"
           else format_fixed 1 (SFdiv prec emax fx lit_1e3) ++ " K")) /\
  Duim.size_formatter false x = Ok (str_of_int x ++ " B") /\
  Duim.size_formatter true 999 = Ok "1.0 K" /\
  Duim.size_formatter true 1000 = Ok "1.0 K" /\
  Duim.size_formatter true 999999 = Ok "1000.0 K" /\
  Duim.size_formatter true 1000000 = Ok "1.0 M" /\
  Duim.size_formatter true 1000000000 = Ok "1.0 G" /\
  Duim.size_formatter false 999 = Ok "999 B".
Proof.
  intros Hx. split; [| repeat split; vm_compute; reflexivity].
  destruct (float_of_int_bounded x Hx) as [fx Hfx]. exists fx.
  split; [exact Hfx |].
  unfold Duim.size_formatter. rewrite ge_lit_1e9, ge_lit_1e6.
  destruct (10 ^ 9 <=? x); [| destruct (10 ^ 6 <=? x)];
    cbn [truediv to_float bind]; rewrite Hfx; reflexivity.
Qed.

Lemma size_formatter_units_witness :
  exists fx,
    float_of_int 1500 = Ok fx /\
    Duim.size_formatter true 1500
    = Ok (if 10 ^ 9 <=? 1500
          then format_fixed 1 (SFdiv prec emax fx lit_1e9) ++ " G"
          else if 10 ^ 6 <=? 1500
          then format_fixed 1 (SFdiv prec emax fx lit_1e6) ++ " M"
          else format_fixed 1 (SFdiv prec emax fx lit_1e3) ++ " K").
Proof.
  exact (proj1 (size_formatter_units 1500 (conj eq_refl eq_refl))).
Defined.

End Sizes.

(** ** The readers of [/proc] *)

Section Proc.

Lemma split_runs_word (w r : string) :
  no_space w = true ->
  split_runs (w ++ r) = (w ++ fst (split_runs r), snd (split_runs r)).
Proof.
  intros Hw. induction w as [| c w IH]; simpl.
  - now destruct (split_runs r).
  - simpl in Hw. apply andb_true_iff in Hw. destruct Hw as [Hc Hw].
    apply negb_true_iff in Hc. rewrite (IH Hw), Hc. reflexivity.
Qed.

Lemma split_runs_space (r : string) :
  starts_space_or_empty r -> split_runs r = ("", split r).
Proof.
  intros [-> | (c & r' & -> & Hc)]; [reflexivity |].
  unfold split. simpl. destruct (split_runs r') as [w ws]. now rewrite Hc.
Qed.

Lemma split_word_app (w r : string) :
  w <> "" -> no_space w = true -> starts_space_or_empty r ->
  split (w ++ r) = w :: split r.
Proof.
  intros Hne Hw Hr. unfold split at 1.
  rewrite (split_runs_word w r Hw), (split_runs_space r Hr). cbn [fst snd].
  rewrite append_nil_r. destruct w; [congruence | reflexivity].
Qed.

Lemma split_space_app (gap s : string) :
  all_space gap = true -> split (gap ++ s) = split s.
Proof.
  induction gap as [| c gap IH]; simpl; [reflexivity |].
  intros H. apply andb_true_iff in H. destruct H as [Hc Hg].
  rewrite <- (IH Hg). unfold split. simpl.
  destruct (split_runs (gap ++ s)) as [w ws]. now rewrite Hc.
Qed.

(** The second field of a line [KEY<whitespace><digits>...] is the number
    that the digits write. *)
Lemma int_field_shape (key gap ds tail : string) :
  key <> "" -> no_space key = true -> gap <> "" -> all_space gap = true ->
  ds <> "" -> all_digits ds = true -> starts_space_or_empty tail ->
  int_field (key ++ gap ++ ds ++ tail) 1 = Ok (decimal 0 ds).
Proof.
  intros Hk Hkn Hg Hgs Hd Hds Ht. unfold int_field.
  rewrite split_word_app; auto.
  - rewrite split_space_app by assumption.
    rewrite split_word_app; auto using all_digits_no_space.
    cbn [item nth_error bind]. now apply int_of_str_digits.
  - right. destruct gap as [| g gap]; [congruence |].
    simpl in Hgs. apply andb_true_iff in Hgs. destruct Hgs as [Hc _].
    exists g, (gap ++ ds ++ tail). auto.
Qed.

Lemma last_cons {A : Type} (l : list A) (v d : A) : last (v :: l) d = last l v.
Proof.
  revert v d. induction l as [| x l IH]; intros v d; [reflexivity |].
  change (last (v :: x :: l) d) with (last (x :: l) d). rewrite !IH. reflexivity.
Qed.

Lemma sum_from (l : list Z) (a : Z) : fold_left Z.add l a = a + sum l.
Proof.
  unfold sum. revert a. induction l as [| x l IH]; intros a; simpl; [lia |].
  rewrite (IH (a + x)), (IH x). lia.
Qed.

Lemma sum_cons (x : Z) (l : list Z) : sum (x :: l) = x + sum l.
Proof. unfold sum at 1. simpl. apply sum_from. Qed.

Lemma memfree_not_memavailable (l : string) :
  startswith l "MemAvailable" = true -> startswith l "MemFree" = false.
Proof.
  unfold startswith.
  destruct l as [| c1 [| c2 [| c3 [| c4 l]]]]; cbn [prefix];
    repeat first
      [ solve [intros; discriminate]
      | solve [intros; reflexivity]
      | match goal with
        | |- context [ascii_dec ?a ?b] =>
            destruct (ascii_dec a b) as [E | E]; [try subst |]
        end ].
Qed.

(** The loop of [get_avail_mem] ends with the values of the last [MemFree]
    line and of the last [MemAvailable] line, when those lines can be read. *)
Lemma avail_scan_last (lines : list string) (f a : Z) (frees avails : list Z) :
  Forall2 (fun l v => int_field l 1 = Ok v)
    (filter (fun l => startswith l "MemAvailable") lines) avails ->
  Forall2 (fun l v => int_field l 1 = Ok v)
    (filter (fun l => startswith l "MemFree") lines) frees ->
  Assignment2.avail_scan lines f a = Ok (last frees f, last avails a).
Proof.
  revert f a frees avails.
  induction lines as [| line rest IH]; intros f a frees avails Ha Hf.
  - simpl in *. inversion Ha; inversion Hf; subst. reflexivity.
  - cbn [filter Assignment2.avail_scan] in *.
    destruct (startswith line "MemAvailable") eqn:EA.
    + rewrite (memfree_not_memavailable line EA) in Hf.
      inversion Ha as [| l v ls vs Hv Hrest]; subst.
      rewrite Hv. cbn [bind]. rewrite (IH f v frees vs Hrest Hf).
      now rewrite last_cons.
    + destruct (startswith line "MemFree") eqn:EF.
      * inversion Hf as [| l v ls vs Hv Hrest]; subst.
        rewrite Hv. cbn [bind]. rewrite (IH v a vs avails Ha Hrest).
        now rewrite last_cons.
      * apply IH; assumption.
Qed.

Lemma filter_none {A : Type} (p : A -> bool) (l : list A) :
  (forall x, In x l -> p x = false) -> filter p l = [].
Proof.
  induction l as [| x l IH]; intros H; [reflexivity |].
  simpl. rewrite (H x (or_introl eq_refl)). apply IH.
  intros y Hy. apply H. now right.
Qed.

(** C8.  When no line of the memory-info source begins with
    [MemAvailable] (and the [MemFree] lines can be read), [get_avail_mem]
    returns twice the value of [MemFree], the last line counting; a source
    with no [MemFree] line either gives 0.  The value of a line
    [KEY:<whitespace><digits>...] is the number that the digits write.  On
    [MemTotal: 1000 kB], [MemFree: 100 kB] the result is 200. *)
Theorem get_avail_mem_fallback (fs : filesystem) (lines : list string)
  (frees : list Z) :
  fs "/proc/meminfo" = Some lines ->
  (forall l, In l lines -> startswith l "MemAvailable" = false) ->
  Forall2 (fun l v => int_field l 1 = Ok v)
    (filter (fun l => startswith l "MemFree") lines) frees ->
  Assignment2.get_avail_mem fs = Ok (2 * last frees 0) /\
  (forall gap ds tail,
     gap <> "" -> all_space gap = true -> ds <> "" -> all_digits ds = true ->
     starts_space_or_empty tail ->
     int_field ("MemFree:" ++ gap ++ ds ++ tail) 1 = Ok (decimal 0 ds)) /\
  Assignment2.get_avail_mem
    (fun _ => Some ["MemTotal: 1000 kB" ++ nl; "MemFree: 100 kB" ++ nl])
  = Ok 200.
Proof.
  intros Hfs Hno Hf. split; [| split].
  - unfold Assignment2.get_avail_mem, open_lines. rewrite Hfs. cbn [bind].
    rewrite (avail_scan_last lines 0 0 frees []); auto.
    + cbn [bind last]. change (0 =? 0) with true. cbv iota. f_equal. lia.
    + rewrite filter_none by assumption. constructor.
  - intros gap ds tail. now apply int_field_shape.
  - vm_compute. reflexivity.
Qed.

Lemma get_avail_mem_fallback_witness :
  Assignment2.get_avail_mem
    (fun _ => Some ["MemTotal: 1000 kB" ++ nl; "MemFree: 100 kB" ++ nl])
  = Ok (2 * last [100] 0).
Proof.
  refine (proj1 (get_avail_mem_fallback
                   (fun _ => Some ["MemTotal: 1000 kB" ++ nl; "MemFree: 100 kB" ++ nl])
                   ["MemTotal: 1000 kB" ++ nl; "MemFree: 100 kB" ++ nl]
                   [100] eq_refl _ _)).
  - intros l [<- | [<- | []]]; reflexivity.
  - repeat constructor.
Defined.

(** C10.  When the memory-info source has a [MemAvailable] line and the
    value read from it (from the last one, if several) is 0,
    [get_avail_mem] returns twice the value of [MemFree], as when the line
    is absent. *)
Theorem get_avail_mem_zero_available (fs : filesystem) (lines : list string)
  (frees avails : list Z) :
  fs "/proc/meminfo" = Some lines ->
  Forall2 (fun l v => int_field l 1 = Ok v)
    (filter (fun l => startswith l "MemAvailable") lines) avails ->
  Forall2 (fun l v => int_field l 1 = Ok v)
    (filter (fun l => startswith l "MemFree") lines) frees ->
  avails <> [] -> last avails 0 = 0 ->
  Assignment2.get_avail_mem fs = Ok (2 * last frees 0).
Proof.
  intros Hfs Ha Hf _ H0.
  unfold Assignment2.get_avail_mem, open_lines. rewrite Hfs. cbn [bind].
  rewrite (avail_scan_last lines 0 0 frees avails Ha Hf). cbn [bind].
  rewrite H0. change (0 =? 0) with true. cbv iota. f_equal. lia.
Qed.

Lemma get_avail_mem_zero_available_witness :
  Assignment2.get_avail_mem
    (fun _ => Some ["MemTotal: 1000 kB" ++ nl; "MemFree: 100 kB" ++ nl;
                    "MemAvailable:   0 kB" ++ nl])
  = Ok (2 * last [100] 0).
Proof.
  refine (get_avail_mem_zero_available
            (fun _ => Some ["MemTotal: 1000 kB" ++ nl; "MemFree: 100 kB" ++ nl;
                            "MemAvailable:   0 kB" ++ nl])
            ["MemTotal: 1000 kB" ++ nl; "MemFree: 100 kB" ++ nl;
             "MemAvailable:   0 kB" ++ nl]
            [100] [0] eq_refl _ _ _ eq_refl).
  - repeat constructor.
  - repeat constructor.
  - discriminate.
Defined.

(** The loops over the memory map add up the values of the [Rss:] lines. *)
Lemma duim_rss_scan_sum (lines : list string) (acc : Z) (vals : list Z) :
  Forall2 (fun l v => int_field l 1 = Ok v)
    (filter (fun l => startswith l "Rss:") lines) vals ->
  Duim.rss_scan lines acc = Ok (acc + sum vals).
Proof.
  revert acc vals. induction lines as [| line rest IH]; intros acc vals H.
  - simpl in H. inversion H; subst. simpl. f_equal. unfold sum. simpl. lia.
  - cbn [filter Duim.rss_scan] in *.
    destruct (startswith line "Rss:").
    + inversion H as [| l v ls vs Hv Hrest]; subst.
      rewrite Hv. cbn [bind]. rewrite (IH _ _ Hrest), sum_cons. f_equal. lia.
    + now apply IH.
Qed.

Lemma assignment2_rss_scan_sum (lines : list string) (acc : Z) (vals : list Z) :
  Forall2 (fun l v => int_field l 1 = Ok v)
    (filter (fun l => startswith l "Rss:") lines) vals ->
  Assignment2.rss_scan lines acc = Ok (acc + sum vals).
Proof.
  revert acc vals. induction lines as [| line rest IH]; intros acc vals H.
  - simpl in H. inversion H; subst. simpl. f_equal. unfold sum. simpl. lia.
  - cbn [filter Assignment2.rss_scan] in *.
    destruct (startswith line "Rss:").
    + inversion H as [| l v ls vs Hv Hrest]; subst.
      rewrite Hv. cbn [bind]. rewrite (IH _ _ Hrest), sum_cons. f_equal. lia.
    + now apply IH.
Qed.

(** C9.  Both readers of the per-process memory map return the sum of the
    values of all the lines beginning with [Rss:] (when those lines can be
    read), and 0 when the map does not exist.  The value of a line
    [Rss:<whitespace><digits>...] is the number that the digits write.
    Three [Rss:] lines of 100, 200 and 50 give 350. *)
Theorem rss_total_is_sum (fs : filesystem) (pid : Z) (pid_name : string)
  (lines : list string) (vals : list Z) :
  Forall2 (fun l v => int_field l 1 = Ok v)
    (filter (fun l => startswith l "Rss:") lines) vals ->
  (fs ("/proc/" ++ str_of_int pid ++ "/smaps") = Some lines ->
   Assignment2.rss_mem_of_pid fs pid = Ok (sum vals)) /\
  (fs ("/proc/" ++ str_of_int pid ++ "/smaps") = None ->
   Assignment2.rss_mem_of_pid fs pid = Ok 0) /\
  (fs ("/proc/" ++ pid_name ++ "/smaps") = Some lines ->
   Duim.get_rss_total fs pid_name = Ok (sum vals)) /\
  (fs ("/proc/" ++ pid_name ++ "/smaps") = None ->
   Duim.get_rss_total fs pid_name = Ok 0) /\
  (forall gap ds tail,
     gap <> "" -> all_space gap = true -> ds <> "" -> all_digits ds = true ->
     starts_space_or_empty tail ->
     int_field ("Rss:" ++ gap ++ ds ++ tail) 1 = Ok (decimal 0 ds)) /\
  Assignment2.rss_mem_of_pid
    (fun _ => Some ["Rss:      100 kB" ++ nl; "Pss:       90 kB" ++ nl;
                    "Rss:      200 kB" ++ nl; "Rss:       50 kB" ++ nl]) 42
  = Ok 350 /\
  Duim.get_rss_total
    (fun _ => Some ["Rss:      100 kB" ++ nl; "Pss:       90 kB" ++ nl;
                    "Rss:      200 kB" ++ nl; "Rss:       50 kB" ++ nl]) "42"
  = Ok 350.
Proof.
  intros H. repeat apply conj.
  - intros Hfs. unfold Assignment2.rss_mem_of_pid, open_lines. rewrite Hfs.
    cbn [bind]. rewrite (assignment2_rss_scan_sum lines 0 vals H). reflexivity.
  - intros Hfs. unfold Assignment2.rss_mem_of_pid, open_lines. rewrite Hfs.
    reflexivity.
  - intros Hfs. unfold Duim.get_rss_total, open_lines. rewrite Hfs.
    cbn [bind]. rewrite (duim_rss_scan_sum lines 0 vals H). reflexivity.
  - intros Hfs. unfold Duim.get_rss_total, open_lines. rewrite Hfs.
    reflexivity.
  - intros gap ds tail. now apply int_field_shape.
  - vm_compute. reflexivity.
  - vm_compute. reflexivity.
Qed.

Lemma rss_total_is_sum_witness :
  Assignment2.rss_mem_of_pid
    (fun path => if String.eqb path "/proc/42/smaps"
                 then Some ["Rss: 100 kB" ++ nl; "Rss: 200 kB" ++ nl;
                            "Rss: 50 kB" ++ nl]
                 else None) 42
  = Ok (sum [100; 200; 50]) /\
  Duim.get_rss_total
    (fun path => if String.eqb path "/proc/42/smaps"
                 then Some ["Rss: 100 kB" ++ nl; "Rss: 200 kB" ++ nl;
                            "Rss: 50 kB" ++ nl]
                 else None) "42"
  = Ok (sum [100; 200; 50]) /\
  Assignment2.rss_mem_of_pid
    (fun path => if String.eqb path "/proc/42/smaps"
                 then Some ["Rss: 100 kB" ++ nl; "Rss: 200 kB" ++ nl;
                            "Rss: 50 kB" ++ nl]
                 else None) 7
  = Ok 0 /\
  Duim.get_rss_total
    (fun path => if String.eqb path "/proc/42/smaps"
                 then Some ["Rss: 100 kB" ++ nl; "Rss: 200 kB" ++ nl;
                            "Rss: 50 kB" ++ nl]
                 else None) "7"
  = Ok 0.
Proof.
  pose (fs := fun path : string =>
                if String.eqb path "/proc/42/smaps"
                then Some ["Rss: 100 kB" ++ nl; "Rss: 200 kB" ++ nl;
                           "Rss: 50 kB" ++ nl]
                else None).
  assert (H : Forall2 (fun l v => int_field l 1 = Ok v)
                (filter (fun l => startswith l "Rss:")
                   ["Rss: 100 kB" ++ nl; "Rss: 200 kB" ++ nl; "Rss: 50 kB" ++ nl])
                [100; 200; 50]) by (repeat constructor).
  destruct (rss_total_is_sum fs 42 "42" _ _ H) as (H1 & _ & H3 & _).
  destruct (rss_total_is_sum fs 7 "7" _ _ H) as (_ & H2 & _ & H4 & _).
  repeat apply conj; [apply H1 | apply H3 | apply H2 | apply H4]; reflexivity.
Defined.

End Proc.

(** ** The disk report *)

Section Report.

Lemma in_keys_dict_set {V : Type} (d : dict V) (k k' : string) (v : V) :
  In k' (map fst (dict_set d k v)) -> k' = k \/ In k' (map fst d).
Proof.
  induction d as [| [k0 v0] d IH]; simpl.
  - intros [H | []]; auto.
  - destruct (String.eqb k0 k) eqn:E; simpl.
    + apply String.eqb_eq in E. subst k0. intros [H | H]; auto.
    + intros [H | H]; auto. destruct (IH H); auto.
Qed.

Lemma nodup_dict_set {V : Type} (d : dict V) (k : string) (v : V) :
  NoDup (map fst d) -> NoDup (map fst (dict_set d k v)).
Proof.
  induction d as [| [k0 v0] d IH]; simpl; intros H.
  - constructor; [intros [] | constructor].
  - inversion H as [| x l Hnin Hnd]; subst.
    destruct (String.eqb k0 k) eqn:E; simpl.
    + apply String.eqb_eq in E. subst k0. now constructor.
    + constructor; [| auto]. intros Hin.
      destruct (in_keys_dict_set _ _ _ _ Hin) as [-> | Hin']; [| auto].
      rewrite string_eqb_refl in E. discriminate.
Qed.

Lemma create_dir_loop_nodup (lines : list string) (d d' : dict Z) :
  NoDup (map fst d) -> Duim.create_dir_loop d lines = Ok d' ->
  NoDup (map fst d').
Proof.
  revert d. induction lines as [| line rest IH]; intros d Hd Hl.
  - inversion Hl; subst. exact Hd.
  - cbn [Duim.create_dir_loop] in Hl.
    destruct (Duim.parse_du_line line) as [[p n] | e] eqn:E.
    + cbn [bind try_except fst snd] in Hl.
      apply (IH _ (nodup_dict_set d p n Hd) Hl).
    + apply parse_du_line_raises in E. subst e.
      cbn [bind try_except exn_eqb] in Hl. apply (IH _ Hd Hl).
Qed.

Lemma children_total_absent (target : string) (d : dict Z) :
  ~ In target (map fst d) ->
  children_total target d = sum (values d) /\ dict_get d target = None.
Proof.
  unfold children_total, values.
  induction d as [| [k v] d IH]; simpl; intros H; [auto |].
  destruct (String.eqb k target) eqn:E.
  - apply String.eqb_eq in E. tauto.
  - destruct IH as [IH1 IH2]; [tauto |]. simpl. split; [| exact IH2].
    rewrite !sum_cons, IH1. reflexivity.
Qed.

(** The sum over a dictionary is the sum over the children plus the entry
    of the target itself. *)
Lemma sum_values_split (target : string) (d : dict Z) :
  NoDup (map fst d) ->
  sum (values d) = children_total target d + own_size target d.
Proof.
  unfold own_size.
  induction d as [| [k v] d IH]; intros H; [reflexivity |].
  inversion H as [| x l Hnin Hnd]; subst.
  unfold children_total, values in *. simpl.
  destruct (String.eqb k target) eqn:E; simpl.
  - apply String.eqb_eq in E. subst k.
    destruct (children_total_absent target d Hnin) as [H1 _].
    unfold children_total, values in H1. rewrite sum_cons, H1. lia.
  - rewrite !sum_cons, (IH Hnd). lia.
Qed.

Lemma bind_ok {A B : Type} (r : result A) (k : A -> result B) (b : B) :
  bind r k = Ok b -> exists a, r = Ok a /\ k a = Ok b.
Proof. destruct r as [a | e]; simpl; [eauto | discriminate]. Qed.

(** What a printed entry line is made of. *)
Lemma entry_line_ok (a : Duim.args) (total : Z) (directory : string)
  (size : Z) (line : string) :
  Duim.entry_line a total directory size = Ok line ->
  exists percent bar shown h,
    Duim.entry_percent size total = Ok percent /\
    Duim.percent_to_graph percent (Duim.length a) = Ok bar /\
    format_f 0 percent = Ok shown /\
    Duim.size_formatter (Duim.human_readable a) size = Ok h /\
    line = rjust 3 shown ++ " % [" ++ bar ++ "] " ++ h ++ " " ++ directory.
Proof.
  unfold Duim.entry_line. intros H.
  apply bind_ok in H. destruct H as (percent & Hp & H).
  apply bind_ok in H. destruct H as (bar & Hb & H).
  apply bind_ok in H. destruct H as (shown & Hs & H).
  apply bind_ok in H. destruct H as (h & Hh & H).
  inversion H. exists percent, bar, shown, h. auto.
Qed.

(** The loop of [main] prints one line per entry, in order, up to the first
    entry whose line cannot be made. *)
Lemma report_loop_lines (a : Duim.args) (total : Z) (items : dict Z)
  (out : list string) :
  exists lines e,
    Duim.report_loop a total items out = ((out ++ lines)%list, e) /\
    Forall2 (fun kv line => Duim.entry_line a total (fst kv) (snd kv) = Ok line)
      (firstn (Datatypes.length lines) items) lines /\
    (e = None -> Datatypes.length lines = Datatypes.length items) /\
    (forall x, e = Some x ->
       exists kv, nth_error items (Datatypes.length lines) = Some kv /\
                  Duim.entry_line a total (fst kv) (snd kv) = Raise x).
Proof.
  revert out. induction items as [| [directory size] rest IH]; intros out.
  - exists [], None. simpl. rewrite app_nil_r.
    repeat split; [constructor | discriminate].
  - cbn [Duim.report_loop].
    destruct (Duim.entry_line a total directory size) as [line | x] eqn:E.
    + destruct (IH (out ++ [line])%list) as (lines & e & Hr & Hf & Hn & Hx).
      exists (line :: lines), e. rewrite Hr, <- app_assoc. simpl.
      repeat split; auto.
    + exists [], (Some x). simpl. rewrite app_nil_r.
      repeat split; [constructor | discriminate |].
      intros y Hy. inversion Hy; subst. exists (directory, size). auto.
Qed.

(** C5 (as stated, refuted).  [du -d 1 .] ends with its own total for the
    target: with children of 100 and 200 and a total line of 350 for [.],
    the sum of the children is 300 but [main] displays 650, the total line
    having been added as one more entry. *)
Lemma main_total_includes_du_total :
  Duim.create_dir_dict
    ["100" ++ tab ++ "./a"; "200" ++ tab ++ "./b"; "350" ++ tab ++ "."]
  = Ok [("./a", 100); ("./b", 200); (".", 350)] /\
  children_total "." [("./a", 100); ("./b", 200); (".", 350)] = 300 /\
  sum (values [("./a", 100); ("./b", 200); (".", 350)]) = 650 /\
  fst (Duim.main
         {| Duim.target := "."; Duim.human_readable := false; Duim.length := 20 |}
         ["100" ++ tab ++ "./a"; "200" ++ tab ++ "./b"; "350" ++ tab ++ "."])
  = ["Total: 650 B   ."; " 15 % [===                 ] 100 B ./a";
     " 31 % [======              ] 200 B ./b";
     " 54 % [===========         ] 350 B ."].
Proof. repeat split; vm_compute; reflexivity. Qed.

(** C5 (amended).  The displayed grand total is the sum of the sizes of all
    the entries read from the output of [du], one per path: the sum over
    the children plus the size recorded for the target itself, when the
    output has a line for it.  The same sum is the denominator of the
    percentage of every entry printed. *)
Theorem main_total_is_sum_of_entries (a : Duim.args) (du_output : list string) :
  exists d,
    Duim.create_dir_dict du_output = Ok d /\
    sum (values d)
    = children_total (Duim.target a) d + own_size (Duim.target a) d /\
    forall h,
      Duim.size_formatter (Duim.human_readable a) (sum (values d)) = Ok h ->
      exists lines e,
        Duim.main a du_output
        = (("Total: " ++ h ++ "   " ++ Duim.target a) :: lines, e) /\
        Forall2
          (fun kv line =>
             exists percent bar shown hs,
               Duim.entry_percent (snd kv) (sum (values d)) = Ok percent /\
               Duim.percent_to_graph percent (Duim.length a) = Ok bar /\
               format_f 0 percent = Ok shown /\
               Duim.size_formatter (Duim.human_readable a) (snd kv) = Ok hs /\
               line = rjust 3 shown ++ " % [" ++ bar ++ "] " ++ hs ++ " "
                        ++ fst kv)
          (firstn (Datatypes.length lines) d) lines.
Proof.
  destruct (create_dir_loop_total du_output []) as [d Hd].
  exists d. split; [exact Hd |]. split.
  - apply sum_values_split.
    apply (create_dir_loop_nodup du_output [] d); [constructor | exact Hd].
  - intros h Hh. unfold Duim.main. unfold Duim.create_dir_dict in *.
    rewrite Hd, Hh.
    destruct (report_loop_lines a (sum (values d)) d
                ["Total: " ++ h ++ "   " ++ Duim.target a])
      as (lines & e & Hr & Hf & _).
    exists lines, e. split; [exact Hr |].
    eapply Forall2_impl; [| exact Hf].
    intros [directory size] line Hl. apply entry_line_ok in Hl. exact Hl.
Qed.

Lemma main_total_is_sum_of_entries_witness :
  exists lines e,
    Duim.main
      {| Duim.target := "."; Duim.human_readable := false; Duim.length := 20 |}
      ["100" ++ tab ++ "./a"; "200" ++ tab ++ "./b"; "350" ++ tab ++ "."]
    = ("Total: 650 B   ." :: lines, e).
Proof.
  destruct (main_total_is_sum_of_entries
              {| Duim.target := "."; Duim.human_readable := false;
                 Duim.length := 20 |}
              ["100" ++ tab ++ "./a"; "200" ++ tab ++ "./b"; "350" ++ tab ++ "."])
    as (d & Hd & _ & H).
  vm_compute in Hd. inversion Hd; subst d; clear Hd.
  destruct (H "650 B" eq_refl) as (lines & e & Hm & _).
  exists lines, e. exact Hm.
Defined.

Lemma bind_no_zde {A B : Type} (r : result A) (k : A -> result B) :
  r <> Raise ZeroDivisionError ->
  (forall a, r = Ok a -> k a <> Raise ZeroDivisionError) ->
  bind r k <> Raise ZeroDivisionError.
Proof. destruct r as [a | e]; simpl; [auto | congruence]. Qed.

Lemma float_of_int_no_zde (n : Z) : float_of_int n <> Raise ZeroDivisionError.
Proof. unfold float_of_int. destruct (binary_normalize _ _ _ _ _); discriminate. Qed.

Lemma to_float_no_zde (x : num) : to_float x <> Raise ZeroDivisionError.
Proof. destruct x; simpl; [apply float_of_int_no_zde | discriminate]. Qed.

Lemma int_truediv_no_zde (a b : Z) :
  b <> 0 -> int_truediv a b <> Raise ZeroDivisionError.
Proof.
  intros Hb. unfold int_truediv. apply Z.eqb_neq in Hb. rewrite Hb.
  destruct (a =? 0); [discriminate |].
  destruct (SFdiv _ _ _ _); discriminate.
Qed.

Lemma mul_no_zde (x y : num) : mul x y <> Raise ZeroDivisionError.
Proof.
  destruct x, y; cbn [mul]; try discriminate;
    repeat (apply bind_no_zde; [apply to_float_no_zde | intros ? _]);
    discriminate.
Qed.

Lemma round_no_zde (x : num) : round x <> Raise ZeroDivisionError.
Proof. destruct x as [n | [| | |]]; discriminate. Qed.

Lemma format_f_no_zde (nd : nat) (x : num) :
  format_f nd x <> Raise ZeroDivisionError.
Proof.
  unfold format_f. apply bind_no_zde; [apply to_float_no_zde | discriminate].
Qed.

Lemma truediv_lit_no_zde (x : Z) (m : positive) (e : Z) :
  truediv (PyInt x) (PyFloat (S754_finite false m e))
  <> Raise ZeroDivisionError.
Proof.
  cbn [truediv]. apply bind_no_zde; [apply to_float_no_zde | intros fa _].
  discriminate.
Qed.

Lemma size_formatter_no_zde (human : bool) (x : Z) :
  Duim.size_formatter human x <> Raise ZeroDivisionError.
Proof.
  unfold Duim.size_formatter. destruct human; [| discriminate].
  destruct (ge _ _); [| destruct (ge _ _)];
    (apply bind_no_zde; [apply truediv_lit_no_zde | intros q _];
     apply bind_no_zde; [apply format_f_no_zde | discriminate]).
Qed.

Lemma entry_percent_no_zde (size total : Z) :
  Duim.entry_percent size total <> Raise ZeroDivisionError.
Proof.
  unfold Duim.entry_percent. destruct (total >? 0) eqn:E; [| discriminate].
  apply bind_no_zde; [| intros; apply mul_no_zde].
  cbn [truediv]. apply bind_no_zde; [| discriminate].
  apply int_truediv_no_zde. apply Z.gtb_lt in E. lia.
Qed.

Lemma percent_to_graph_no_zde (percent : num) (width : Z) :
  Duim.percent_to_graph percent width <> Raise ZeroDivisionError.
Proof.
  unfold Duim.percent_to_graph. destruct (negb _); [discriminate |].
  apply bind_no_zde.
  - destruct percent as [n | f]; cbn [truediv].
    + apply bind_no_zde; [apply int_truediv_no_zde; lia | discriminate].
    + cbn [to_float bind].
      change (float_of_int 100) with (Ok (S754_finite false 7036874417766400 (-46))).
      discriminate.
  - intros ratio _. apply bind_no_zde; [apply mul_no_zde | intros scaled _].
    apply bind_no_zde; [apply round_no_zde | intros k _].
    rewrite !str_repeat_char. destruct (index_fits k); cbn [bind]; [| discriminate].
    destruct (index_fits (width - k)); cbn [bind]; discriminate.
Qed.

Lemma entry_line_no_zde (a : Duim.args) (total : Z) (directory : string)
  (size : Z) :
  Duim.entry_line a total directory size <> Raise ZeroDivisionError.
Proof.
  unfold Duim.entry_line.
  apply bind_no_zde; [apply entry_percent_no_zde | intros percent _].
  apply bind_no_zde; [apply percent_to_graph_no_zde | intros bar _].
  apply bind_no_zde; [apply format_f_no_zde | intros shown _].
  apply bind_no_zde; [apply size_formatter_no_zde | discriminate].
Qed.

(** The quotient of two integers [0 <= a <= b], [0 < b], lies in [[0, 1]]. *)
Lemma int_truediv_unit (a b : Z) :
  0 <= a <= b -> 0 < b ->
  exists r, int_truediv a b = Ok r /\ float_in_0 1 r.
Proof.
  intros Ha Hb. unfold int_truediv.
  replace (b =? 0) with false by (symmetry; apply Z.eqb_neq; lia).
  destruct (a =? 0) eqn:En.
  - eexists. split; [reflexivity | exact I].
  - apply Z.eqb_neq in En.
    replace (a <? 0) with false by (symmetry; apply Z.ltb_ge; lia).
    replace (b <? 0) with false by (symmetry; apply Z.ltb_ge; lia).
    pose proof (SFdiv_upper (Z.to_pos (Z.abs a)) 0 (Z.to_pos (Z.abs b)) 0) as H.
    rewrite !Z2Pos.id in H by lia. specialize (H ltac:(simpl; lia)).
    destruct (SFdiv prec emax _ _) as [s | s | | s m e];
      cbn [float_in_0] in H; try tauto; eexists; split;
      try reflexivity; assumption.
Qed.

(** From a cross-multiplied bound on integers to a relative error. *)
Lemma relative_error_Q (N D A B : positive) :
  2 ^ 52 * Z.abs (Zpos N * Zpos B - Zpos A * Zpos D) <= Zpos A * Zpos D ->
  (Qabs ((Zpos N # D) - (Zpos A # B)) <= (1 # 2 ^ 52) * (Zpos A # B))%Q.
Proof.
  intros H.
  unfold Qminus, Qplus, Qopp, Qabs, Qmult, Qle. cbn [Qnum Qden].
  rewrite !Pos2Z.inj_mul, Z.mul_1_l.
  replace (Zpos N * Zpos B + - Zpos A * Zpos D)
    with (Zpos N * Zpos B - Zpos A * Zpos D) by ring.
  change (Zpos (2 ^ 52)) with (2 ^ 52).
  set (E := Z.abs (Zpos N * Zpos B - Zpos A * Zpos D)) in *.
  replace (E * (2 ^ 52 * Zpos B)) with ((2 ^ 52 * E) * Zpos B) by ring.
  replace (Zpos A * (Zpos D * Zpos B)) with ((Zpos A * Zpos D) * Zpos B) by ring.
  apply Z.mul_le_mono_nonneg_r; lia.
Qed.

(** The percentage of an entry between 0 and the total, for a total below
    [2 ^ 53]: a float in [[0, 100]] within [2 ^ -50] of [100 * size / total],
    relatively. *)
Lemma entry_percent_accurate (size total : Z) :
  0 < size <= total -> total < 2 ^ 53 ->
  exists f,
    Duim.entry_percent size total = Ok (PyFloat f) /\ float_in_0 100 f /\
    (Qabs (float_value f - exact_percent size total)
     <= (1 # 2 ^ 50) * exact_percent size total)%Q.
Proof.
  intros Hs Ht.
  destruct size as [| pa | pa]; try lia. destruct total as [| pb | pb]; try lia.
  destruct (SFdiv_int_accurate pa pb ltac:(lia) Ht)
    as (m & k & Hq & Hmb & Hk & Hm1 & Herr).
  destruct (SFmul_100_accurate m k Hmb Hk Hm1)
    as (m' & k' & Hp & Hmb' & Hin & Herr').
  exists (S754_finite false m' (Zneg k')). split; [| split; [exact Hin |]].
  - unfold Duim.entry_percent. change (Zpos pb >? 0) with true. cbv iota.
    cbn [truediv]. unfold int_truediv.
    change (Zpos pb =? 0) with false. change (Zpos pa =? 0) with false.
    cbv iota. change (Zpos pa <? 0) with false. change (Zpos pb <? 0) with false.
    change (Z.to_pos (Z.abs (Zpos pa))) with pa.
    change (Z.to_pos (Z.abs (Zpos pb))) with pb.
    rewrite Hq. cbn [bind mul to_float].
    change (float_of_int 100)
      with (Ok (S754_finite false 7036874417766400 (-46))).
    cbn [bind]. rewrite Hp. reflexivity.
  - assert (Hx : (exact_percent (Zpos pa) (Zpos pb) == 100 * (Zpos pa # pb))%Q).
    { unfold exact_percent. now rewrite <- Qmake_Qdiv. }
    rewrite Hx. cbn [float_value cond_Zopp].
    assert (E1 : (Qabs ((Zpos m # 2 ^ k) - (Zpos pa # pb))
                  <= (1 # 2 ^ 52) * (Zpos pa # pb))%Q).
    { apply relative_error_Q. rewrite Pos2Z.inj_pow. exact Herr. }
    assert (E2 : (Qabs ((Zpos m' # 2 ^ k') - (Zpos (100 * m) # 2 ^ k))
                  <= (1 # 2 ^ 52) * (Zpos (100 * m) # 2 ^ k))%Q).
    { apply relative_error_Q. rewrite !Pos2Z.inj_pow, Pos2Z.inj_mul. exact Herr'. }
    assert (Hv : (Zpos (100 * m) # 2 ^ k == 100 * (Zpos m # 2 ^ k))%Q).
    { unfold Qeq, Qmult. cbn [Qnum Qden]. rewrite Pos2Z.inj_mul. lia. }
    rewrite Hv in E2.
    assert (Hpos : (0 < Zpos pa # pb)%Q) by reflexivity.
    revert E1 E2 Hpos.
    generalize (Zpos m' # 2 ^ k')%Q (Zpos m # 2 ^ k)%Q (Zpos pa # pb)%Q.
    intros vp vq x E1 E2 Hpos.
    apply Qabs_Qle_condition in E1. apply Qabs_Qle_condition in E2.
    apply Qabs_Qle_condition.
    change (1 # 2 ^ 52)%Q with (1 # 4503599627370496)%Q in *.
    change (1 # 2 ^ 50)%Q with (1 # 1125899906842624)%Q.
    split; lra.
Qed.

(** C4 (as stated, refuted).  With a positive total the percentage is not
    always [100 * size / total]: for 7 out of 25, whose exact percentage is
    28, the rounded quotient times 100, rounded again, is the float
    [28.000000000000004], above 28 by [2 ^ -48]. *)
Lemma entry_percent_not_exact :
  Duim.entry_percent 7 25
  = Ok (PyFloat (S754_finite false 7881299347898369 (-48))) /\
  (exact_percent 7 25 == 28)%Q /\
  ~ (float_value (S754_finite false 7881299347898369 (-48))
     == exact_percent 7 25)%Q /\
  (float_value (S754_finite false 7881299347898369 (-48)) - 28
   == 1 # 2 ^ 48)%Q.
Proof.
  split; [vm_compute; reflexivity |]. split; [reflexivity |].
  split; [| reflexivity].
  intros H. vm_compute in H. discriminate H.
Qed.

(** C4 (amended).  The percentage of an entry is 0 when the total is 0, and no
    division is attempted: computing it never raises [ZeroDivisionError],
    and neither does the whole report, whatever the output of [du].  When
    the total is positive the percentage is computed as
    [(size / total) * 100] in binary64: for a size between 0 and the total
    it is a float in [[0, 100]], and for totals below [2 ^ 53] it is within
    a relative error of [2 ^ -50] of [100 * size / total], to which it need
    not be equal. *)
Theorem percentage_guards_zero_total (size total : Z) (a : Duim.args)
  (du_output : list string) :
  (total = 0 -> Duim.entry_percent size total = Ok (PyInt 0)) /\
  Duim.entry_percent size total <> Raise ZeroDivisionError /\
  snd (Duim.main a du_output) <> Some ZeroDivisionError /\
  (0 < total ->
   Duim.entry_percent size total
   = (q <- truediv (PyInt size) (PyInt total) ;; mul q (PyInt 100))) /\
  (0 < total -> 0 <= size <= total ->
   exists f,
     Duim.entry_percent size total = Ok (PyFloat f) /\ float_in_0 100 f /\
     (0 < size -> total < 2 ^ 53 ->
      (Qabs (float_value f - exact_percent size total)
       <= (1 # 2 ^ 50) * exact_percent size total)%Q)).
Proof.
  split; [| split; [| split; [| split]]].
  - intros ->. reflexivity.
  - apply entry_percent_no_zde.
  - unfold Duim.main.
    destruct (create_dir_loop_total du_output []) as [d Hd].
    unfold Duim.create_dir_dict. rewrite Hd.
    destruct (Duim.size_formatter _ _) as [h | e] eqn:Eh.
    + destruct (report_loop_lines a (sum (values d)) d
                  ["Total: " ++ h ++ "   " ++ Duim.target a])
        as (lines & e & Hr & _ & _ & Hx).
      rewrite Hr. cbn [snd]. intros He.
      destruct (Hx _ He) as (kv & _ & Hraise).
      exact (entry_line_no_zde _ _ _ _ Hraise).
    + cbn [snd]. intros He. inversion He; subst e.
      exact (size_formatter_no_zde _ _ Eh).
  - intros Ht. unfold Duim.entry_percent.
    replace (total >? 0) with true by (symmetry; apply Z.gtb_lt; lia).
    reflexivity.
  - intros Ht Hs.
    assert (H : exists f, Duim.entry_percent size total = Ok (PyFloat f) /\
                          float_in_0 100 f).
    { unfold Duim.entry_percent.
      replace (total >? 0) with true by (symmetry; apply Z.gtb_lt; lia).
      destruct (int_truediv_unit size total Hs Ht) as (r & Hr & Hin).
      cbn [truediv]. rewrite Hr. cbn [bind].
      destruct (mul_ratio_nonneg r 100 Hin ltac:(split; [lia | reflexivity]))
        as (v & Hv & Hvin).
      exists v. auto. }
    destruct H as (f & Hf & Hin). exists f. repeat apply conj; auto.
    intros Hpos Hlt.
    destruct (entry_percent_accurate size total ltac:(lia) Hlt)
      as (f' & Hf' & _ & Hacc).
    rewrite Hf in Hf'. inversion Hf'; subst f'. exact Hacc.
Qed.

Lemma percentage_guards_zero_total_witness :
  Duim.entry_percent 0 0 = Ok (PyInt 0) /\
  (Duim.entry_percent 100 350
   = (q <- truediv (PyInt 100) (PyInt 350) ;; mul q (PyInt 100))) /\
  exists f,
    Duim.entry_percent 100 350 = Ok (PyFloat f) /\ float_in_0 100 f /\
    (Qabs (float_value f - exact_percent 100 350)
     <= (1 # 2 ^ 50) * exact_percent 100 350)%Q.
Proof.
  pose (a := {| Duim.target := "."; Duim.human_readable := false;
                Duim.length := 20 |}).
  destruct (percentage_guards_zero_total 0 0 a []) as (H0 & _).
  destruct (percentage_guards_zero_total 100 350 a [])
    as (_ & _ & _ & H1 & H2).
  split; [exact (H0 eq_refl) |].
  split; [exact (H1 eq_refl) |].
  assert (Hs : 0 <= 100 <= 350) by (split; discriminate).
  destruct (H2 eq_refl Hs) as (f & Hf & Hin & Hacc).
  exists f. repeat apply conj; auto.
  apply Hacc; reflexivity.
Defined.

End Report.

(** ** The output of [du] *)

Section DuOutput.

Lemma split_on_nonempty (sep : ascii) (s : string) : split_on sep s <> [].
Proof.
  induction s as [| c s IH]; simpl; [discriminate |].
  destruct (Ascii.eqb c sep); [discriminate |].
  destruct (split_on sep s); discriminate.
Qed.

Lemma join_cons (sep x : string) (l : list string) :
  l <> [] -> join sep (x :: l) = x ++ sep ++ join sep l.
Proof. destruct l; [congruence | reflexivity]. Qed.

(** Joining the pieces with the separator gives the string back. *)
Lemma join_split_on (sep : ascii) (s : string) :
  join (String sep "") (split_on sep s) = s.
Proof.
  induction s as [| c s IH]; [reflexivity |]. cbn [split_on].
  destruct (Ascii.eqb c sep) eqn:E.
  - apply Ascii.eqb_eq in E. subst c.
    rewrite join_cons by apply split_on_nonempty. rewrite IH. reflexivity.
  - destruct (split_on sep s) as [| p ps] eqn:Es;
      [now apply split_on_nonempty in Es |].
    destruct ps as [| q qs]; cbn [join] in *.
    + now rewrite IH.
    + rewrite <- IH. reflexivity.
Qed.

Lemma split_on_lacks (sep : ascii) (s : string) :
  Forall (fun p => lacks sep p = true) (split_on sep s).
Proof.
  induction s as [| c s IH]; cbn [split_on].
  - repeat constructor.
  - destruct (Ascii.eqb c sep) eqn:E.
    + constructor; [reflexivity | exact IH].
    + destruct (split_on sep s) as [| p ps].
      * repeat constructor. simpl. now rewrite E.
      * inversion IH; subst. constructor; [| assumption].
        simpl. rewrite E. assumption.
Qed.

Lemma split_on_piece (sep : ascii) (x rest : string) :
  lacks sep x = true ->
  split_on sep (x ++ String sep rest) = x :: split_on sep rest.
Proof.
  intros H. induction x as [| c x IH]; cbn [append split_on].
  - now rewrite Ascii.eqb_refl.
  - simpl in H. apply andb_true_iff in H. destruct H as [Hc Hx].
    apply negb_true_iff in Hc. rewrite Hc, (IH Hx). reflexivity.
Qed.

Lemma split_on_whole (sep : ascii) (x : string) :
  lacks sep x = true -> split_on sep x = [x].
Proof.
  intros H. induction x as [| c x IH]; [reflexivity |]. cbn [split_on].
  simpl in H. apply andb_true_iff in H. destruct H as [Hc Hx].
  apply negb_true_iff in Hc. rewrite Hc, (IH Hx). reflexivity.
Qed.

(** Splitting what was joined gives the pieces back, when no piece holds
    the separator. *)
Lemma split_on_join (sep : ascii) (l : list string) :
  l <> [] -> Forall (fun p => lacks sep p = true) l ->
  split_on sep (join (String sep "") l) = l.
Proof.
  induction l as [| x l IH]; [congruence |]. intros _ H.
  inversion H as [| y ys Hx Hl]; subst.
  destruct l as [| z l].
  - now apply split_on_whole.
  - rewrite join_cons by discriminate.
    change (String sep "" ++ join (String sep "") (z :: l))
      with (String sep (join (String sep "") (z :: l))).
    rewrite (split_on_piece _ _ _ Hx), IH; [reflexivity | discriminate | exact Hl].
Qed.

Lemma lstrip_all_space (s : string) : all_space s = true -> lstrip s = "".
Proof.
  induction s as [| c s IH]; [reflexivity |]. simpl. intros H.
  apply andb_true_iff in H. destruct H as [Hc Hs]. rewrite Hc. auto.
Qed.

Lemma rstrip_app_space (s ws : string) :
  all_space ws = true -> rstrip (s ++ ws) = rstrip s.
Proof.
  intros H. induction s as [| c s IH].
  - induction ws as [| c ws IH]; [reflexivity |]. simpl in *.
    apply andb_true_iff in H. destruct H as [Hc Hs].
    rewrite (IH Hs), Hc. reflexivity.
  - simpl. now rewrite IH.
Qed.

Lemma rstrip_fixed_app (a b : string) :
  rstrip b = b -> b <> "" -> rstrip (a ++ b) = a ++ b.
Proof.
  intros Hb Hne. induction a as [| c a IH]; [exact Hb |].
  simpl. rewrite IH. destruct (a ++ b) eqn:E; [| reflexivity].
  destruct a; simpl in E; [congruence | discriminate].
Qed.

Lemma join_last (sep : string) (init : list string) (x : string) :
  exists pre, join sep (init ++ [x]) = pre ++ x.
Proof.
  induction init as [| y init [pre IH]].
  - exists "". reflexivity.
  - exists (y ++ sep ++ pre). cbn [app].
    rewrite join_cons by (destruct init; discriminate).
    rewrite IH, !append_assoc. reflexivity.
Qed.

Lemma du_text_join (init : list du_record) (r : du_record) :
  du_text (init ++ [r]) = join nl (map du_record_line (init ++ [r])) ++ nl.
Proof.
  induction init as [| y init IH]; cbn [app du_text map].
  - cbn [join]. now rewrite append_nil_r.
  - rewrite join_cons by (destruct init; discriminate).
    rewrite IH, !append_assoc. reflexivity.
Qed.

Lemma lacks_app (c : ascii) (a b : string) :
  lacks c (a ++ b) = lacks c a && lacks c b.
Proof.
  induction a as [| x a IH]; [reflexivity |]. simpl.
  now rewrite IH, andb_assoc.
Qed.

Lemma all_digits_lacks (c : ascii) (s : string) :
  digit_of c = None -> all_digits s = true -> lacks c s = true.
Proof.
  intros Hc. induction s as [| a s IH]; [reflexivity |]. simpl.
  destruct (digit_of a) as [d |] eqn:E; [| discriminate].
  intros H. rewrite (IH H), andb_true_r.
  apply negb_true_iff. apply Ascii.eqb_neq. intros ->. congruence.
Qed.

Lemma du_record_line_lacks (c : ascii) (r : du_record) :
  digit_of c = None -> lacks c tab = true -> lacks c (snd r) = true ->
  all_digits (fst r) = true -> lacks c (du_record_line r) = true.
Proof.
  intros Hc Ht Hp Hd. unfold du_record_line.
  rewrite !lacks_app, (all_digits_lacks c _ Hc Hd), Ht, Hp. reflexivity.
Qed.

Lemma du_record_line_shape (r : du_record) :
  du_record_ok r -> du_line (du_record_line r) (decimal 0 (fst r)) (snd r).
Proof.
  intros (Hne & Hd & _ & Hp & _). unfold du_record_line.
  apply du_line_digits; auto; discriminate.
Qed.

Lemma digits_start_nonspace (ds rest : string) :
  ds <> "" -> all_digits ds = true -> starts_nonspace (ds ++ rest).
Proof.
  destruct ds as [| c ds]; [congruence |]. intros _ H. simpl in H.
  destruct (digit_of c) as [d |] eqn:E; [| discriminate].
  exists c, (ds ++ rest). split; [reflexivity |].
  eapply digit_not_space; eauto.
Qed.

(** The loop of [create_dir_dict] on the lines of records. *)
Lemma create_dir_loop_records (records : list du_record) (d : dict Z) :
  Forall du_record_ok records ->
  Duim.create_dir_loop d (map du_record_line records)
  = Ok (fold_left (fun d r => dict_set d (snd r) (decimal 0 (fst r)))
          records d).
Proof.
  revert d. induction records as [| r rest IH]; intros d H; [reflexivity |].
  inversion H as [| x xs Hr Hrest]; subst. cbn [map fold_left].
  rewrite (create_dir_loop_shape d _ _ _ _ (du_record_line_shape r Hr)).
  now apply IH.
Qed.

(** Induction on strings two characters at a time, as
    [universal_newlines] reads them. *)
Lemma string_ind2 (P : string -> Prop) :
  P "" -> (forall c, P (String c "")) ->
  (forall c d s, P s -> P (String d s) -> P (String c (String d s))) ->
  forall s, P s.
Proof.
  intros H0 H1 H2 s.
  assert (H : P s /\ forall c, P (String c s)).
  { induction s as [| d s [IHs IHc]]; [auto |].
    split; [apply IHc |]. intros c. apply H2; auto. }
  apply H.
Qed.

(** Text without carriage returns is read as it is. *)
Lemma universal_newlines_id (s : string) :
  lacks "013" s = true -> universal_newlines s = s.
Proof.
  induction s as [| c s IH]; [reflexivity |]. simpl. intros H.
  apply andb_true_iff in H. destruct H as [Hc Hs].
  apply negb_true_iff in Hc. rewrite Hc, (IH Hs). reflexivity.
Qed.

(** The text read holds no carriage return. *)
Lemma universal_newlines_lacks_cr (s : string) :
  lacks "013" (universal_newlines s) = true.
Proof.
  induction s as [| c | c d s IHs IHd] using string_ind2.
  - reflexivity.
  - simpl. destruct (Ascii.eqb c "013") eqn:E; simpl; [reflexivity |].
    now rewrite E.
  - cbn [universal_newlines] in *.
    destruct (Ascii.eqb c "013") eqn:E.
    + destruct (Ascii.eqb d "010"); simpl; [exact IHs | exact IHd].
    + cbn [lacks]. rewrite E. exact IHd.
Qed.

Lemma universal_newlines_all_space (s : string) :
  all_space s = true -> all_space (universal_newlines s) = true.
Proof.
  induction s as [| c | c d s IHs IHd] using string_ind2.
  - reflexivity.
  - simpl. destruct (Ascii.eqb c "013"); simpl; auto.
  - intros H. cbn [all_space] in H.
    apply andb_true_iff in H. destruct H as [Hc H].
    pose proof H as Hds. cbn [all_space] in Hds.
    apply andb_true_iff in H. destruct H as [Hd Hs].
    cbn [universal_newlines] in *.
    destruct (Ascii.eqb c "013").
    + destruct (Ascii.eqb d "010"); cbn [all_space];
        [rewrite (IHs Hs) | rewrite IHd by (cbn [all_space]; now rewrite Hd, Hs)];
        reflexivity.
    + cbn [all_space]. rewrite Hc.
      rewrite IHd by (cbn [all_space]; now rewrite Hd, Hs). reflexivity.
Qed.

Lemma lacks_lstrip (c : ascii) (s : string) :
  lacks c s = true -> lacks c (lstrip s) = true.
Proof.
  induction s as [| a s IH]; [reflexivity |]. cbn [lstrip]. intros H.
  destruct (isspace a); [| exact H].
  simpl in H. apply andb_true_iff in H. now apply IH.
Qed.

Lemma lacks_rstrip (c : ascii) (s : string) :
  lacks c s = true -> lacks c (rstrip s) = true.
Proof.
  induction s as [| a s IH]; [reflexivity |]. cbn [rstrip lacks]. intros H.
  apply andb_true_iff in H. destruct H as [Ha Hs]. specialize (IH Hs).
  destruct (rstrip s) as [| b t].
  - destruct (isspace a); [reflexivity |]. simpl. now rewrite Ha.
  - cbn [lacks] in *. now rewrite Ha, IH.
Qed.

Lemma split_on_lacks_other (sep c : ascii) (s : string) :
  lacks c s = true -> Forall (fun p => lacks c p = true) (split_on sep s).
Proof.
  induction s as [| a s IH]; cbn [split_on lacks]; intros H.
  - repeat constructor.
  - apply andb_true_iff in H. destruct H as [Ha Hs]. specialize (IH Hs).
    destruct (Ascii.eqb a sep).
    + constructor; [reflexivity | exact IH].
    + destruct (split_on sep s) as [| p ps].
      * repeat constructor. simpl. now rewrite Ha.
      * inversion IH; subst. constructor; [| assumption].
        simpl. now rewrite Ha.
Qed.

Lemma du_text_lacks_cr (records : list du_record) :
  Forall du_record_ok records -> lacks "013" (du_text records) = true.
Proof.
  induction 1 as [| r rest (_ & Hd & _ & _ & _ & Hcr) _ IH]; [reflexivity |].
  cbn [du_text]. rewrite !lacks_app, IH.
  rewrite (du_record_line_lacks "013" r eq_refl eq_refl Hcr Hd). reflexivity.
Qed.

(** X1.  [call_du_sub] returns lines exactly when [du] ended with the
    return code 0: the lines are then the pieces between the newlines of
    the output, read with universal newlines and stripped; there is at
    least one, none holds a newline or a carriage return, and joined by
    newlines they give that text back.  In every other case it calls
    [print] once and exits with status 1; the text printed is [Error: ]
    followed, for a return code other than 0, by [Error calling du: ] and
    the stripped error output (which may span several lines), and by the
    message of the exception otherwise. *)
Theorem call_du_sub_lines (run : Duim.du_run) :
  match Duim.call_du_sub run with
  | Duim.Returns lines =>
      (exists stdout stderr,
         run = Duim.Ended 0 stdout stderr /\
         join nl lines = strip (universal_newlines stdout)) /\
      lines <> [] /\
      Forall (fun l => lacks "010" l = true /\ lacks "013" l = true) lines
  | Duim.Exits printed status =>
      status = 1 /\
      match run with
      | Duim.Ended returncode stdout stderr =>
          returncode <> 0 /\
          printed = ["Error: Error calling du: "
                       ++ strip (universal_newlines stderr)]
      | Duim.Failed message => printed = ["Error: " ++ message]
      end
  end.
Proof.
  destruct run as [rc out err | msg]; cbn [Duim.call_du_sub]; cbv zeta.
  - destruct (rc =? 0) eqn:E; cbn [negb].
    + apply Z.eqb_eq in E. subst rc. split; [| split].
      * exists out, err. split; [reflexivity | apply join_split_on].
      * apply split_on_nonempty.
      * apply Forall_forall. intros l Hl. split.
        -- pose proof (split_on_lacks "010" (strip (universal_newlines out)))
             as H. rewrite Forall_forall in H. now apply H.
        -- pose proof (split_on_lacks_other "010" "013"
                         (strip (universal_newlines out))) as H.
           rewrite Forall_forall in H. apply H; [| exact Hl].
           unfold strip. apply lacks_rstrip, lacks_lstrip.
           apply universal_newlines_lacks_cr.
    + apply Z.eqb_neq in E. repeat split; auto.
  - split; reflexivity.
Qed.

(** X2.  When [du] ends with the return code 0 and writes one line
    [<digits><TAB><path>] per record (at most 4300 digits; a path that is
    not empty, does not start with whitespace and holds no newline and no
    carriage return), the last path not ending with whitespace,
    [call_du_sub] returns exactly those lines and
    [create_dir_dict] makes of them the dictionary of the records: each
    path with the number its digits write, a later record of the same path
    replacing an earlier one. *)
Theorem call_du_sub_records (init : list du_record) (r : du_record)
  (stderr : string) :
  Forall du_record_ok (init ++ [r]) -> rstrip (snd r) = snd r ->
  Duim.call_du_sub (Duim.Ended 0 (du_text (init ++ [r])) stderr)
  = Duim.Returns (map du_record_line (init ++ [r])) /\
  Duim.create_dir_dict (map du_record_line (init ++ [r]))
  = Ok (dict_of_records (init ++ [r])).
Proof.
  intros Hok Hlast. split.
  - cbn [Duim.call_du_sub Z.eqb negb]. cbv zeta. f_equal.
    rewrite (universal_newlines_id _ (du_text_lacks_cr _ Hok)).
    assert (Hr : du_record_ok r).
    { apply Forall_app in Hok. destruct Hok as [_ H]. now inversion H. }
    assert (Hstrip : strip (du_text (init ++ [r]))
                     = join nl (map du_record_line (init ++ [r]))).
    { unfold strip. rewrite lstrip_nonspace.
      - rewrite du_text_join, rstrip_app_space by reflexivity.
        rewrite map_app. cbn [map].
        destruct (join_last nl (map du_record_line init) (du_record_line r))
          as [pre Hpre].
        rewrite Hpre. apply rstrip_fixed_app.
        + unfold du_record_line. rewrite <- append_assoc.
          destruct Hr as (_ & _ & _ & (c & p & Hp & _) & _).
          apply rstrip_fixed_app; [exact Hlast | rewrite Hp; discriminate].
        + unfold du_record_line. destruct Hr as (Hne & _).
          destruct (fst r); [congruence | discriminate].
      - destruct init as [| y init]; cbn [app du_text];
          inversion Hok as [| x xs Hx Hxs]; subst;
          destruct Hx as (Hne & Hd & _); unfold du_record_line;
          rewrite !append_assoc; now apply digits_start_nonspace. }
    rewrite Hstrip. apply split_on_join.
    + destruct init; discriminate.
    + apply Forall_map. eapply Forall_impl; [| exact Hok].
      intros x (_ & Hd & _ & _ & Hnl & _).
      now apply du_record_line_lacks.
  - unfold Duim.create_dir_dict, dict_of_records.
    now apply create_dir_loop_records.
Qed.

Lemma call_du_sub_records_witness :
  Duim.call_du_sub
    (Duim.Ended 0 (du_text ([("100", "./a b")] ++ [("350", ".")])) "")
  = Duim.Returns (map du_record_line ([("100", "./a b")] ++ [("350", ".")])) /\
  Duim.create_dir_dict (map du_record_line ([("100", "./a b")] ++ [("350", ".")]))
  = Ok (dict_of_records ([("100", "./a b")] ++ [("350", ".")])).
Proof.
  apply (call_du_sub_records [("100", "./a b")] ("350", ".") "").
  - constructor; [| constructor; [| constructor]].
    + split; [discriminate |]. split; [reflexivity |].
      split; [apply Nat.leb_le; reflexivity |].
      split; [exists "."%char, "/a b"; split; reflexivity |].
      split; reflexivity.
    + split; [discriminate |]. split; [reflexivity |].
      split; [apply Nat.leb_le; reflexivity |].
      split; [exists "."%char, ""; split; reflexivity |].
      split; reflexivity.
  - reflexivity.
Defined.

(** X3.  When [du] ends with the return code 0 and writes nothing, or
    whitespace only, [call_du_sub] returns the single empty line, no entry
    is read from it, and the report is the total line alone, with a total
    of 0 and no division attempted. *)
Theorem run_main_blank_output (a : Duim.args) (stdout stderr : string) :
  all_space stdout = true ->
  Duim.call_du_sub (Duim.Ended 0 stdout stderr) = Duim.Returns [""] /\
  Duim.run_main a (Duim.Ended 0 stdout stderr)
  = (["Total: " ++ (if Duim.human_readable a then "0.0 K" else "0 B")
        ++ "   " ++ Duim.target a], Duim.Finished).
Proof.
  intros H.
  assert (E : Duim.call_du_sub (Duim.Ended 0 stdout stderr) = Duim.Returns [""]).
  { cbn [Duim.call_du_sub Z.eqb negb]. cbv zeta. unfold strip.
    rewrite (lstrip_all_space _ (universal_newlines_all_space _ H)).
    reflexivity. }
  split; [exact E |]. unfold Duim.run_main. rewrite E.
  destruct a as [t [|] l]; reflexivity.
Qed.

Lemma run_main_blank_output_witness :
  Duim.run_main
    {| Duim.target := "/srv"; Duim.human_readable := true; Duim.length := 20 |}
    (Duim.Ended 0 nl "")
  = (["Total: 0.0 K   /srv"], Duim.Finished).
Proof.
  apply (run_main_blank_output
           {| Duim.target := "/srv"; Duim.human_readable := true;
              Duim.length := 20 |} nl "").
  reflexivity.
Defined.

End DuOutput.

(** ** The keys of the dictionary *)

Section Keys.

Lemma dict_get_in {V : Type} (d : dict V) (k : string) :
  In k (map fst d) <-> exists v, dict_get d k = Some v.
Proof.
  induction d as [| [k0 v0] d IH]; simpl.
  - split; [intros [] | intros [v H]; discriminate].
  - destruct (String.eqb k0 k) eqn:E.
    + apply String.eqb_eq in E. split; eauto.
    + rewrite <- IH. split; [intros [H | H] | auto]; auto.
      subst k0. rewrite string_eqb_refl in E. discriminate.
Qed.

Lemma in_dict_set {V : Type} (d : dict V) (k k' : string) (v : V) :
  In k' (map fst (dict_set d k v)) <-> k' = k \/ In k' (map fst d).
Proof.
  rewrite !dict_get_in. destruct (string_dec k k') as [-> | Hne].
  - rewrite dict_get_set_eq. split; eauto.
  - rewrite dict_get_set_ne by assumption.
    split; [auto | intros [H | H]; congruence].
Qed.

Lemma length_dict_set {V : Type} (d : dict V) (k : string) (v : V) :
  (Datatypes.length (dict_set d k v) <= S (Datatypes.length d))%nat.
Proof.
  induction d as [| [k0 v0] d IH]; simpl; [lia |].
  destruct (String.eqb k0 k); simpl; lia.
Qed.

Lemma create_dir_loop_keys (lines : list string) (d d' : dict Z) :
  Duim.create_dir_loop d lines = Ok d' ->
  (Datatypes.length d' <= Datatypes.length d + Datatypes.length lines)%nat /\
  forall path,
    In path (map fst d') <->
    In path (map fst d) \/
    exists line size, In line lines /\ du_line line size path.
Proof.
  revert d. induction lines as [| line rest IH]; intros d Hl.
  - inversion Hl; subst. split; [simpl; lia |].
    intros path. split; [auto | intros [H | (l & n & [] & _)]; exact H].
  - cbn [Duim.create_dir_loop] in Hl.
    destruct (Duim.parse_du_line line) as [[p n] | e] eqn:E.
    + cbn [bind try_except fst snd] in Hl.
      destruct (IH _ Hl) as [Hlen Hkeys]. split.
      * pose proof (length_dict_set d p n). simpl. lia.
      * intros path. rewrite Hkeys, in_dict_set. split.
        -- intros [[-> | H] | (l & m & Hin & Hs)]; auto.
           ++ right. exists line, n. split; [now left |].
              now apply parse_du_line_shape.
           ++ right. exists l, m. split; [now right | exact Hs].
        -- intros [H | (l & m & [<- | Hin] & Hs)]; auto.
           ++ apply parse_du_line_shape in Hs. rewrite E in Hs.
              inversion Hs. auto.
           ++ right. exists l, m. auto.
    + apply parse_du_line_raises in E as E'. subst e.
      cbn [bind try_except exn_eqb] in Hl.
      destruct (IH _ Hl) as [Hlen Hkeys]. split; [simpl; lia |].
      intros path. rewrite Hkeys. split.
      * intros [H | (l & m & Hin & Hs)]; auto.
        right. exists l, m. split; [now right | exact Hs].
      * intros [H | (l & m & [<- | Hin] & Hs)]; auto.
        -- apply parse_du_line_shape in Hs. rewrite E in Hs. discriminate Hs.
        -- right. exists l, m. auto.
Qed.

Lemma keys_dict_set {V : Type} (d : dict V) (k : string) (v : V) :
  map fst (dict_set d k v)
  = if existsb (String.eqb k) (map fst d) then map fst d
    else (map fst d ++ [k])%list.
Proof.
  induction d as [| [k0 v0] d IH]; [reflexivity |].
  cbn [dict_set map fst existsb]. rewrite (String.eqb_sym k k0).
  destruct (String.eqb k0 k) eqn:E; cbn [orb map fst].
  - apply String.eqb_eq in E. now subst k0.
  - rewrite IH. now destruct (existsb (String.eqb k) (map fst d)).
Qed.

Lemma first_occurrences_from_ext (s1 s2 l : list string) :
  (forall x, existsb (String.eqb x) s1 = existsb (String.eqb x) s2) ->
  first_occurrences_from s1 l = first_occurrences_from s2 l.
Proof.
  revert s1 s2. induction l as [| x l IH]; intros s1 s2 H; [reflexivity |].
  cbn [first_occurrences_from]. rewrite (H x).
  destruct (existsb (String.eqb x) s2); [now apply IH |].
  f_equal. apply IH. intros y. cbn [existsb]. now rewrite H.
Qed.

Lemma create_dir_loop_order (lines : list string) (d d' : dict Z) :
  Duim.create_dir_loop d lines = Ok d' ->
  map fst d'
  = (map fst d ++ first_occurrences_from (map fst d) (du_paths lines))%list.
Proof.
  revert d. induction lines as [| line rest IH]; intros d Hl.
  - inversion Hl; subst. cbn. now rewrite app_nil_r.
  - cbn [Duim.create_dir_loop] in Hl. cbn [du_paths flat_map].
    fold (du_paths rest).
    destruct (Duim.parse_du_line line) as [[p n] | e] eqn:E.
    + cbn [bind try_except fst snd] in Hl. rewrite (IH _ Hl).
      cbn [app first_occurrences_from]. rewrite keys_dict_set.
      destruct (existsb (String.eqb p) (map fst d)); [reflexivity |].
      rewrite <- app_assoc. cbn [app]. do 2 f_equal.
      apply first_occurrences_from_ext. intros x.
      rewrite existsb_app. cbn [existsb]. rewrite orb_false_r. apply orb_comm.
    + apply parse_du_line_raises in E as E'. subst e.
      cbn [bind try_except exn_eqb] in Hl. now apply IH.
Qed.

Lemma du_line_token (line path : string) (size : Z) :
  du_line line size path ->
  (String.length (size_token line) <= 4300)%nat ->
  du_line_short line size path.
Proof.
  intros H Hlen. apply parse_du_line_shape in H.
  unfold Duim.parse_du_line in H. unfold size_token in Hlen.
  destruct (split_max 1 line) as [| a [| b [| c l]]] eqn:E; try discriminate.
  destruct (int_of_str a) as [n |] eqn:Ea; [| discriminate].
  cbn [bind] in H. inversion H; subst b n; clear H.
  apply split_max_1_shape in E.
  destruct E as (lead & gap & H1 & H2 & H3 & H4 & H5 & H6 & H7).
  exists lead, a, gap. repeat split; auto.
Qed.

Lemma in_du_paths (lines : list string) (path : string) :
  In path (du_paths lines) <->
  exists line size, In line lines /\ du_line line size path.
Proof.
  unfold du_paths. rewrite in_flat_map. split.
  - intros (line & Hin & Hp).
    destruct (Duim.parse_du_line line) as [[p n] | e] eqn:E; [| destruct Hp].
    destruct Hp as [<- | []]. exists line, n. split; [exact Hin |].
    now apply parse_du_line_shape.
  - intros (line & size & Hin & Hs). exists line. split; [exact Hin |].
    apply parse_du_line_shape in Hs. rewrite Hs. now left.
Qed.

(** X4.  When the first item of every line has at most 4300 characters, so
    that [int] stays within its limit on digits, the keys of the dictionary
    of [create_dir_dict] are, in order, the paths of the lines that it
    reads, each at its first occurrence: the order in which [main] prints
    the entries.  The lines that it reads are those made of whitespace or
    nothing, a token without whitespace that [int] reads, whitespace, and
    the rest of the line as the path; and there are no more entries than
    lines. *)
Theorem create_dir_dict_keys (du_output : list string) :
  Forall (fun line => (String.length (size_token line) <= 4300)%nat) du_output ->
  exists d,
    Duim.create_dir_dict du_output = Ok d /\
    map fst d = first_occurrences (du_paths du_output) /\
    (Datatypes.length d <= Datatypes.length du_output)%nat /\
    forall path,
      In path (du_paths du_output) <->
      exists line size, In line du_output /\ du_line_short line size path.
Proof.
  intros Hshort.
  destruct (create_dir_loop_total du_output []) as [d Hd].
  exists d. split; [exact Hd |]. split; [| split].
  - apply (create_dir_loop_order du_output [] d Hd).
  - apply (create_dir_loop_keys du_output [] d Hd).
  - intros path. rewrite in_du_paths. rewrite Forall_forall in Hshort.
    split; intros (line & size & Hin & Hs); exists line, size;
      (split; [exact Hin |]).
    + apply du_line_token; auto.
    + now apply du_line_short_shape.
Qed.

Lemma create_dir_dict_keys_witness :
  exists d,
    Duim.create_dir_dict ["200 /b"; "garbage-line"; "  +1_0 /a"; "5 /b"] = Ok d /\
    map fst d = ["/b"; "/a"].
Proof.
  destruct (create_dir_dict_keys ["200 /b"; "garbage-line"; "  +1_0 /a"; "5 /b"])
    as (d & Hd & Hkeys & _).
  - repeat (apply Forall_cons; [apply Nat.leb_le; reflexivity |]).
    apply Forall_nil.
  - exists d. split; [exact Hd | exact Hkeys].
Defined.

End Keys.

(** ** Runs of the disk report *)

Section ReportRuns.

(** A float in [[0, N]] passes the comparisons with 0 and with [N]. *)
Lemma float_in_0_le (N : Z) (f : spec_float) :
  0 <= N -> float_in_0 N f ->
  le (PyInt 0) (PyFloat f) = true /\ le (PyFloat f) (PyInt N) = true.
Proof.
  intros HN. destruct f as [s | s | | [] m e]; cbn [float_in_0]; try tauto.
  - intros _. cbn [le float_cmp_int]. split; [reflexivity |].
    destruct (Z.compare_spec 0 N); [reflexivity | reflexivity | lia].
  - intros [He Hm]. cbn [le float_cmp_int cond_Zopp].
    destruct e as [| e | e]; try lia; cbv beta iota.
    + change (2 ^ 0) with 1. change (2 ^ (- 0)) with 1 in Hm. split.
      * destruct (Z.compare_spec (Zpos m * 1) 0); [lia | lia | reflexivity].
      * destruct (Z.compare_spec (Zpos m * 1) N); [reflexivity | reflexivity | lia].
    + change (- Zneg e) with (Zpos e) in Hm. split.
      * destruct (Z.compare_spec (Zpos m) (0 * 2 ^ Zpos e));
          [lia | lia | reflexivity].
      * destruct (Z.compare_spec (Zpos m) (N * 2 ^ Zpos e));
          [reflexivity | reflexivity | lia].
Qed.

Lemma length_iter_pad (c : ascii) (n : nat) (s : string) :
  String.length (Nat.iter n (String c) s) = (n + String.length s)%nat.
Proof. induction n as [| n IH]; [reflexivity |]. simpl. now rewrite IH. Qed.

Lemma length_rjust (w : nat) (s : string) :
  String.length (rjust w s) = Nat.max w (String.length s).
Proof. unfold rjust. rewrite length_iter_pad. lia. Qed.

Lemma str_of_int_short (t : Z) :
  0 <= t <= 100 -> (String.length (str_of_int t) <= 3)%nat.
Proof.
  intros Ht.
  assert (H : forallb (fun n => (String.length (str_of_int (Z.of_nat n)) <=? 3)%nat)
                (seq 0 101) = true) by (vm_compute; reflexivity).
  rewrite forallb_forall in H.
  specialize (H (Z.to_nat t)). rewrite Z2Nat.id in H by lia.
  apply Nat.leb_le. apply H. apply in_seq. lia.
Qed.

(** A percentage in [[0, 100]] is shown with at most three characters. *)
Lemma format_0_short (f : spec_float) :
  float_in_0 100 f ->
  exists shown, format_f 0 (PyFloat f) = Ok shown /\
                (String.length shown <= 3)%nat.
Proof.
  intros H. eexists. split; [reflexivity |].
  destruct f as [s | s | | [] m e]; cbn [float_in_0] in H; try tauto.
  - destruct s; simpl; lia.
  - destruct H as [He Hm]. cbn [format_fixed fixed_digits append].
    change (10 ^ Z.of_nat 0) with 1. rewrite Z.mul_1_r.
    apply str_of_int_short. destruct e as [| e | e]; try lia; cbv beta iota.
    change (- Zneg e) with (Zpos e) in Hm.
    apply div_half_even_bounds; [lia | | lia].
    apply Z.pow_pos_nonneg; lia.
Qed.

(** The percentage of an entry between 0 and the total passes the guard
    of [percent_to_graph] and is shown with at most three characters. *)
Lemma entry_percent_guarded (size total : Z) :
  0 <= size <= total ->
  exists percent shown,
    Duim.entry_percent size total = Ok percent /\
    le (PyInt 0) percent = true /\ le percent (PyInt 100) = true /\
    format_f 0 percent = Ok shown /\ (String.length shown <= 3)%nat.
Proof.
  intros Hs. unfold Duim.entry_percent.
  destruct (total >? 0) eqn:E.
  - apply Z.gtb_lt in E.
    destruct (int_truediv_unit size total Hs E) as (r & Hr & Hin).
    cbn [truediv]. rewrite Hr. cbn [bind].
    destruct (mul_ratio_nonneg r 100 Hin ltac:(split; [lia | reflexivity]))
      as (v & Hv & Hvin).
    destruct (float_in_0_le 100 v ltac:(lia) Hvin) as [H0 H100].
    destruct (format_0_short v Hvin) as (shown & Hshown & Hlen).
    exists (PyFloat v), shown. auto.
  - exists (PyInt 0), "0". repeat split. simpl. lia.
Qed.

Lemma size_formatter_runs (human : bool) (x : Z) :
  - 2 ^ 53 < x < 2 ^ 53 -> exists h, Duim.size_formatter human x = Ok h.
Proof.
  intros Hx. unfold Duim.size_formatter. destruct human; [| eauto].
  destruct (float_of_int_bounded x Hx) as [f Hf].
  destruct (ge _ _); [| destruct (ge _ _)];
    cbn [truediv to_float bind]; rewrite Hf; cbn [bind is_zero lit_1e9 lit_1e6 lit_1e3 format_f to_float];
    eauto.
Qed.

Lemma sum_nonneg_bound (l : list Z) (x : Z) :
  Forall (fun v => 0 <= v) l -> In x l -> 0 <= x <= sum l.
Proof.
  induction l as [| y l IH]; intros H Hin; [destruct Hin |].
  inversion H as [| z zs Hy Hl]; subst. rewrite sum_cons.
  assert (0 <= sum l).
  { clear -Hl. induction l as [| z l IH]; [unfold sum; simpl; lia |].
    inversion Hl; subst. rewrite sum_cons. specialize (IH H2). lia. }
  destruct Hin as [<- | Hin]; [lia |]. specialize (IH Hl Hin). lia.
Qed.

(** The line of an entry between 0 and a total below [2 ^ 53]. *)
Lemma entry_line_runs (a : Duim.args) (total : Z) (directory : string)
  (size : Z) :
  0 <= size <= total -> total < 2 ^ 53 ->
  - 2 ^ 53 < Duim.length a < 2 ^ 53 ->
  exists shown bar hs,
    Duim.entry_line a total directory size
    = Ok (shown ++ " % [" ++ bar ++ "] " ++ hs ++ " " ++ directory) /\
    String.length shown = 3%nat /\
    String.length bar = Z.to_nat (Duim.length a) /\
    Duim.size_formatter (Duim.human_readable a) size = Ok hs.
Proof.
  intros Hs Ht Hl. unfold Duim.entry_line.
  destruct (entry_percent_guarded size total Hs)
    as (percent & shown & Hp & H0 & H100 & Hshown & Hlen).
  destruct (duim_bar percent (Duim.length a) H0 H100 Hl)
    as (v & k & _ & _ & Hpos & Hneg & Hbar).
  destruct (size_formatter_runs (Duim.human_readable a) size ltac:(lia))
    as [hs Hhs].
  rewrite Hp. cbn [bind]. rewrite Hbar. cbn [bind].
  rewrite Hshown. cbn [bind]. rewrite Hhs. cbn [bind].
  exists (rjust 3 shown), (str_mul "=" k ++ str_mul " " (Duim.length a - k)), hs.
  repeat split; auto.
  - rewrite length_rjust. lia.
  - rewrite length_append, !length_str_mul. lia.
Qed.

Lemma report_loop_runs (a : Duim.args) (total : Z) (items : dict Z)
  (out : list string) (P : string * Z -> string -> Prop) :
  (forall kv, In kv items ->
     exists line, Duim.entry_line a total (fst kv) (snd kv) = Ok line /\
                  P kv line) ->
  exists lines,
    Duim.report_loop a total items out = ((out ++ lines)%list, None) /\
    Forall2 P items lines.
Proof.
  revert out. induction items as [| [directory size] rest IH]; intros out H.
  - exists []. rewrite app_nil_r. split; [reflexivity | constructor].
  - destruct (H (directory, size) (or_introl eq_refl)) as (line & Hline & HP).
    cbn [Duim.report_loop]. cbn [fst snd] in Hline. rewrite Hline.
    destruct (IH (out ++ [line])%list) as (lines & Hr & Hf).
    { intros kv Hin. apply H. now right. }
    exists (line :: lines). rewrite Hr, <- app_assoc. split; [reflexivity |].
    now constructor.
Qed.

(** X5.  When no size read from the output of [du] is negative, their
    sum is below [2 ^ 53] and the length of the graph is of magnitude below
    [2 ^ 53], [main] ends without an exception.  It prints the total line
    and then one line per entry of the dictionary, in the order of the
    dictionary, each made of a percentage right-aligned in 3 characters,
    an opening bracket, a bar of exactly [length] characters (none when the
    length is negative), a closing bracket, the size as the formatter
    writes it, a space and the path. *)
Theorem main_completes (a : Duim.args) (du_output : list string)
  (d : dict Z) :
  Duim.create_dir_dict du_output = Ok d ->
  Forall (fun kv => 0 <= snd kv) d ->
  sum (values d) < 2 ^ 53 ->
  - 2 ^ 53 < Duim.length a < 2 ^ 53 ->
  exists h lines,
    Duim.size_formatter (Duim.human_readable a) (sum (values d)) = Ok h /\
    Duim.main a du_output
    = (("Total: " ++ h ++ "   " ++ Duim.target a) :: lines, None) /\
    Forall2
      (fun kv line =>
         exists shown bar hs,
           line = shown ++ " % [" ++ bar ++ "] " ++ hs ++ " " ++ fst kv /\
           String.length shown = 3%nat /\
           String.length bar = Z.to_nat (Duim.length a) /\
           Duim.size_formatter (Duim.human_readable a) (snd kv) = Ok hs)
      d lines.
Proof.
  intros Hd Hpos Hsum Hlen.
  assert (Hvals : Forall (fun v => 0 <= v) (values d)).
  { unfold values. apply Forall_map. exact Hpos. }
  assert (Htot : 0 <= sum (values d)).
  { clear -Hvals. induction (values d) as [| z l IH]; [unfold sum; simpl; lia |].
    inversion Hvals; subst. rewrite sum_cons. specialize (IH H2). lia. }
  destruct (size_formatter_runs (Duim.human_readable a) (sum (values d))
              ltac:(lia)) as [h Hh].
  destruct (report_loop_runs a (sum (values d)) d
              ["Total: " ++ h ++ "   " ++ Duim.target a]
              (fun kv line =>
                 exists shown bar hs,
                   line = shown ++ " % [" ++ bar ++ "] " ++ hs ++ " " ++ fst kv /\
                   String.length shown = 3%nat /\
                   String.length bar = Z.to_nat (Duim.length a) /\
                   Duim.size_formatter (Duim.human_readable a) (snd kv) = Ok hs))
    as (lines & Hr & Hf).
  { intros [directory size] Hin. cbn [fst snd].
    assert (Hs : 0 <= size <= sum (values d)).
    { apply sum_nonneg_bound; [exact Hvals |].
      unfold values. apply in_map_iff. exists (directory, size). auto. }
    destruct (entry_line_runs a (sum (values d)) directory size Hs Hsum Hlen)
      as (shown & bar & hs & Hline & H1 & H2 & H3).
    eexists. split; [exact Hline |]. exists shown, bar, hs. auto. }
  exists h, lines. split; [exact Hh |]. split; [| exact Hf].
  unfold Duim.main. rewrite Hd, Hh. exact Hr.
Qed.

Lemma main_completes_witness :
  exists h lines,
    Duim.size_formatter true 300 = Ok h /\
    Duim.main
      {| Duim.target := "."; Duim.human_readable := true; Duim.length := 10 |}
      ["100" ++ tab ++ "./a"; "200" ++ tab ++ "./b"]
    = (("Total: " ++ h ++ "   " ++ ".") :: lines, None) /\
    Datatypes.length lines = 2%nat.
Proof.
  destruct (main_completes
              {| Duim.target := "."; Duim.human_readable := true;
                 Duim.length := 10 |}
              ["100" ++ tab ++ "./a"; "200" ++ tab ++ "./b"]
              [("./a", 100); ("./b", 200)])
    as (h & lines & Hh & Hm & Hf).
  - reflexivity.
  - repeat constructor; discriminate.
  - reflexivity.
  - split; reflexivity.
  - exists h, lines. split; [exact Hh |]. split; [exact Hm |].
    symmetry. exact (Forall2_length Hf).
Defined.

End ReportRuns.

(** ** Entries that the report refuses *)

Section Refused.

(** The quotient of two non-zero integers of magnitude below [2 ^ 53] is a
    finite non-zero float, with the sign of the exact quotient. *)
Lemma SFdiv_int_finite (sa sb : bool) (pa pb : positive) :
  Zpos pa < 2 ^ 53 -> Zpos pb < 2 ^ 53 ->
  exists m e,
    SFdiv prec emax (S754_finite sa pa 0) (S754_finite sb pb 0)
    = S754_finite (xorb sa sb) m e /\
    2 ^ 52 <= Zpos m < 2 ^ 53 /\ -105 <= e <= 2.
Proof.
  intros Ha Hb.
  cbn [SFdiv]. unfold SFdiv_core_binary. cbn [Zdigits2].
  pose proof (digits2_pos_bounds pa) as [Ha1 Ha2].
  pose proof (digits2_pos_bounds pb) as [Hb1 Hb2].
  set (d1 := Zpos (digits2_pos pa)) in *. set (d2 := Zpos (digits2_pos pb)) in *.
  assert (Hd1 : 1 <= d1 <= 53).
  { split; [unfold d1; lia |].
    apply (Zdigits2_le (Zpos pa) 53); lia. }
  assert (Hd2 : 1 <= d2 <= 53).
  { split; [unfold d2; lia |].
    apply (Zdigits2_le (Zpos pb) 53); lia. }
  assert (He' : Z.min (fexp prec emax (d1 + 0 - (d2 + 0))) (0 - 0) = d1 - d2 - 53).
  { unfold fexp, emin, prec, emax. lia. }
  rewrite He'. set (e' := d1 - d2 - 53) in *.
  replace (0 - 0 - e') with (- e') by lia.
  assert (Hs : 0 < - e') by (unfold e'; lia).
  destruct (- e') as [| s | s] eqn:Es; try lia.
  rewrite Z.shiftl_mul_pow2 by lia.
  pose proof (Z_div_mod (Zpos pa * 2 ^ Zpos s) (Zpos pb) ltac:(lia)) as Hdm.
  destruct (Z.div_eucl (Zpos pa * 2 ^ Zpos s) (Zpos pb)) as [q r].
  destruct Hdm as [Hq Hr].
  assert (Hps : 0 < 2 ^ Zpos s) by (apply Z.pow_pos_nonneg; lia).
  assert (Hsd : Zpos s = 53 - d1 + d2) by (unfold e' in Es; lia).
  assert (Hq1 : 2 ^ 52 <= q).
  { assert (H1 : 2 ^ 52 * 2 ^ d2 <= Zpos pa * 2 ^ Zpos s).
    { rewrite <- Z.pow_add_r by lia.
      replace (52 + d2) with (d1 - 1 + Zpos s) by lia.
      rewrite Z.pow_add_r by lia. nia. }
    assert (0 < 2 ^ 52) by reflexivity. nia. }
  assert (Hq2 : q < 2 ^ 54).
  { assert (H1 : Zpos pa * 2 ^ Zpos s < 2 ^ 54 * 2 ^ (d2 - 1)).
    { rewrite <- Z.pow_add_r by lia.
      replace (54 + (d2 - 1)) with (d1 + Zpos s) by lia.
      rewrite Z.pow_add_r by lia. nia. }
    assert (0 < 2 ^ 54) by reflexivity. nia. }
  assert (Hdq : Zdigits2 q = 53 \/ Zdigits2 q = 54).
  { destruct (Z_lt_le_dec q (2 ^ 53)).
    - left. apply Zdigits2_eq; lia.
    - right. apply Zdigits2_eq; lia. }
  destruct (binary_round_aux_bracket (xorb sa sb) q e'
              (new_location (Zpos pb) r))
    as (m & e & Hres & Hee & Hmb & Hval).
  { assert (0 < 2 ^ 52) by reflexivity. lia. }
  { lia. }
  { unfold e'. lia. }
  { unfold e'. lia. }
  exists m, e. split; [exact Hres |]. split; [exact Hmb |].
  split; [unfold e' in Hee; lia |].
  destruct (Z_le_gt_dec e (e' + 2)) as [| Hgt]; [unfold e' in *; lia | exfalso].
  set (n := Zdigits2 q - 53) in *.
  assert (Hn : 0 <= n <= 1) by lia.
  assert (Hpn : 0 < 2 ^ n) by (apply Z.pow_pos_nonneg; lia).
  pose proof (Z.div_mod q (2 ^ n) ltac:(lia)) as Hqn.
  pose proof (Z.mod_pos_bound q (2 ^ n) Hpn) as Hrn.
  assert (Hbig : 2 ^ 3 <= 2 ^ (e - e')) by (apply Z.pow_le_mono_r; lia).
  assert (H52 : 0 < 2 ^ 52) by reflexivity.
  assert (Hlow : 2 ^ 52 * 2 ^ 3 <= Zpos m * 2 ^ (e - e')).
  { apply Z.mul_le_mono_nonneg; lia. }
  assert (Hup : (q / 2 ^ n + 1) * 2 ^ n <= q + 2 ^ n) by lia.
  assert (H2n : 2 ^ n <= 2 ^ 1) by (apply Z.pow_le_mono_r; lia).
  change (2 ^ 52 * 2 ^ 3) with (2 ^ 55) in Hlow.
  change (2 ^ 1) with 2 in H2n.
  assert (2 ^ 54 + 2 < 2 ^ 55) by reflexivity.
  destruct Hval as [Hv | Hv]; rewrite Hv in Hlow; lia.
Qed.

(** The product by 100 of a finite non-zero float of moderate exponent
    is a finite non-zero float of the same sign. *)
Lemma SFmul_100_finite (s : bool) (m : positive) (e : Z) :
  2 ^ 52 <= Zpos m < 2 ^ 53 -> -105 <= e <= 2 ->
  exists m' e',
    SFmul prec emax (S754_finite s m e)
      (S754_finite false 7036874417766400 (-46))
    = S754_finite s m' e'.
Proof.
  intros Hm He. cbn [SFmul].
  set (Mx := Zpos (m * 7036874417766400)).
  assert (HMx : Mx = Zpos m * (100 * 2 ^ 46))
    by (unfold Mx; rewrite Pos2Z.inj_mul; reflexivity).
  assert (Hlo : 2 ^ 104 <= Mx).
  { rewrite HMx. change (2 ^ 104) with (2 ^ 52 * (64 * 2 ^ 46)).
    change (2 ^ 46) with 70368744177664. lia. }
  assert (Hhi : Mx < 2 ^ 106).
  { rewrite HMx. change (2 ^ 106) with (2 ^ 53 * (128 * 2 ^ 46)).
    change (2 ^ 46) with 70368744177664.
    change (2 ^ 53) with 9007199254740992 in *. lia. }
  assert (Hd : Zdigits2 Mx = 105 \/ Zdigits2 Mx = 106).
  { destruct (Z_lt_le_dec Mx (2 ^ 105)).
    - left. apply Zdigits2_eq; [lia |]. split; assumption.
    - right. apply Zdigits2_eq; [lia |]. split; assumption. }
  assert (H104 : 0 < 2 ^ 104) by reflexivity.
  destruct (binary_round_aux_bracket (xorb s false) Mx (e + -46) loc_Exact)
    as (m' & e' & Hres & _); try lia.
  exists m', e'. rewrite Hres. now destruct s.
Qed.

(** The percentage of a non-zero entry, for a positive total: a finite
    non-zero float with the sign of the size. *)
Lemma entry_percent_finite (size total : Z) :
  size <> 0 -> - 2 ^ 53 < size < 2 ^ 53 -> 0 < total < 2 ^ 53 ->
  exists m e,
    Duim.entry_percent size total
    = Ok (PyFloat (S754_finite (size <? 0) m e)).
Proof.
  intros Hne Hs Ht. unfold Duim.entry_percent.
  replace (total >? 0) with true by (symmetry; apply Z.gtb_lt; lia).
  cbn [truediv]. unfold int_truediv.
  replace (total =? 0) with false by (symmetry; apply Z.eqb_neq; lia).
  replace (size =? 0) with false by (symmetry; apply Z.eqb_neq; lia).
  replace (total <? 0) with false by (symmetry; apply Z.ltb_ge; lia).
  destruct (SFdiv_int_finite (size <? 0) false (Z.to_pos (Z.abs size))
              (Z.to_pos (Z.abs total))) as (m & e & Hdiv & Hm & He).
  { rewrite Z2Pos.id by lia. lia. }
  { rewrite Z2Pos.id by lia. lia. }
  rewrite Hdiv. cbn [bind mul to_float].
  change (float_of_int 100)
    with (Ok (S754_finite false 7036874417766400 (-46))).
  cbn [bind].
  destruct (SFmul_100_finite (xorb (size <? 0) false) m e Hm He)
    as (m' & e' & Hmul).
  rewrite Hmul. exists m', e'. now destruct (size <? 0).
Qed.

(** A negative entry under a positive total is refused by the guard of
    [percent_to_graph]. *)
Lemma entry_line_negative (a : Duim.args) (total : Z) (directory : string)
  (size : Z) :
  - 2 ^ 53 < size < 0 -> 0 < total < 2 ^ 53 ->
  Duim.entry_line a total directory size = Raise ValueError.
Proof.
  intros Hs Ht. unfold Duim.entry_line.
  destruct (entry_percent_finite size total ltac:(lia) ltac:(lia) Ht)
    as (m & e & Hp).
  rewrite Hp. cbn [bind].
  replace (size <? 0) with true by (symmetry; apply Z.ltb_lt; lia).
  unfold Duim.percent_to_graph.
  assert (H0 : le (PyInt 0) (PyFloat (S754_finite true m e)) = false).
  { cbn [le float_cmp_int cond_Zopp].
    destruct e as [| e | e]; cbv beta iota.
    - destruct (Z.compare_spec (- Zpos m * 2 ^ 0) 0); try reflexivity; lia.
    - assert (0 < 2 ^ Zpos e) by (apply Z.pow_pos_nonneg; lia).
      destruct (Z.compare_spec (- Zpos m * 2 ^ Zpos e) 0); try reflexivity; nia.
    - destruct (Z.compare_spec (- Zpos m) (0 * 2 ^ Zpos e)); try reflexivity; lia. }
  rewrite H0. reflexivity.
Qed.

(** Under a positive total, with sizes of magnitude below [2 ^ 53], the
    only exception of an entry line is the [ValueError] of the guard. *)
Lemma entry_line_raises (a : Duim.args) (total : Z) (directory : string)
  (size : Z) (x : exn) :
  - 2 ^ 53 < size < 2 ^ 53 -> 0 < total < 2 ^ 53 ->
  - 2 ^ 53 < Duim.length a < 2 ^ 53 ->
  Duim.entry_line a total directory size = Raise x -> x = ValueError.
Proof.
  intros Hs Ht Hl. unfold Duim.entry_line.
  destruct (Z.eq_dec size 0) as [-> | Hne].
  - destruct (entry_line_runs a total directory 0 ltac:(lia) ltac:(lia) Hl)
      as (shown & bar & hs & Hline & _).
    unfold Duim.entry_line in Hline. rewrite Hline. discriminate.
  - destruct (entry_percent_finite size total Hne Hs Ht) as (m & e & Hp).
    rewrite Hp. cbn [bind].
    destruct (size_formatter_runs (Duim.human_readable a) size Hs) as [hs Hhs].
    destruct (le (PyInt 0) (PyFloat (S754_finite (size <? 0) m e))
              && le (PyFloat (S754_finite (size <? 0) m e)) (PyInt 100)) eqn:G.
    + apply andb_true_iff in G. destruct G as [H0 H100].
      destruct (duim_bar _ (Duim.length a) H0 H100 Hl)
        as (v & k & _ & _ & _ & _ & Hbar).
      rewrite Hbar. cbn [bind format_f to_float]. rewrite Hhs. discriminate.
    + unfold Duim.percent_to_graph. rewrite G. cbn [negb bind].
      intros H. now inversion H.
Qed.

Lemma forall2_nth {A B : Type} (P : A -> B -> Prop) (l1 : list A)
  (l2 : list B) (i : nat) (x : A) :
  Forall2 P l1 l2 -> nth_error l1 i = Some x ->
  exists y, nth_error l2 i = Some y /\ P x y.
Proof.
  intros H. revert i. induction H as [| a b l1 l2 Hab H IH]; intros i Hi.
  - destruct i; discriminate.
  - destruct i as [| i]; simpl in *.
    + inversion Hi; subst. eauto.
    + now apply IH.
Qed.

(** X6.  When the sum of the sizes is positive and one of them is negative
    (sizes and sum of magnitude below [2 ^ 53], as the length of the
    graph), [main] ends with the [ValueError] of [percent_to_graph]: it
    has printed the total line and at most the lines of the entries before
    the negative one. *)
Theorem main_negative_size (a : Duim.args) (du_output : list string)
  (d : dict Z) :
  Duim.create_dir_dict du_output = Ok d ->
  Forall (fun kv => - 2 ^ 53 < snd kv < 2 ^ 53) d ->
  0 < sum (values d) < 2 ^ 53 ->
  - 2 ^ 53 < Duim.length a < 2 ^ 53 ->
  Exists (fun kv => snd kv < 0) d ->
  exists lines,
    Duim.main a du_output = (lines, Some ValueError) /\
    (1 <= Datatypes.length lines <= Datatypes.length d)%nat.
Proof.
  intros Hd Hb Ht Hl Hneg. unfold Duim.main. rewrite Hd.
  destruct (size_formatter_runs (Duim.human_readable a) (sum (values d))
              ltac:(lia)) as [h Hh].
  rewrite Hh.
  destruct (report_loop_lines a (sum (values d)) d
              ["Total: " ++ h ++ "   " ++ Duim.target a])
    as (lines & e & Hr & Hf & Hnone & Hsome).
  rewrite Hr. rewrite Forall_forall in Hb.
  destruct e as [x |].
  - destruct (Hsome x eq_refl) as (kv & Hnth & Hraise).
    assert (x = ValueError).
    { eapply entry_line_raises; [| exact Ht | exact Hl | exact Hraise].
      apply Hb. eapply nth_error_In; eauto. }
    subst x. eexists. split; [reflexivity |].
    assert (Datatypes.length lines < Datatypes.length d)%nat
      by (apply nth_error_Some; congruence).
    cbn [app Datatypes.length]. lia.
  - exfalso. specialize (Hnone eq_refl).
    rewrite Hnone, firstn_all in Hf.
    apply Exists_exists in Hneg. destruct Hneg as ([directory size] & Hin & Hlt).
    destruct (In_nth_error _ _ Hin) as [i Hi].
    destruct (forall2_nth _ _ _ _ _ Hf Hi) as (line & _ & Hline).
    cbn [fst snd] in *.
    rewrite entry_line_negative in Hline; [discriminate | | exact Ht].
    specialize (Hb _ Hin). cbn [snd] in Hb. lia.
Qed.

Lemma main_negative_size_witness :
  exists lines,
    Duim.main
      {| Duim.target := "."; Duim.human_readable := false; Duim.length := 20 |}
      ["100" ++ tab ++ "./a"; "-30" ++ tab ++ "./b"]
    = (lines, Some ValueError) /\
    (1 <= Datatypes.length lines <= 2)%nat.
Proof.
  apply (main_negative_size
           {| Duim.target := "."; Duim.human_readable := false;
              Duim.length := 20 |}
           ["100" ++ tab ++ "./a"; "-30" ++ tab ++ "./b"]
           [("./a", 100); ("./b", -30)]).
  - reflexivity.
  - repeat constructor; reflexivity.
  - split; reflexivity.
  - split; reflexivity.
  - right. left. reflexivity.
Defined.

End Refused.

(** ** Empty and full bars *)

Section Endpoints.

(** The bar of a percentage that divides by 100 to the float 0: spaces
    only. *)
Lemma percent_to_graph_none (percent : num) (W : Z) :
  le (PyInt 0) percent = true -> le percent (PyInt 100) = true ->
  truediv percent (PyInt 100) = Ok (PyFloat (S754_zero false)) ->
  - 2 ^ 53 < W < 2 ^ 53 ->
  Duim.percent_to_graph percent W = Ok (str_mul " " W).
Proof.
  intros H0 H100 Hdiv HW. unfold Duim.percent_to_graph.
  rewrite H0, H100, Hdiv. cbn [andb negb bind mul to_float].
  assert (Hw : exists s, float_of_int W = Ok (S754_zero s) \/
                         exists m e, float_of_int W = Ok (S754_finite s m e)).
  { destruct W as [| p | p].
    - exists false. left. reflexivity.
    - destruct (float_of_int_small (Zpos p) ltac:(lia)) as (m & e & H & _).
      exists false. right. eauto.
    - destruct (float_of_int_small (Zpos p) ltac:(lia)) as (m & e & H & _).
      exists true. right. exists m, e.
      rewrite (float_of_int_opp p _ H). reflexivity. }
  destruct Hw as [s [Hw | (m & e & Hw)]]; rewrite Hw; cbn [bind SFmul round];
    rewrite Z.sub_0_r, !str_repeat_small by lia; reflexivity.
Qed.

Lemma percent_to_graph_zero (W : Z) :
  - 2 ^ 53 < W < 2 ^ 53 ->
  Duim.percent_to_graph (PyInt 0) W = Ok (str_mul " " W).
Proof. intros HW. now apply percent_to_graph_none. Qed.

(** X7.  When the sum of the sizes is not positive (sizes, sum and length
    of the graph of magnitude below [2 ^ 53]), [main] ends without an
    exception and every entry is printed with the percentage 0 and a bar of
    spaces only: no quotient is computed. *)
Theorem main_zero_total (a : Duim.args) (du_output : list string)
  (d : dict Z) :
  Duim.create_dir_dict du_output = Ok d ->
  Forall (fun kv => - 2 ^ 53 < snd kv < 2 ^ 53) d ->
  - 2 ^ 53 < sum (values d) <= 0 ->
  - 2 ^ 53 < Duim.length a < 2 ^ 53 ->
  exists h lines,
    Duim.size_formatter (Duim.human_readable a) (sum (values d)) = Ok h /\
    Duim.main a du_output
    = (("Total: " ++ h ++ "   " ++ Duim.target a) :: lines, None) /\
    Forall2
      (fun kv line =>
         exists hs,
           Duim.size_formatter (Duim.human_readable a) (snd kv) = Ok hs /\
           line = "  0 % [" ++ str_mul " " (Duim.length a) ++ "] " ++ hs
                    ++ " " ++ fst kv)
      d lines.
Proof.
  intros Hd Hb Ht Hl.
  destruct (size_formatter_runs (Duim.human_readable a) (sum (values d))
              ltac:(lia)) as [h Hh].
  destruct (report_loop_runs a (sum (values d)) d
              ["Total: " ++ h ++ "   " ++ Duim.target a]
              (fun kv line =>
                 exists hs,
                   Duim.size_formatter (Duim.human_readable a) (snd kv) = Ok hs /\
                   line = "  0 % [" ++ str_mul " " (Duim.length a) ++ "] " ++ hs
                            ++ " " ++ fst kv))
    as (lines & Hr & Hf).
  { intros [directory size] Hin. cbn [fst snd].
    rewrite Forall_forall in Hb. specialize (Hb _ Hin). cbn [snd] in Hb.
    destruct (size_formatter_runs (Duim.human_readable a) size Hb) as [hs Hhs].
    unfold Duim.entry_line, Duim.entry_percent.
    replace (sum (values d) >? 0) with false
      by (symmetry; rewrite Z.gtb_ltb; apply Z.ltb_ge; lia).
    cbn [bind]. rewrite (percent_to_graph_zero _ Hl). cbn [bind].
    change (format_f 0 (PyInt 0)) with (Ok "0"). cbn [bind]. rewrite Hhs.
    cbn [bind]. eexists. split; [reflexivity |]. exists hs. auto. }
  exists h, lines. split; [exact Hh |]. split; [| exact Hf].
  unfold Duim.main. rewrite Hd, Hh. exact Hr.
Qed.

Lemma main_zero_total_witness :
  exists h lines,
    Duim.size_formatter false 0 = Ok h /\
    Duim.main
      {| Duim.target := "."; Duim.human_readable := false; Duim.length := 5 |}
      ["0" ++ tab ++ "./a"; "0" ++ tab ++ "."]
    = (("Total: " ++ h ++ "   " ++ ".") :: lines, None) /\
    Forall2
      (fun kv line =>
         exists hs,
           Duim.size_formatter false (snd kv) = Ok hs /\
           line = "  0 % [" ++ str_mul " " 5 ++ "] " ++ hs ++ " " ++ fst kv)
      [("./a", 0); (".", 0)] lines.
Proof.
  apply (main_zero_total
           {| Duim.target := "."; Duim.human_readable := false;
              Duim.length := 5 |}
           ["0" ++ tab ++ "./a"; "0" ++ tab ++ "."]
           [("./a", 0); (".", 0)]).
  - reflexivity.
  - repeat constructor; reflexivity.
  - split; [reflexivity | discriminate].
  - split; reflexivity.
Defined.

(** Rounding a mantissa whose dropped digits are all zero is exact. *)
Lemma binary_round_aux_exact (sx : bool) (mx ex : Z) :
  let n := Zdigits2 mx - 53 in
  0 < mx -> 0 <= n -> -1074 <= ex + n -> Zdigits2 mx + ex <= 1023 ->
  mx mod 2 ^ n = 0 ->
  exists m,
    binary_round_aux prec emax sx mx ex loc_Exact = S754_finite sx m (ex + n) /\
    Zpos m = mx / 2 ^ n.
Proof.
  intros n Hm Hn Hlo Hhi Hmod.
  pose proof (Zdigits2_bounds mx Hm) as [Hd1 Hd2].
  set (d := Zdigits2 mx) in *.
  assert (Hpn : 0 < 2 ^ n) by (apply Z.pow_pos_nonneg; lia).
  assert (Hf1 : Z.max 0 (fexp prec emax (d + ex) - ex) = n).
  { unfold fexp, emin, prec, emax. lia. }
  destruct (shr_fexp_spec mx ex loc_Exact ltac:(lia)) as (Hm1 & He1 & Hex & _).
  fold d in Hm1, He1, Hex. rewrite Hf1 in Hm1, He1, Hex.
  specialize (Hex eq_refl Hmod).
  unfold binary_round_aux.
  destruct (shr_fexp prec emax mx ex loc_Exact) as [mrs1 e1]. cbn [fst snd] in *.
  set (m1 := shr_m mrs1) in *.
  assert (Hm1b : 2 ^ 52 <= m1 < 2 ^ 53).
  { rewrite Hm1. split.
    - apply Z.div_le_lower_bound; [lia |].
      rewrite <- Z.pow_add_r by lia. replace (n + 52) with (d - 1) by lia. lia.
    - apply Z.div_lt_upper_bound; [lia |].
      rewrite <- Z.pow_add_r by lia. replace (n + 53) with d by lia. lia. }
  set (m2 := SpecFloat.round_nearest_even m1 (loc_of_shr_record mrs1)).
  assert (Hm2 : m2 = m1) by (subst m2; rewrite Hex; reflexivity).
  assert (Hm2pos : 0 <= m2) by lia.
  destruct (shr_fexp_spec m2 e1 loc_Exact Hm2pos) as (Hm3 & He3 & _ & _).
  destruct (shr_fexp prec emax m2 e1 loc_Exact) as [mrs2 e2]. cbn [fst snd] in *.
  assert (Hd2' : Zdigits2 m2 = 53) by (apply Zdigits2_eq; lia).
  assert (Hf2 : Z.max 0 (fexp prec emax (Zdigits2 m2 + e1) - e1) = 0).
  { rewrite Hd2'. unfold fexp, emin, prec, emax. lia. }
  rewrite Hf2 in Hm3, He3. rewrite Z.div_1_r in Hm3.
  rewrite Hm3. destruct m2 as [| p | p]; try lia.
  replace (e2 <=? emax - prec) with true
    by (symmetry; apply Z.leb_le; unfold emax, prec; lia).
  exists p. split; [f_equal; lia | lia].
Qed.

(** The float of a positive integer below [2 ^ 53]: its 53-digit form. *)
Lemma float_of_int_canonical (n : Z) :
  0 < n < 2 ^ 53 ->
  exists m e, float_of_int n = Ok (S754_finite false m e) /\
              2 ^ 52 <= Zpos m < 2 ^ 53 /\ -52 <= e <= 0 /\
              Zpos m = n * 2 ^ (- e).
Proof.
  intros Hn. destruct n as [| p | p]; try lia.
  pose proof (Zdigits2_le (Zpos p) 53 ltac:(lia) ltac:(lia) ltac:(lia)) as Hd.
  pose proof (digits2_pos_bounds p) as [Hp1 Hp2].
  cbn [Zdigits2] in Hd.
  unfold float_of_int. cbn [binary_normalize].
  unfold binary_round, shl_align.
  assert (Hfe : fexp prec emax (Zpos (digits2_pos p) + 0)
                = Zpos (digits2_pos p) - 53).
  { unfold fexp, emin, prec, emax. lia. }
  rewrite Hfe. set (d := Zpos (digits2_pos p)) in *.
  destruct (d - 53 - 0) as [| k | k] eqn:E; try lia.
  - exists p, 0.
    rewrite binary_round_aux_canonical;
      [| fold d; unfold fexp, emin, prec, emax; lia | unfold emax, prec; lia].
    split; [reflexivity |].
    replace (d - 1) with 52 in Hp1 by lia.
    replace d with 53 in Hp2 by lia.
    change (2 ^ (- 0)) with 1. lia.
  - exists (Pos.iter xO p k), (d - 53).
    rewrite binary_round_aux_canonical;
      [| rewrite digits2_iter_xO; fold d; unfold fexp, emin, prec, emax; lia
       | unfold emax, prec; lia].
    split; [reflexivity |].
    rewrite Zpos_iter_xO.
    assert (Hk : Zpos k = 53 - d) by lia.
    assert (0 < 2 ^ Zpos k) by (apply Z.pow_pos_nonneg; lia).
    assert (H52 : 2 ^ 52 = 2 ^ (d - 1) * 2 ^ Zpos k).
    { rewrite <- Z.pow_add_r by lia. f_equal. lia. }
    assert (H53 : 2 ^ 53 = 2 ^ d * 2 ^ Zpos k).
    { rewrite <- Z.pow_add_r by lia. f_equal. lia. }
    replace (- (d - 53)) with (Zpos k) by lia.
    rewrite H52, H53. repeat split; try lia.
    + apply Z.mul_le_mono_nonneg_r; lia.
    + apply Z.mul_lt_mono_pos_r; lia.
Qed.


(** The product of the float 1 and a float in 53-digit form is that
    float. *)
Lemma SFmul_one_l (m : positive) (e : Z) :
  2 ^ 52 <= Zpos m < 2 ^ 53 -> -52 <= e <= 0 ->
  SFmul prec emax (S754_finite false 4503599627370496 (-52))
    (S754_finite false m e)
  = S754_finite false m e.
Proof.
  intros Hm He. cbn [SFmul xorb].
  set (Mx := Zpos (4503599627370496 * m)).
  assert (HMx : Mx = Zpos m * 2 ^ 52)
    by (unfold Mx; rewrite Pos2Z.inj_mul; apply Z.mul_comm).
  assert (H52 : 0 < 2 ^ 52) by reflexivity.
  assert (Hdig : Zdigits2 Mx = 105).
  { apply Zdigits2_eq; [lia |]. rewrite HMx.
    change (2 ^ (105 - 1)) with (2 ^ 52 * 2 ^ 52).
    change (2 ^ 105) with (2 ^ 53 * 2 ^ 52). split.
    - apply Z.mul_le_mono_nonneg_r; lia.
    - apply Z.mul_lt_mono_pos_r; lia. }
  destruct (binary_round_aux_exact false Mx (-52 + e)) as (m' & Hres & Hm');
    rewrite ?Hdig; try lia.
  - rewrite HMx. change (105 - 53) with 52. apply Z.mod_mul. lia.
  - rewrite Hres. rewrite Hdig in Hm'. change (105 - 53) with 52 in *.
    rewrite HMx, Z.div_mul in Hm' by lia.
    inversion Hm'; subst m'. f_equal. lia.
Qed.

(** The quotient of a positive integer below [2 ^ 53] by itself is the
    float 1. *)
Lemma SFdiv_self (p : positive) :
  Zpos p < 2 ^ 53 ->
  SFdiv prec emax (S754_finite false p 0) (S754_finite false p 0)
  = S754_finite false 4503599627370496 (-52).
Proof.
  intros Hp. cbn [SFdiv xorb]. unfold SFdiv_core_binary. cbn [Zdigits2].
  set (d := Zpos (digits2_pos p)).
  assert (He' : Z.min (fexp prec emax (d + 0 - (d + 0))) (0 - 0) = -53).
  { unfold fexp, emin, prec, emax. lia. }
  rewrite He'. change (0 - 0 - -53) with 53.
  rewrite Z.shiftl_mul_pow2 by lia.
  pose proof (Z_div_mod (Zpos p * 2 ^ 53) (Zpos p) ltac:(lia)) as Hdm.
  destruct (Z.div_eucl (Zpos p * 2 ^ 53) (Zpos p)) as [q r].
  destruct Hdm as [Hq Hr].
  assert (Hqr : q = 2 ^ 53 /\ r = 0).
  { assert (H : Zpos p * (2 ^ 53 - q) = r) by lia.
    assert (2 ^ 53 - q = 0) by nia. lia. }
  destruct Hqr as [-> ->].
  replace (new_location (Zpos p) 0) with loc_Exact
    by (unfold new_location; destruct (Z.even (Zpos p)); reflexivity).
  vm_compute. reflexivity.
Qed.

(** [round] gives back the integer that a float holds. *)
Lemma round_float_of_int (W : Z) (m : positive) (e : Z) :
  e <= 0 -> Zpos m = W * 2 ^ (- e) ->
  round (PyFloat (S754_finite false m e)) = Ok W.
Proof.
  intros He Hm. cbn [round cond_Zopp]. f_equal.
  destruct e as [| e | e]; try lia; cbv beta iota.
  change (- Zneg e) with (Zpos e) in Hm.
  assert (Hpe : 0 < 2 ^ Zpos e) by (apply Z.pow_pos_nonneg; lia).
  unfold div_half_even. rewrite Hm, Z.div_mul, Z.mod_mul by lia.
  change (2 * 0) with 0.
  destruct (Z.compare_spec 0 (2 ^ Zpos e)); [lia | reflexivity | lia].
Qed.

(** The bar of a percentage that divides by 100 to the float 1: markers
    only. *)
Lemma percent_to_graph_full (percent : num) (W : Z) :
  le (PyInt 0) percent = true -> le percent (PyInt 100) = true ->
  truediv percent (PyInt 100)
  = Ok (PyFloat (S754_finite false 4503599627370496 (-52))) ->
  0 <= W < 2 ^ 53 ->
  Duim.percent_to_graph percent W = Ok (str_mul "=" W).
Proof.
  intros H0 H100 Hdiv HW. unfold Duim.percent_to_graph.
  rewrite H0, H100, Hdiv. cbn [andb negb bind mul to_float].
  destruct (Z.eq_dec W 0) as [-> | Hne]; [reflexivity |].
  destruct (float_of_int_canonical W ltac:(lia)) as (m & e & Hw & Hm & He & Hv).
  rewrite Hw. cbn [bind]. rewrite (SFmul_one_l m e Hm He).
  rewrite (round_float_of_int W m e ltac:(lia) Hv). cbn [bind].
  rewrite Z.sub_diag, !str_repeat_small by lia. cbn [bind].
  change (str_mul " " 0) with "".
  now rewrite append_nil_r.
Qed.

(** X8.  For a width from 0 to below [2 ^ 53], the bar of
    [percent_to_graph] is made of spaces only at the percentage 0 and of
    markers only at the percentage 100, whether the percentage is an [int]
    or a [float]. *)
Theorem percent_to_graph_endpoints (width : Z) :
  0 <= width < 2 ^ 53 ->
  Duim.percent_to_graph (PyInt 0) width = Ok (str_mul " " width) /\
  Duim.percent_to_graph (PyFloat (S754_zero false)) width
  = Ok (str_mul " " width) /\
  Duim.percent_to_graph (PyInt 100) width = Ok (str_mul "=" width) /\
  Duim.percent_to_graph (PyFloat (float_lit 100)) width
  = Ok (str_mul "=" width).
Proof.
  intros HW. repeat apply conj.
  - apply percent_to_graph_none; try reflexivity. lia.
  - apply percent_to_graph_none; try reflexivity. lia.
  - apply percent_to_graph_full; try reflexivity. exact HW.
  - apply percent_to_graph_full; try reflexivity. exact HW.
Qed.

Lemma percent_to_graph_endpoints_witness :
  Duim.percent_to_graph (PyInt 0) 20 = Ok (str_mul " " 20) /\
  Duim.percent_to_graph (PyFloat (float_lit 100)) 20 = Ok (str_mul "=" 20).
Proof.
  assert (H : 0 <= 20 < 2 ^ 53) by (split; [discriminate | reflexivity]).
  destruct (percent_to_graph_endpoints 20 H) as (H1 & _ & _ & H2).
  split; [exact H1 | exact H2].
Defined.

(** X9.  When the output of [du] gives a single entry, of a positive size
    below [2 ^ 53] (the case of a directory without subdirectories), the
    report is the total line and one line with the percentage [100] and a
    bar of [length] markers. *)
Theorem main_single_entry (a : Duim.args) (du_output : list string)
  (path : string) (size : Z) :
  Duim.create_dir_dict du_output = Ok [(path, size)] ->
  0 < size < 2 ^ 53 -> 0 <= Duim.length a < 2 ^ 53 ->
  exists h,
    Duim.size_formatter (Duim.human_readable a) size = Ok h /\
    Duim.main a du_output
    = (["Total: " ++ h ++ "   " ++ Duim.target a;
        "100 % [" ++ str_mul "=" (Duim.length a) ++ "] " ++ h ++ " " ++ path],
       None).
Proof.
  intros Hd Hs Hl.
  destruct (size_formatter_runs (Duim.human_readable a) size ltac:(lia))
    as [h Hh].
  exists h. split; [exact Hh |].
  unfold Duim.main. rewrite Hd.
  change (sum (values [(path, size)])) with (0 + size). rewrite Z.add_0_l, Hh.
  cbn [Duim.report_loop]. unfold Duim.entry_line, Duim.entry_percent.
  replace (size >? 0) with true by (symmetry; apply Z.gtb_lt; lia).
  cbn [truediv]. unfold int_truediv.
  replace (size =? 0) with false by (symmetry; apply Z.eqb_neq; lia).
  replace (size <? 0) with false by (symmetry; apply Z.ltb_ge; lia).
  rewrite SFdiv_self by (rewrite Z2Pos.id; lia).
  cbn [bind].
  change (mul (PyFloat (S754_finite false 4503599627370496 (-52))) (PyInt 100))
    with (Ok (PyFloat (float_lit 100))).
  cbn [bind].
  rewrite (percent_to_graph_full (PyFloat (float_lit 100)) (Duim.length a)
             eq_refl eq_refl eq_refl Hl).
  cbn [bind]. change (format_f 0 (PyFloat (float_lit 100))) with (Ok "100").
  cbn [bind]. rewrite Hh. reflexivity.
Qed.

Lemma main_single_entry_witness :
  exists h,
    Duim.size_formatter false 4096 = Ok h /\
    Duim.main
      {| Duim.target := "."; Duim.human_readable := false; Duim.length := 20 |}
      ["4096" ++ tab ++ "."]
    = (["Total: " ++ h ++ "   " ++ ".";
        "100 % [" ++ str_mul "=" 20 ++ "] " ++ h ++ " " ++ "."], None).
Proof.
  apply (main_single_entry
           {| Duim.target := "."; Duim.human_readable := false;
              Duim.length := 20 |}
           ["4096" ++ tab ++ "."] "." 4096).
  - reflexivity.
  - split; reflexivity.
  - split; [discriminate | reflexivity].
Defined.

End Endpoints.

(** ** The lists of pids *)

Section Pids.

Lemma split_runs_tokens (s : string) :
  no_space (fst (split_runs s)) = true /\
  Forall (fun w => w <> "" /\ no_space w = true) (snd (split_runs s)).
Proof.
  induction s as [| c s [IH1 IH2]]; [split; [reflexivity | constructor] |].
  cbn [split_runs]. destruct (split_runs s) as [w ws]. cbn [fst snd] in *.
  destruct (isspace c) eqn:E; cbn [fst snd].
  - split; [reflexivity |]. destruct w as [| a w]; [exact IH2 |].
    constructor; [split; [discriminate | exact IH1] | exact IH2].
  - split; [| exact IH2]. simpl. now rewrite E, IH1.
Qed.

(** The items of [s.split()] are not empty and hold no whitespace. *)
Lemma split_tokens (s : string) :
  Forall (fun w => w <> "" /\ no_space w = true) (split s).
Proof.
  unfold split. pose proof (split_runs_tokens s) as [H1 H2].
  destruct (split_runs s) as [w ws]. cbn [fst snd] in *.
  destruct w as [| a w]; [exact H2 |].
  constructor; [split; [discriminate | exact H1] | exact H2].
Qed.

Lemma split_all_space (s : string) : all_space s = true -> split s = [].
Proof.
  intros H. rewrite <- (append_nil_r s). rewrite split_space_app by exact H.
  reflexivity.
Qed.

Lemma split_runs_app_space (s ws : string) :
  all_space ws = true -> split_runs (s ++ ws) = split_runs s.
Proof.
  intros H. induction s as [| c s IH].
  - cbn [append]. rewrite split_runs_space, (split_all_space _ H);
      [reflexivity |].
    destruct ws as [| a ws]; [now left |]. right. exists a, ws.
    simpl in H. apply andb_true_iff in H. tauto.
  - cbn [append split_runs]. now rewrite IH.
Qed.

Lemma rstrip_decompose (s : string) :
  exists ws, all_space ws = true /\ s = rstrip s ++ ws.
Proof.
  induction s as [| c s (ws & Hws & Hs)]; [exists ""; auto |].
  cbn [rstrip]. destruct (rstrip s) as [| a t] eqn:E.
  - destruct (isspace c) eqn:Ec.
    + exists (String c ws). simpl. rewrite Ec, Hws. split; [reflexivity |].
      simpl in Hs. now rewrite <- Hs.
    + exists ws. split; [exact Hws |]. simpl in *. now rewrite <- Hs.
  - exists ws. split; [exact Hws |]. cbn [append]. f_equal. exact Hs.
Qed.

Lemma lstrip_decompose (s : string) :
  exists ws, all_space ws = true /\ s = ws ++ lstrip s.
Proof.
  induction s as [| c s (ws & Hws & Hs)]; [exists ""; auto |].
  cbn [lstrip]. destruct (isspace c) eqn:Ec.
  - exists (String c ws). simpl. rewrite Ec, Hws. split; [reflexivity |].
    now rewrite <- Hs.
  - exists "". auto.
Qed.

(** Stripping a string first does not change its items. *)
Lemma split_strip (s : string) : split (strip s) = split s.
Proof.
  unfold strip.
  destruct (lstrip_decompose s) as (lead & Hlead & Hs).
  destruct (rstrip_decompose (lstrip s)) as (trail & Htrail & Ht).
  rewrite Hs at 2. rewrite split_space_app by exact Hlead.
  rewrite Ht at 2. unfold split. now rewrite split_runs_app_space.
Qed.

Lemma split_words (words : list string) (trail : string) :
  Forall (fun w => w <> "" /\ no_space w = true) words ->
  all_space trail = true ->
  split (join " " words ++ trail) = words.
Proof.
  intros H Ht. induction H as [| w ws [Hne Hw] Hws IH].
  - now apply split_all_space.
  - destruct ws as [| w' ws].
    + cbn [join]. rewrite split_word_app; auto.
      * now rewrite split_all_space.
      * destruct trail as [| a t]; [now left |]. right. exists a, t.
        simpl in Ht. apply andb_true_iff in Ht. tauto.
    + rewrite join_cons by discriminate. rewrite !append_assoc.
      rewrite split_word_app; auto.
      * rewrite split_space_app by reflexivity. now rewrite IH.
      * right. exists " "%char, (join " " (w' :: ws) ++ trail). auto.
Qed.

Lemma int_each_ok (l : list string) (vals : list Z) :
  int_each l = Ok vals <-> Forall2 (fun t v => int_of_str t = Ok v) l vals.
Proof.
  revert vals. induction l as [| t l IH]; intros vals; cbn [int_each].
  - split; [intros H; inversion H; constructor | intros H; now inversion H].
  - destruct (int_of_str t) as [n | e] eqn:E; cbn [bind].
    + destruct (int_each l) as [ns | e] eqn:El; cbn [bind].
      * split.
        -- intros H. inversion H; subst. constructor; [exact E | now apply IH].
        -- intros H. inversion H as [| ? v ? vs Hv Hvs]; subst.
           apply IH in Hvs. congruence.
      * split; [discriminate |].
        intros H. inversion H as [| ? v ? vs Hv Hvs]; subst.
        apply IH in Hvs. discriminate.
    + split; [discriminate |].
      intros H. inversion H as [| ? v ? vs Hv Hvs]; subst. congruence.
Qed.

Lemma int_each_raises (l : list string) (e : exn) :
  int_each l = Raise e ->
  Exists (fun t => forall v, int_of_str t <> Ok v) l.
Proof.
  induction l as [| t l IH]; cbn [int_each]; [discriminate |].
  destruct (int_of_str t) as [n | x] eqn:E; cbn [bind].
  - destruct (int_each l) as [ns | x]; cbn [bind]; [discriminate |].
    intros H. right. apply IH. congruence.
  - intros _. left. intros v. rewrite E. discriminate.
Qed.

(** [pids_of_prog] on what [pidof] wrote: the guard on the empty string
    changes nothing. *)
Lemma pids_of_prog_output (pidof : Assignment2.pidof_oracle)
  (program output : string) :
  pidof program = Some output ->
  Assignment2.pids_of_prog pidof program
  = match int_each (split output) with
    | Ok l => l
    | Raise _ => []
    end.
Proof.
  intros H. unfold Assignment2.pids_of_prog. rewrite H.
  destruct (strip output) as [| c s] eqn:E; cbn [truthy].
  - rewrite <- split_strip, E. reflexivity.
  - rewrite <- E, split_strip. reflexivity.
Qed.

(** X10.  Every pid that duim's [get_pid_list] returns is a non-empty
    string without whitespace; an output of whitespace only gives no pid;
    and from pids written with single spaces between them and whitespace
    after the last one, as [pidof] writes them, it returns exactly those
    pids, in order. *)
Theorem get_pid_list_tokens (pidof_output : string) :
  Forall (fun pid => pid <> "" /\ no_space pid = true)
    (Duim.get_pid_list pidof_output) /\
  (all_space pidof_output = true -> Duim.get_pid_list pidof_output = []) /\
  (forall words trail,
     Forall (fun w => w <> "" /\ no_space w = true) words ->
     all_space trail = true ->
     pidof_output = join " " words ++ trail ->
     Duim.get_pid_list pidof_output = words).
Proof.
  unfold Duim.get_pid_list. split; [apply split_tokens | split].
  - apply split_all_space.
  - intros words trail Hw Ht ->. now apply split_words.
Qed.

Lemma get_pid_list_tokens_witness :
  Duim.get_pid_list ("1204 877" ++ nl) = ["1204"; "877"] /\
  Duim.get_pid_list nl = [].
Proof.
  split.
  - apply (proj2 (proj2 (get_pid_list_tokens ("1204 877" ++ nl)))
             ["1204"; "877"] nl).
    + repeat constructor; discriminate.
    + reflexivity.
    + reflexivity.
  - apply (proj1 (proj2 (get_pid_list_tokens nl))). reflexivity.
Defined.

(** X11.  [pids_of_prog] never raises, and it is all or nothing: when
    every item of what [pidof] wrote is read by [int], it returns their
    values in order; when one item is not an integer, or the call of
    [pidof] raised, it returns the empty list, whatever the other items
    are. *)
Theorem pids_of_prog_all_or_nothing (pidof : Assignment2.pidof_oracle)
  (program : string) :
  match pidof program with
  | None => Assignment2.pids_of_prog pidof program = []
  | Some output =>
      (forall vals,
         Forall2 (fun t v => int_of_str t = Ok v) (split output) vals ->
         Assignment2.pids_of_prog pidof program = vals) /\
      (Exists (fun t => forall v, int_of_str t <> Ok v) (split output) ->
       Assignment2.pids_of_prog pidof program = [])
  end.
Proof.
  destruct (pidof program) as [output |] eqn:E.
  - rewrite (pids_of_prog_output pidof program output E). split.
    + intros vals H. apply int_each_ok in H. now rewrite H.
    + intros H. destruct (int_each (split output)) as [l | e] eqn:El;
        [| reflexivity].
      exfalso. apply int_each_ok in El.
      apply Exists_exists in H. destruct H as (t & Hin & Hbad).
      destruct (In_nth_error _ _ Hin) as [i Hi].
      destruct (forall2_nth _ _ _ _ _ El Hi) as (v & _ & Hv).
      exact (Hbad v Hv).
  - unfold Assignment2.pids_of_prog. now rewrite E.
Qed.

Lemma pids_of_prog_all_or_nothing_witness :
  Assignment2.pids_of_prog (fun _ => Some ("12 7" ++ nl)) "bash" = [12; 7] /\
  Assignment2.pids_of_prog (fun _ => Some ("12 oops 7" ++ nl)) "bash" = [].
Proof.
  split.
  - pose proof (pids_of_prog_all_or_nothing
                  (fun _ => Some ("12 7" ++ nl)) "bash") as H.
    cbv beta in H. destruct H as [H _]. apply H. repeat constructor.
  - pose proof (pids_of_prog_all_or_nothing
                  (fun _ => Some ("12 oops 7" ++ nl)) "bash") as H.
    cbv beta in H. destruct H as [_ H]. apply H.
    right. left. intros v. discriminate.
Defined.

(** X12.  From pids in decimal digits, written with single spaces between
    them and whitespace after the last one, [pids_of_prog] returns the
    numbers that the digits write, in order; from an output of whitespace
    only it returns the empty list. *)
Theorem pids_of_prog_digits (pidof : Assignment2.pidof_oracle)
  (program : string) (tokens : list string) (trail : string) :
  pidof program = Some (join " " tokens ++ trail) ->
  Forall (fun t => t <> "" /\ all_digits t = true) tokens ->
  all_space trail = true ->
  Assignment2.pids_of_prog pidof program = map (decimal 0) tokens.
Proof.
  intros E Ht Htrail. rewrite (pids_of_prog_output pidof program _ E).
  rewrite split_words; [| | exact Htrail].
  - assert (H : int_each tokens = Ok (map (decimal 0) tokens)).
    { apply int_each_ok. clear E.
      induction Ht as [| t ts [Hne Hd] Hts IH]; [constructor |].
      constructor; [now apply int_of_str_digits | exact IH]. }
    now rewrite H.
  - eapply Forall_impl; [| exact Ht]. intros t [Hne Hd].
    split; [exact Hne | now apply all_digits_no_space].
Qed.

Lemma pids_of_prog_digits_witness :
  Assignment2.pids_of_prog (fun _ => Some ("1204 877" ++ nl)) "bash"
  = map (decimal 0) ["1204"; "877"].
Proof.
  apply (pids_of_prog_digits (fun _ => Some ("1204 877" ++ nl)) "bash"
           ["1204"; "877"] nl).
  - reflexivity.
  - repeat constructor; discriminate.
  - reflexivity.
Defined.

End Pids.

(** ** Readers of [/proc]: first lines, missing files, unreadable lines *)

Section ProcEdges.

Lemma sys_scan_first (pre post : list string) (line : string) :
  (forall l, In l pre -> startswith l "MemTotal" = false) ->
  startswith line "MemTotal" = true ->
  Assignment2.sys_scan (pre ++ line :: post) = int_field line 1.
Proof.
  intros Hpre Hline. induction pre as [| l pre IH]; cbn [app Assignment2.sys_scan].
  - now rewrite Hline.
  - rewrite (Hpre l (or_introl eq_refl)). apply IH.
    intros x Hx. apply Hpre. now right.
Qed.

Lemma sys_scan_none (lines : list string) :
  (forall l, In l lines -> startswith l "MemTotal" = false) ->
  Assignment2.sys_scan lines = Ok 0.
Proof.
  intros H. induction lines as [| l lines IH]; [reflexivity |].
  cbn [Assignment2.sys_scan]. rewrite (H l (or_introl eq_refl)). apply IH.
  intros x Hx. apply H. now right.
Qed.

(** X13.  [get_sys_mem] returns the value of the first line that begins
    with [MemTotal] and reads no line after it, whatever those lines are;
    it returns 0 when no line begins with [MemTotal]; and when
    [/proc/meminfo] is missing it raises [FileNotFoundError], which nothing
    in the function catches. *)
Theorem get_sys_mem_first (fs : filesystem) :
  match fs "/proc/meminfo" with
  | None => Assignment2.get_sys_mem fs = Raise FileNotFoundError
  | Some lines =>
      (forall pre line post,
         lines = (pre ++ line :: post)%list ->
         (forall l, In l pre -> startswith l "MemTotal" = false) ->
         startswith line "MemTotal" = true ->
         Assignment2.get_sys_mem fs = int_field line 1) /\
      ((forall l, In l lines -> startswith l "MemTotal" = false) ->
       Assignment2.get_sys_mem fs = Ok 0)
  end.
Proof.
  unfold Assignment2.get_sys_mem, open_lines.
  destruct (fs "/proc/meminfo") as [lines |]; [| reflexivity].
  cbn [bind]. split.
  - intros pre line post -> Hpre Hline. now apply sys_scan_first.
  - apply sys_scan_none.
Qed.

Lemma get_sys_mem_first_witness :
  Assignment2.get_sys_mem
    (fun _ => Some ["MemFree: 100 kB" ++ nl; "MemTotal: 1000 kB" ++ nl;
                    "MemTotal: garbage"])
  = int_field ("MemTotal: 1000 kB" ++ nl) 1.
Proof.
  pose proof (get_sys_mem_first
                (fun _ => Some ["MemFree: 100 kB" ++ nl; "MemTotal: 1000 kB" ++ nl;
                                "MemTotal: garbage"])) as H.
  cbv beta in H. destruct H as [H _].
  apply (H ["MemFree: 100 kB" ++ nl] ("MemTotal: 1000 kB" ++ nl)
           ["MemTotal: garbage"]).
  - reflexivity.
  - intros l [<- | []]. reflexivity.
  - reflexivity.
Defined.



Lemma int_field_raises (line : string) (i : nat) (e : exn) :
  int_field line i = Raise e -> e = IndexError \/ e = ValueError.
Proof.
  unfold int_field, item. destruct (nth_error (split line) i) as [tok |].
  - cbn [bind]. intros H. right. eapply int_of_str_raises; eauto.
  - cbn [bind]. intros H. left. now inversion H.
Qed.

Lemma duim_rss_scan_app (l1 l2 : list string) (acc : Z) :
  Duim.rss_scan (l1 ++ l2) acc
  = (a <- Duim.rss_scan l1 acc ;; Duim.rss_scan l2 a).
Proof.
  revert acc. induction l1 as [| l l1 IH]; intros acc; [reflexivity |].
  cbn [app Duim.rss_scan]. destruct (startswith l "Rss:"); [| apply IH].
  destruct (int_field l 1) as [v | e]; cbn [bind]; [apply IH | reflexivity].
Qed.

Lemma assignment2_rss_scan_app (l1 l2 : list string) (acc : Z) :
  Assignment2.rss_scan (l1 ++ l2) acc
  = (a <- Assignment2.rss_scan l1 acc ;; Assignment2.rss_scan l2 a).
Proof.
  revert acc. induction l1 as [| l l1 IH]; intros acc; [reflexivity |].
  cbn [app Assignment2.rss_scan]. destruct (startswith l "Rss:"); [| apply IH].
  destruct (int_field l 1) as [v | e]; cbn [bind]; [apply IH | reflexivity].
Qed.

(** X15.  The readers of the memory map forgive a missing file only: when
    a line beginning with [Rss:] cannot be read (the lines before it
    having been read), the [IndexError] of a line without a second item,
    or the [ValueError] of a second item that is not an integer, leaves
    [rss_mem_of_pid] and [get_rss_total] uncaught.  A line made of [Rss:]
    and whitespace only gives the [IndexError]. *)
Theorem rss_unreadable_line (fs : filesystem) (pid : Z) (pid_name : string)
  (pre post : list string) (line : string) (vals : list Z) (e : exn) :
  Forall2 (fun l v => int_field l 1 = Ok v)
    (filter (fun l => startswith l "Rss:") pre) vals ->
  startswith line "Rss:" = true ->
  int_field line 1 = Raise e ->
  (e = IndexError \/ e = ValueError) /\
  (fs ("/proc/" ++ str_of_int pid ++ "/smaps") = Some (pre ++ line :: post)%list ->
   Assignment2.rss_mem_of_pid fs pid = Raise e) /\
  (fs ("/proc/" ++ pid_name ++ "/smaps") = Some (pre ++ line :: post)%list ->
   Duim.get_rss_total fs pid_name = Raise e) /\
  (forall trail, all_space trail = true ->
     int_field ("Rss:" ++ trail) 1 = Raise IndexError).
Proof.
  intros Hpre Hline He.
  pose proof (int_field_raises line 1 e He) as Hcases.
  split; [exact Hcases |]. split; [| split].
  - intros Hfs. unfold Assignment2.rss_mem_of_pid, open_lines. rewrite Hfs.
    cbn [bind]. rewrite assignment2_rss_scan_app.
    rewrite (assignment2_rss_scan_sum pre 0 vals Hpre). cbn [bind].
    cbn [Assignment2.rss_scan]. rewrite Hline, He. cbn [bind try_except].
    destruct Hcases as [-> | ->]; reflexivity.
  - intros Hfs. unfold Duim.get_rss_total, open_lines. rewrite Hfs.
    cbn [bind]. rewrite duim_rss_scan_app.
    rewrite (duim_rss_scan_sum pre 0 vals Hpre). cbn [bind].
    cbn [Duim.rss_scan]. rewrite Hline, He. cbn [bind try_except].
    destruct Hcases as [-> | ->]; reflexivity.
  - intros trail Ht. unfold int_field.
    rewrite split_word_app; [| discriminate | reflexivity |].
    + rewrite (split_all_space _ Ht). reflexivity.
    + destruct trail as [| a t]; [now left |]. right. exists a, t.
      simpl in Ht. apply andb_true_iff in Ht. tauto.
Qed.

Lemma rss_unreadable_line_witness :
  Assignment2.rss_mem_of_pid
    (fun _ => Some ["Rss: 100 kB" ++ nl; "Rss: n/a kB" ++ nl; "Rss: 5 kB" ++ nl])
    42
  = Raise ValueError /\
  Duim.get_rss_total
    (fun _ => Some ["Rss: 100 kB" ++ nl; "Rss: n/a kB" ++ nl; "Rss: 5 kB" ++ nl])
    "42"
  = Raise ValueError.
Proof.
  destruct (rss_unreadable_line
              (fun _ => Some ["Rss: 100 kB" ++ nl; "Rss: n/a kB" ++ nl;
                              "Rss: 5 kB" ++ nl])
              42 "42" ["Rss: 100 kB" ++ nl] ["Rss: 5 kB" ++ nl]
              ("Rss: n/a kB" ++ nl) [100] ValueError)
    as (_ & H1 & H2 & _).
  - repeat constructor.
  - reflexivity.
  - reflexivity.
  - split; [apply H1 | apply H2]; reflexivity.
Defined.

End ProcEdges.

(** ** Runs of the memory report *)

Section MemoryReport.

(** The amount in MiB of an integer of magnitude below [2 ^ 53]. *)
Lemma mib_runs (x : Z) :
  - 2 ^ 53 < x < 2 ^ 53 -> exists s, Assignment2.mib x = Ok s.
Proof.
  intros Hx. unfold Assignment2.mib. cbn [truediv]. unfold int_truediv.
  change (1024 =? 0) with false. cbv iota.
  destruct (x =? 0) eqn:E; [eexists; reflexivity |].
  apply Z.eqb_neq in E.
  destruct (SFdiv_int_finite (x <? 0) (1024 <? 0) (Z.to_pos (Z.abs x))
              (Z.to_pos (Z.abs 1024))) as (m & e & Hdiv & _).
  { rewrite Z2Pos.id by lia. lia. }
  { reflexivity. }
  rewrite Hdiv. eexists. reflexivity.
Qed.

(** The bar of [Assignment2.percent_to_graph] for a float in [[0, 1]]. *)
Lemma unit_bar (r : spec_float) (L : Z) :
  float_in_0 1 r -> 0 <= L < 2 ^ 53 ->
  exists hashes shown,
    Assignment2.percent_to_graph (PyFloat r) L
    = Ok ("[" ++ str_mul "#" hashes ++ str_mul " " (L - hashes)
            ++ " | " ++ str_of_int shown ++ "%]") /\
    0 <= hashes <= L /\ 0 <= shown <= 100.
Proof.
  intros Hr HL. unfold Assignment2.percent_to_graph.
  destruct (mul_ratio_nonneg r L Hr HL) as (v & Hv & Hvin).
  destruct (int_in_0 L v ltac:(lia) Hvin) as (k & Hk & Hkb & _).
  destruct (mul_ratio_nonneg r 100 Hr ltac:(split; [lia | reflexivity]))
    as (v' & Hv' & Hvin').
  destruct (int_in_0 100 v' ltac:(lia) Hvin') as (k' & Hk' & Hkb' & _).
  rewrite Hv. cbn [bind]. rewrite Hk. cbn [bind]. cbv zeta.
  rewrite !str_repeat_small by lia. cbn [bind].
  rewrite Hv'. cbn [bind]. rewrite Hk'. cbn [bind].
  exists k, k'. auto.
Qed.

(** A line of the report for a value between 0 and the total. *)
Lemma usage_line_runs (a : Assignment2.args) (label : string)
  (value total : Z) (total_h : string) :
  0 <= value <= total -> 0 < total < 2 ^ 53 ->
  0 <= Assignment2.length a < 2 ^ 53 ->
  (Assignment2.human_readable a = true -> Assignment2.mib total = Ok total_h) ->
  exists line,
    Assignment2.usage_line a label value total total_h = Ok line /\
    usage_shape a label value total line.
Proof.
  intros Hv Ht Hl Hh. unfold Assignment2.usage_line, usage_shape.
  destruct (int_truediv_unit value total Hv ltac:(lia)) as (r & Hr & Hin).
  destruct (unit_bar r (Assignment2.length a) Hin Hl)
    as (hashes & shown & Hbar & Hhashes & Hshown).
  destruct (Assignment2.human_readable a) eqn:Eh.
  - destruct (mib_runs value ltac:(lia)) as [value_h Hvh].
    rewrite Hvh. cbn [bind truediv]. rewrite Hr. cbn [bind]. rewrite Hbar.
    cbn [bind]. eexists. split; [reflexivity |].
    exists hashes, shown, value_h, total_h.
    rewrite !append_assoc. repeat split; auto; lia.
  - cbn [truediv]. rewrite Hr. cbn [bind]. rewrite Hbar. cbn [bind].
    eexists. split; [reflexivity |].
    exists hashes, shown, (str_of_int value), (str_of_int total).
    rewrite !append_assoc. repeat split; auto; lia.
Qed.

(** The start of [main]: the two readings and the line for the memory
    of the system. *)
Lemma memory_block (a : Assignment2.args) (fs : filesystem) (total avail : Z) :
  Assignment2.get_sys_mem fs = Ok total ->
  Assignment2.get_avail_mem fs = Ok avail ->
  0 <= avail <= total -> 0 < total < 2 ^ 53 ->
  0 <= Assignment2.length a < 2 ^ 53 ->
  exists total_h line,
    (total_mem <- Assignment2.get_sys_mem fs ;;
     avail_mem <- Assignment2.get_avail_mem fs ;;
     total_mem_h <- (if Assignment2.human_readable a
                     then Assignment2.mib total_mem else Ok EmptyString) ;;
     line <- Assignment2.usage_line a "Memory         "
               (total_mem - avail_mem) total_mem total_mem_h ;;
     Ok (total_mem, total_mem_h, line))
    = Ok (total, total_h, line) /\
    (Assignment2.human_readable a = true -> Assignment2.mib total = Ok total_h) /\
    usage_shape a "Memory         " (total - avail) total line.
Proof.
  intros Hsys Havail Ha Ht Hl. rewrite Hsys, Havail. cbn [bind].
  destruct (mib_runs total ltac:(lia)) as [th Hth].
  assert (Hh : exists total_h,
             (if Assignment2.human_readable a then Assignment2.mib total
              else Ok EmptyString) = Ok total_h /\
             (Assignment2.human_readable a = true ->
              Assignment2.mib total = Ok total_h)).
  { destruct (Assignment2.human_readable a).
    - exists th. auto.
    - exists "". split; [reflexivity | discriminate]. }
  destruct Hh as (total_h & Hh1 & Hh2). rewrite Hh1. cbn [bind].
  destruct (usage_line_runs a "Memory         " (total - avail) total total_h
              ltac:(lia) Ht Hl Hh2) as (line & Hline & Hshape).
  rewrite Hline. cbn [bind]. exists total_h, line. auto.
Qed.

(** X16.  When [get_sys_mem] gives 0, as it does when [/proc/meminfo] has
    no [MemTotal] line, [main] ends with an uncaught [ZeroDivisionError]
    before it prints anything: the quotient by the total is not guarded.
    (The available memory is of magnitude below [2 ^ 53].) *)
Theorem main_without_memtotal (a : Assignment2.args) (fs : filesystem)
  (pidof : Assignment2.pidof_oracle) (avail : Z) :
  Assignment2.get_sys_mem fs = Ok 0 ->
  Assignment2.get_avail_mem fs = Ok avail ->
  - 2 ^ 53 < avail < 2 ^ 53 ->
  Assignment2.main a fs pidof = ([], Some ZeroDivisionError).
Proof.
  intros Hsys Havail Ha. unfold Assignment2.main.
  rewrite Hsys, Havail. cbn [bind]. cbv zeta.
  unfold Assignment2.usage_line.
  destruct (Assignment2.human_readable a).
  - change (Assignment2.mib 0) with (Ok "0.00 MiB"). cbn [bind].
    destruct (mib_runs (0 - avail) ltac:(lia)) as [h Hh]. rewrite Hh.
    reflexivity.
  - reflexivity.
Qed.

Lemma main_without_memtotal_witness :
  Assignment2.main
    {| Assignment2.human_readable := true; Assignment2.length := 20;
       Assignment2.program := None |}
    (fun _ => Some ["MemFree: 100 kB" ++ nl])
    (fun _ => None)
  = ([], Some ZeroDivisionError).
Proof.
  apply (main_without_memtotal _ _ _ 200).
  - reflexivity.
  - reflexivity.
  - split; reflexivity.
Defined.

(** X17.  With no program on the command line (or an empty one), when
    the available memory is between 0 and the total, the total is positive
    and below [2 ^ 53] and the length of the graph is from 0 to below
    [2 ^ 53], [main] ends without an exception after one line: the label
    [Memory] padded to 15 characters, a bar of [length] characters between
    brackets with a percentage from 0 to 100, and the used and total
    amounts. *)
Theorem main_memory_line (a : Assignment2.args) (fs : filesystem)
  (pidof : Assignment2.pidof_oracle) (total avail : Z) :
  Assignment2.get_sys_mem fs = Ok total ->
  Assignment2.get_avail_mem fs = Ok avail ->
  0 <= avail <= total -> 0 < total < 2 ^ 53 ->
  0 <= Assignment2.length a < 2 ^ 53 ->
  Assignment2.program a = None \/ Assignment2.program a = Some "" ->
  exists line,
    Assignment2.main a fs pidof = ([line], None) /\
    usage_shape a "Memory         " (total - avail) total line.
Proof.
  intros Hsys Havail Ha Ht Hl Hp.
  destruct (memory_block a fs total avail Hsys Havail Ha Ht Hl)
    as (total_h & line & Hblock & _ & Hshape).
  exists line. split; [| exact Hshape].
  unfold Assignment2.main. rewrite Hblock.
  destruct Hp as [-> | ->]; reflexivity.
Qed.

Lemma main_memory_line_witness :
  exists line,
    Assignment2.main
      {| Assignment2.human_readable := false; Assignment2.length := 20;
         Assignment2.program := None |}
      (fun _ => Some ["MemTotal: 1000 kB" ++ nl; "MemAvailable: 250 kB" ++ nl])
      (fun _ => None)
    = ([line], None) /\
    usage_shape
      {| Assignment2.human_readable := false; Assignment2.length := 20;
         Assignment2.program := None |}
      "Memory         " (1000 - 250) 1000 line.
Proof.
  apply (main_memory_line _ _ _ 1000 250).
  - reflexivity.
  - reflexivity.
  - split; discriminate.
  - split; reflexivity.
  - split; [discriminate | reflexivity].
  - left. reflexivity.
Defined.

(** X18.  With a program on the command line for which [pids_of_prog]
    returns no pid, [main] prints the line for the memory of the system,
    then [<program> not found.], and ends without an exception (same
    conditions on the memory and on the length of the graph). *)
Theorem main_program_not_found (a : Assignment2.args) (fs : filesystem)
  (pidof : Assignment2.pidof_oracle) (total avail : Z) (prog : string) :
  Assignment2.get_sys_mem fs = Ok total ->
  Assignment2.get_avail_mem fs = Ok avail ->
  0 <= avail <= total -> 0 < total < 2 ^ 53 ->
  0 <= Assignment2.length a < 2 ^ 53 ->
  Assignment2.program a = Some prog -> prog <> "" ->
  Assignment2.pids_of_prog pidof prog = [] ->
  exists line,
    Assignment2.main a fs pidof = ([line; prog ++ " not found."], None) /\
    usage_shape a "Memory         " (total - avail) total line.
Proof.
  intros Hsys Havail Ha Ht Hl Hp Hne Hpids.
  destruct (memory_block a fs total avail Hsys Havail Ha Ht Hl)
    as (total_h & line & Hblock & _ & Hshape).
  exists line. split; [| exact Hshape].
  unfold Assignment2.main. rewrite Hblock, Hp.
  destruct prog as [| c name]; [congruence |]. now rewrite Hpids.
Qed.

Lemma main_program_not_found_witness :
  exists line,
    Assignment2.main
      {| Assignment2.human_readable := false; Assignment2.length := 20;
         Assignment2.program := Some "bash" |}
      (fun _ => Some ["MemTotal: 1000 kB" ++ nl; "MemAvailable: 250 kB" ++ nl])
      (fun _ => Some ("12 oops 7" ++ nl))
    = ([line; "bash" ++ " not found."], None) /\
    usage_shape
      {| Assignment2.human_readable := false; Assignment2.length := 20;
         Assignment2.program := Some "bash" |}
      "Memory         " (1000 - 250) 1000 line.
Proof.
  apply (main_program_not_found _ _ _ 1000 250 "bash").
  - reflexivity.
  - reflexivity.
  - split; discriminate.
  - split; reflexivity.
  - split; [discriminate | reflexivity].
  - reflexivity.
  - discriminate.
  - reflexivity.
Defined.

Lemma rss_bounded (fs : filesystem) (pids rs : list Z) (total : Z) :
  Forall2 (fun pid r => Assignment2.rss_mem_of_pid fs pid = Ok r /\ 0 <= r)
    pids rs ->
  sum rs <= total ->
  0 <= sum rs /\
  Forall2 (fun pid r => Assignment2.rss_mem_of_pid fs pid = Ok r /\
                        0 <= r <= total) pids rs.
Proof.
  intros H. revert total.
  induction H as [| pid r pids rs [Hr H0] H IH]; intros total Hsum.
  - split; [unfold sum; simpl; lia | constructor].
  - rewrite sum_cons in *. destruct (IH (sum rs) ltac:(lia)) as [Hpos _].
    destruct (IH total ltac:(lia)) as [_ Hall].
    split; [lia |]. constructor; [split; [exact Hr | lia] | exact Hall].
Qed.

Lemma rss_each_ok (fs : filesystem) (pids rs : list Z) (total : Z) :
  Forall2 (fun pid r => Assignment2.rss_mem_of_pid fs pid = Ok r /\
                        0 <= r <= total) pids rs ->
  Assignment2.rss_each fs pids = Ok rs.
Proof.
  intros H. induction H as [| pid r pids rs [Hr _] H IH]; [reflexivity |].
  cbn [Assignment2.rss_each]. rewrite Hr. cbn [bind]. rewrite IH. reflexivity.
Qed.

(** The loop over the pids prints one line per pid when every resident
    size is between 0 and the total. *)
Lemma pid_loop_runs (a : Assignment2.args) (fs : filesystem)
  (total : Z) (total_h : string) (pids rs : list Z) (out : list string) :
  0 < total < 2 ^ 53 -> 0 <= Assignment2.length a < 2 ^ 53 ->
  (Assignment2.human_readable a = true -> Assignment2.mib total = Ok total_h) ->
  Forall2 (fun pid r => Assignment2.rss_mem_of_pid fs pid = Ok r /\
                        0 <= r <= total) pids rs ->
  exists lines,
    Assignment2.pid_loop a fs total total_h pids out
    = ((out ++ lines)%list, None) /\
    Forall2 (fun pid line =>
               exists r, Assignment2.rss_mem_of_pid fs pid = Ok r /\
                         usage_shape a (ljust 15 (str_of_int pid)) r total line)
      pids lines.
Proof.
  intros Ht Hl Hh H. revert out.
  induction H as [| pid r pids rs [Hr Hb] H IH]; intros out.
  - exists []. rewrite app_nil_r. split; [reflexivity | constructor].
  - cbn [Assignment2.pid_loop]. rewrite Hr. cbn [bind].
    destruct (usage_line_runs a (ljust 15 (str_of_int pid)) r total total_h
                Hb Ht Hl Hh) as (line & Hline & Hshape).
    rewrite Hline. destruct (IH (out ++ [line])%list) as (lines & Hloop & Hf).
    exists (line :: lines). rewrite Hloop, <- app_assoc.
    split; [reflexivity |]. constructor; [eauto | exact Hf].
Qed.

(** X19.  With a program for which [pids_of_prog] returns pids, when the
    resident size of every pid can be read and is not negative and their
    sum is at most the total memory (same conditions on the memory and on
    the length of the graph), [main] ends without an exception after
    [2 + n] lines for [n] pids: the line for the memory of the system, one
    line per pid in order, labelled with the pid padded to 15 characters,
    and one line labelled with the program for the sum of the resident
    sizes. *)
Theorem main_program_lines (a : Assignment2.args) (fs : filesystem)
  (pidof : Assignment2.pidof_oracle) (total avail : Z) (prog : string)
  (pids rs : list Z) :
  Assignment2.get_sys_mem fs = Ok total ->
  Assignment2.get_avail_mem fs = Ok avail ->
  0 <= avail <= total -> 0 < total < 2 ^ 53 ->
  0 <= Assignment2.length a < 2 ^ 53 ->
  Assignment2.program a = Some prog -> prog <> "" ->
  Assignment2.pids_of_prog pidof prog = pids -> pids <> [] ->
  Forall2 (fun pid r => Assignment2.rss_mem_of_pid fs pid = Ok r /\ 0 <= r)
    pids rs ->
  sum rs <= total ->
  exists line pid_lines total_line,
    Assignment2.main a fs pidof
    = ((line :: pid_lines ++ [total_line])%list, None) /\
    usage_shape a "Memory         " (total - avail) total line /\
    Forall2 (fun pid l =>
               exists r, Assignment2.rss_mem_of_pid fs pid = Ok r /\
                         usage_shape a (ljust 15 (str_of_int pid)) r total l)
      pids pid_lines /\
    usage_shape a (ljust 15 prog) (sum rs) total total_line.
Proof.
  intros Hsys Havail Ha Ht Hl Hp Hne Hpids Hsome Hrs Hsum.
  destruct (memory_block a fs total avail Hsys Havail Ha Ht Hl)
    as (total_h & line & Hblock & Hh & Hshape).
  destruct (rss_bounded fs pids rs total Hrs Hsum) as [Hpos Hall].
  destruct (pid_loop_runs a fs total total_h pids rs [line] Ht Hl Hh Hall)
    as (pid_lines & Hloop & Hlines).
  destruct (usage_line_runs a (ljust 15 prog) (sum rs) total total_h
              ltac:(lia) Ht Hl Hh) as (total_line & Htl & Htshape).
  exists line, pid_lines, total_line.
  split; [| split; [exact Hshape | split; [exact Hlines | exact Htshape]]].
  unfold Assignment2.main. rewrite Hblock, Hp.
  destruct prog as [| c name]; [congruence |]. rewrite Hpids.
  destruct pids as [| pid rest]; [congruence |].
  rewrite Hloop, (rss_each_ok fs _ rs total Hall). cbn [bind].
  rewrite Htl. reflexivity.
Qed.

Lemma main_program_lines_witness :
  exists line pid_lines total_line,
    Assignment2.main
      {| Assignment2.human_readable := false; Assignment2.length := 10;
         Assignment2.program := Some "bash" |}
      (fun path =>
         if String.eqb path "/proc/meminfo"
         then Some ["MemTotal: 1000 kB" ++ nl; "MemAvailable: 250 kB" ++ nl]
         else if String.eqb path "/proc/12/smaps"
         then Some ["Rss: 100 kB" ++ nl; "Rss: 50 kB" ++ nl]
         else None)
      (fun _ => Some ("12 7" ++ nl))
    = ((line :: pid_lines ++ [total_line])%list, None) /\
    Datatypes.length pid_lines = 2%nat.
Proof.
  destruct (main_program_lines
              {| Assignment2.human_readable := false; Assignment2.length := 10;
                 Assignment2.program := Some "bash" |}
              (fun path =>
                 if String.eqb path "/proc/meminfo"
                 then Some ["MemTotal: 1000 kB" ++ nl;
                            "MemAvailable: 250 kB" ++ nl]
                 else if String.eqb path "/proc/12/smaps"
                 then Some ["Rss: 100 kB" ++ nl; "Rss: 50 kB" ++ nl]
                 else None)
              (fun _ => Some ("12 7" ++ nl))
              1000 250 "bash" [12; 7] [150; 0])
    as (line & pid_lines & total_line & Hm & _ & Hf & _).
  - reflexivity.
  - reflexivity.
  - split; discriminate.
  - split; reflexivity.
  - split; [discriminate | reflexivity].
  - reflexivity.
  - discriminate.
  - reflexivity.
  - discriminate.
  - repeat constructor; discriminate.
  - discriminate.
  - exists line, pid_lines, total_line. split; [exact Hm |].
    symmetry. exact (Forall2_length Hf).
Defined.

(** [int] gives back the integer that a float holds. *)
Lemma int_float_of_int (W : Z) (m : positive) (e : Z) :
  e <= 0 -> Zpos m = W * 2 ^ (- e) ->
  int (PyFloat (S754_finite false m e)) = Ok W.
Proof.
  intros He Hm. cbn [int cond_Zopp]. f_equal.
  destruct e as [| e | e]; try lia; cbv beta iota.
  change (- Zneg e) with (Zpos e) in Hm.
  assert (Hpe : 0 < 2 ^ Zpos e) by (apply Z.pow_pos_nonneg; lia).
  rewrite Hm. apply Z.div_mul. lia.
Qed.

(** X20.  For a length from 0 to below [2 ^ 53], the bar of
    assignment2's [percent_to_graph] is made of spaces only, with [0%], at
    the fraction 0, and of markers only, with [100%], at the fraction 1,
    whether the fraction is an [int] or a [float]. *)
Theorem assignment2_percent_to_graph_endpoints (length : Z) :
  0 <= length < 2 ^ 53 ->
  Assignment2.percent_to_graph (PyInt 0) length
  = Ok ("[" ++ str_mul " " length ++ " | 0%]") /\
  Assignment2.percent_to_graph (PyFloat (S754_zero false)) length
  = Ok ("[" ++ str_mul " " length ++ " | 0%]") /\
  Assignment2.percent_to_graph (PyInt 1) length
  = Ok ("[" ++ str_mul "#" length ++ " | 100%]") /\
  Assignment2.percent_to_graph (PyFloat (float_lit 1)) length
  = Ok ("[" ++ str_mul "#" length ++ " | 100%]").
Proof.
  intros HL. unfold Assignment2.percent_to_graph. repeat apply conj.
  - cbn [mul bind int]. cbv zeta.
    rewrite Z.mul_0_l, Z.sub_0_r, !str_repeat_small by lia. reflexivity.
  - cbn [mul to_float bind].
    assert (Hw : exists w, float_of_int length = Ok w /\
                           SFmul prec emax (S754_zero false) w = S754_zero false).
    { destruct (Z.eq_dec length 0) as [-> | Hne].
      - eexists. split; reflexivity.
      - destruct (float_of_int_small length ltac:(lia)) as (m & e & H & _).
        eexists. split; [exact H | reflexivity]. }
    destruct Hw as (w & Hw & Hmul). rewrite Hw. cbn [bind]. rewrite Hmul.
    cbn [int bind]. cbv zeta.
    rewrite Z.sub_0_r, !str_repeat_small by lia. reflexivity.
  - cbn [mul bind int]. cbv zeta.
    rewrite Z.mul_1_l, Z.sub_diag, !str_repeat_small by lia.
    change (str_mul " " 0) with "". reflexivity.
  - cbn [mul to_float bind].
    change (float_of_int 100)
      with (Ok (S754_finite false 7036874417766400 (-46))).
    destruct (Z.eq_dec length 0) as [-> | Hne]; [reflexivity |].
    destruct (float_of_int_canonical length ltac:(lia))
      as (m & e & Hw & Hm & He & Hv).
    rewrite Hw. cbn [bind]. unfold float_lit.
    change (binary_normalize prec emax 1 0 false)
      with (S754_finite false 4503599627370496 (-52)).
    rewrite (SFmul_one_l m e Hm He).
    rewrite (int_float_of_int length m e ltac:(lia) Hv). cbn [bind]. cbv zeta.
    rewrite Z.sub_diag, !str_repeat_small by lia. cbn [bind].
    change (str_mul " " 0) with "". reflexivity.
Qed.

Lemma assignment2_percent_to_graph_endpoints_witness :
  Assignment2.percent_to_graph (PyFloat (S754_zero false)) 20
  = Ok ("[" ++ str_mul " " 20 ++ " | 0%]") /\
  Assignment2.percent_to_graph (PyFloat (float_lit 1)) 20
  = Ok ("[" ++ str_mul "#" 20 ++ " | 100%]").
Proof.
  assert (H : 0 <= 20 < 2 ^ 53) by (split; [discriminate | reflexivity]).
  destruct (assignment2_percent_to_graph_endpoints 20 H) as (_ & H1 & _ & H2).
  split; [exact H1 | exact H2].
Defined.

Lemma div_half_even_scale (a b c : Z) :
  0 < b -> 0 < c -> div_half_even (a * c) (b * c) = div_half_even a b.
Proof.
  intros Hb Hc. unfold div_half_even.
  rewrite Z.div_mul_cancel_r, Z.mul_mod_distr_r by lia.
  replace (2 * (a mod b * c)) with (2 * (a mod b) * c) by ring.
  rewrite <- Zmult_compare_compat_r by lia. reflexivity.
Qed.

(** The quotient of a positive integer below [2 ^ 53] by 1024 is exact. *)
Lemma SFdiv_1024 (p : positive) :
  Zpos p < 2 ^ 53 ->
  exists m k,
    SFdiv prec emax (S754_finite false p 0) (S754_finite false 1024 0)
    = S754_finite false m (Zneg k) /\
    10 <= Zpos k /\ Zpos m = Zpos p * 2 ^ (Zpos k - 10).
Proof.
  intros Hp. cbn [SFdiv xorb]. unfold SFdiv_core_binary. cbn [Zdigits2].
  change (Zpos (digits2_pos 1024)) with 11.
  pose proof (digits2_pos_bounds p) as [Hp1 Hp2].
  set (d := Zpos (digits2_pos p)) in *.
  assert (Hd : 1 <= d <= 53).
  { split; [unfold d; lia |]. apply (Zdigits2_le (Zpos p) 53); lia. }
  assert (He' : Z.min (fexp prec emax (d + 0 - (11 + 0))) (0 - 0) = d - 64).
  { unfold fexp, emin, prec, emax. lia. }
  rewrite He'. replace (0 - 0 - (d - 64)) with (64 - d) by lia.
  destruct (64 - d) as [| s | s] eqn:Es; try lia.
  rewrite Z.shiftl_mul_pow2 by lia.
  assert (Hs : 2 ^ Zpos s = 2 ^ (54 - d) * 1024).
  { change 1024 with (2 ^ 10). rewrite <- Z.pow_add_r by lia. f_equal. lia. }
  assert (Hpow : 0 < 2 ^ (54 - d)) by (apply Z.pow_pos_nonneg; lia).
  pose proof (Z_div_mod (Zpos p * 2 ^ Zpos s) 1024 ltac:(lia)) as Hdm.
  destruct (Z.div_eucl (Zpos p * 2 ^ Zpos s) 1024) as [q r].
  destruct Hdm as [Hq Hr].
  assert (Hqr : q = Zpos p * 2 ^ (54 - d) /\ r = 0).
  { rewrite Hs in Hq.
    assert (H : 1024 * (Zpos p * 2 ^ (54 - d) - q) = r) by lia. lia. }
  destruct Hqr as [-> ->].
  change (new_location 1024 0) with loc_Exact.
  set (q := Zpos p * 2 ^ (54 - d)).
  assert (H53 : 2 ^ 53 = 2 ^ (d - 1) * 2 ^ (54 - d)).
  { rewrite <- Z.pow_add_r by lia. f_equal. lia. }
  assert (H54 : 2 ^ 54 = 2 ^ d * 2 ^ (54 - d)).
  { rewrite <- Z.pow_add_r by lia. f_equal. lia. }
  assert (Hq1 : 2 ^ 53 <= q).
  { rewrite H53. unfold q. apply Z.mul_le_mono_nonneg_r; lia. }
  assert (Hq2 : q < 2 ^ 54).
  { rewrite H54. unfold q. apply Z.mul_lt_mono_pos_r; lia. }
  assert (Hdig : Zdigits2 q = 54) by (apply Zdigits2_eq; lia).
  assert (Hhalf : q = Zpos p * 2 ^ (53 - d) * 2).
  { unfold q. replace (54 - d) with (53 - d + 1) by lia.
    rewrite Z.pow_add_r by lia. change (2 ^ 1) with 2. ring. }
  destruct (binary_round_aux_exact false q (d - 64)) as (m & Hres & Hm);
    rewrite ?Hdig; try lia.
  - change (2 ^ (54 - 53)) with 2. rewrite Hhalf. apply Z.mod_mul. lia.
  - rewrite Hdig in Hm, Hres. change (2 ^ (54 - 53)) with 2 in Hm.
    rewrite Hhalf, Z.div_mul in Hm by lia.
    replace (d - 64 + (54 - 53)) with (d - 63) in Hres by lia.
    destruct (d - 63) as [| k | k] eqn:Ek; try lia.
    exists m, k. split; [exact Hres |]. split; [lia |].
    rewrite Hm. do 2 f_equal. lia.
Qed.

(** X21.  In the human-readable mode an amount of [x] KiB, for [x] from 0
    to below [2 ^ 53], is written as [x / 1024] rounded to two decimals
    with no floating-point error: the hundredths printed are the integer
    nearest to [100 * x / 1024], the even one at a tie, so that 128 gives
    [0.12 MiB]. *)
Theorem mib_exact (x : Z) :
  0 <= x < 2 ^ 53 ->
  Assignment2.mib x
  = Ok (fixed_digits 2 (div_half_even (100 * x) 1024) ++ " MiB") /\
  2 * Z.abs (div_half_even (100 * x) 1024 * 1024 - 100 * x) <= 1024 /\
  (2 * Z.abs (div_half_even (100 * x) 1024 * 1024 - 100 * x) = 1024 ->
   Z.even (div_half_even (100 * x) 1024) = true).
Proof.
  intros Hx. split; [| apply (div_half_even_nearest (100 * x) 1024); lia].
  unfold Assignment2.mib. cbn [truediv]. unfold int_truediv.
  change (1024 =? 0) with false. cbv iota.
  destruct (x =? 0) eqn:E.
  - apply Z.eqb_eq in E. subst x. reflexivity.
  - apply Z.eqb_neq in E.
    replace (x <? 0) with false by (symmetry; apply Z.ltb_ge; lia).
    change (1024 <? 0) with false. change (Z.to_pos (Z.abs 1024)) with 1024%positive.
    destruct (SFdiv_1024 (Z.to_pos (Z.abs x))) as (m & k & Hdiv & Hk & Hm).
    { rewrite Z2Pos.id by lia. lia. }
    rewrite Z2Pos.id in Hm by lia. rewrite Z.abs_eq in Hm by lia.
    rewrite Hdiv. cbn [bind format_f to_float format_fixed append].
    do 3 f_equal.
    change (10 ^ Z.of_nat 2) with 100.
    assert (Hp : 0 < 2 ^ (Zpos k - 10)) by (apply Z.pow_pos_nonneg; lia).
    replace (2 ^ Zpos k) with (1024 * 2 ^ (Zpos k - 10)).
    + rewrite Hm.
      replace (x * 2 ^ (Zpos k - 10) * 100)
        with (100 * x * 2 ^ (Zpos k - 10)) by ring.
      apply div_half_even_scale; lia.
    + change 1024 with (2 ^ 10). rewrite <- Z.pow_add_r by lia. f_equal. lia.
Qed.

Lemma mib_exact_witness :
  Assignment2.mib 128
  = Ok (fixed_digits 2 (div_half_even (100 * 128) 1024) ++ " MiB").
Proof.
  assert (H : 0 <= 128 < 2 ^ 53) by (split; [discriminate | reflexivity]).
  exact (proj1 (mib_exact 128 H)).
Defined.

End MemoryReport.

(** ** The two readers of the memory map *)

Section Readers.

Lemma rss_scan_same (lines : list string) (acc : Z) :
  Duim.rss_scan lines acc = Assignment2.rss_scan lines acc.
Proof.
  revert acc. induction lines as [| line rest IH]; intros acc; [reflexivity |].
  cbn [Duim.rss_scan Assignment2.rss_scan].
  destruct (startswith line "Rss:"); [| apply IH].
  destruct (int_field line 1) as [v | e]; cbn [bind]; [apply IH | reflexivity].
Qed.

(** X22.  The readers of the two scripts agree: on every state of the
    files, duim's [get_rss_total] called with the decimal writing of a pid
    returns or raises what assignment2's [rss_mem_of_pid] returns or raises
    for that pid. *)
Theorem rss_readers_agree (fs : filesystem) (pid : Z) :
  Duim.get_rss_total fs (str_of_int pid) = Assignment2.rss_mem_of_pid fs pid.
Proof.
  unfold Duim.get_rss_total, Assignment2.rss_mem_of_pid.
  destruct (open_lines fs ("/proc/" ++ str_of_int pid ++ "/smaps"))
    as [lines | e]; [| reflexivity].
  cbn [bind]. now rewrite rss_scan_same.
Qed.

End Readers.

(** ** More available memory than total memory *)

Section Deficit.

Lemma SFmul_opp_l (x w : spec_float) :
  SFmul prec emax (SFopp x) w = SFopp (SFmul prec emax x w).
Proof.
  destruct x as [sx | sx | | sx mx ex], w as [sw | sw | | sw mw ew];
    cbn [SFmul SFopp]; rewrite <- ?negb_xorb_l; try reflexivity.
  apply binary_round_aux_opp.
Qed.

Lemma mul_opp_l (r v : spec_float) (W : Z) :
  mul (PyFloat r) (PyInt W) = Ok (PyFloat v) ->
  mul (PyFloat (SFopp r)) (PyInt W) = Ok (PyFloat (SFopp v)).
Proof.
  cbn [mul to_float bind]. destruct (float_of_int W) as [w | e]; cbn [bind];
    [| discriminate].
  intros H. inversion H. now rewrite SFmul_opp_l.
Qed.

Lemma int_opp (v : spec_float) (k : Z) :
  int (PyFloat v) = Ok k -> int (PyFloat (SFopp v)) = Ok (- k).
Proof.
  destruct v as [s | s | | s m e]; cbn [int SFopp]; try discriminate.
  - intros H; inversion H; reflexivity.
  - intros H; inversion H. f_equal. destruct s; simpl; lia.
Qed.

Lemma int_truediv_opp (a b : Z) (r : spec_float) :
  0 < a -> 0 < b -> int_truediv a b = Ok r ->
  int_truediv (- a) b = Ok (SFopp r).
Proof.
  intros Ha Hb. unfold int_truediv.
  replace (b =? 0) with false by (symmetry; apply Z.eqb_neq; lia).
  replace (a =? 0) with false by (symmetry; apply Z.eqb_neq; lia).
  replace (- a =? 0) with false by (symmetry; apply Z.eqb_neq; lia).
  replace (a <? 0) with false by (symmetry; apply Z.ltb_ge; lia).
  replace (- a <? 0) with true by (symmetry; apply Z.ltb_lt; lia).
  rewrite Z.abs_opp. cbn [SFdiv].
  destruct (SFdiv_core_binary _ _ _ _) as [[mz ez] lz].
  change (xorb true (b <? 0)) with (negb (xorb false (b <? 0))).
  rewrite binary_round_aux_opp.
  destruct (binary_round_aux prec emax (xorb false (b <? 0)) mz ez lz);
    cbn [SFopp]; try discriminate; intros H; inversion H; reflexivity.
Qed.

(** The bar of [Assignment2.percent_to_graph] for the opposite of a float
    in [[0, 1]]: no marker, and [k] spaces more than the length. *)
Lemma deficit_bar (r : spec_float) (L : Z) :
  float_in_0 1 r -> 0 <= L < 2 ^ 53 ->
  exists k shown,
    Assignment2.percent_to_graph (PyFloat (SFopp r)) L
    = Ok ("[" ++ str_mul " " (L + k) ++ " | " ++ str_of_int (- shown) ++ "%]") /\
    0 <= k <= L /\ 0 <= shown <= 100.
Proof.
  intros Hr HL. unfold Assignment2.percent_to_graph.
  destruct (mul_ratio_nonneg r L Hr HL) as (v & Hv & Hvin).
  destruct (int_in_0 L v ltac:(lia) Hvin) as (k & Hk & Hkb & _).
  destruct (mul_ratio_nonneg r 100 Hr ltac:(split; [lia | reflexivity]))
    as (v' & Hv' & Hvin').
  destruct (int_in_0 100 v' ltac:(lia) Hvin') as (k' & Hk' & Hkb' & _).
  rewrite (mul_opp_l _ _ _ Hv). cbn [bind]. rewrite (int_opp _ _ Hk).
  cbn [bind]. cbv zeta. rewrite !str_repeat_small by lia. cbn [bind].
  rewrite (mul_opp_l _ _ _ Hv'). cbn [bind].
  rewrite (int_opp _ _ Hk'). cbn [bind].
  exists k, k'. split; [| auto].
  rewrite str_mul_nonpos by lia. replace (L - - k) with (L + k) by lia.
  reflexivity.
Qed.

(** X23.  When the available memory read is above the total, at most twice
    the total (as the doubled [MemFree] of the fallback can be), the
    quotient passed to [percent_to_graph] is negative: with no program on
    the command line, [main] ends without an exception after one line
    whose bar has no marker and [length + k] spaces, [0 <= k <= length],
    and whose percentage is from -100 to 0. *)
Theorem main_available_above_total (a : Assignment2.args) (fs : filesystem)
  (pidof : Assignment2.pidof_oracle) (total avail : Z) :
  Assignment2.get_sys_mem fs = Ok total ->
  Assignment2.get_avail_mem fs = Ok avail ->
  total < avail <= 2 * total -> 0 < total < 2 ^ 53 ->
  0 <= Assignment2.length a < 2 ^ 53 ->
  Assignment2.program a = None \/ Assignment2.program a = Some "" ->
  exists k shown amounts,
    Assignment2.main a fs pidof
    = (["Memory         " ++ "[" ++ str_mul " " (Assignment2.length a + k)
          ++ " | " ++ str_of_int (- shown) ++ "%]" ++ " " ++ amounts], None) /\
    0 <= k <= Assignment2.length a /\ 0 <= shown <= 100.
Proof.
  intros Hsys Havail Ha Ht Hl Hp.
  destruct (int_truediv_unit (avail - total) total ltac:(lia) ltac:(lia))
    as (r & Hr & Hin).
  apply int_truediv_opp in Hr; [| lia | lia].
  replace (- (avail - total)) with (total - avail) in Hr by lia.
  destruct (deficit_bar r (Assignment2.length a) Hin Hl)
    as (k & shown & Hbar & Hk & Hshown).
  destruct (mib_runs total ltac:(lia)) as [th Hth].
  destruct (mib_runs (total - avail) ltac:(lia)) as [uh Huh].
  exists k, shown,
    (if Assignment2.human_readable a then uh ++ "/" ++ th
     else str_of_int (total - avail) ++ "/" ++ str_of_int total).
  split; [| auto].
  unfold Assignment2.main. rewrite Hsys, Havail. cbn [bind].
  unfold Assignment2.usage_line.
  destruct (Assignment2.human_readable a).
  - rewrite Hth. cbn [bind]. rewrite Huh. cbn [bind truediv]. rewrite Hr.
    cbn [bind]. rewrite Hbar. cbn [bind].
    rewrite !append_assoc. destruct Hp as [-> | ->]; reflexivity.
  - cbn [bind truediv]. rewrite Hr. cbn [bind]. rewrite Hbar. cbn [bind].
    rewrite !append_assoc. destruct Hp as [-> | ->]; reflexivity.
Qed.

Lemma main_available_above_total_witness :
  exists k shown amounts,
    Assignment2.main
      {| Assignment2.human_readable := false; Assignment2.length := 20;
         Assignment2.program := None |}
      (fun _ => Some ["MemTotal: 1000 kB" ++ nl; "MemFree: 700 kB" ++ nl])
      (fun _ => None)
    = (["Memory         " ++ "[" ++ str_mul " " (20 + k)
          ++ " | " ++ str_of_int (- shown) ++ "%]" ++ " " ++ amounts], None) /\
    0 <= k <= 20 /\ 0 <= shown <= 100.
Proof.
  apply (main_available_above_total
           {| Assignment2.human_readable := false; Assignment2.length := 20;
              Assignment2.program := None |}
           (fun _ => Some ["MemTotal: 1000 kB" ++ nl; "MemFree: 700 kB" ++ nl])
           (fun _ => None) 1000 1400).
  - reflexivity.
  - reflexivity.
  - split; [reflexivity | discriminate].
  - split; reflexivity.
  - split; [discriminate | reflexivity].
  - left. reflexivity.
Defined.

End Deficit.
